(** * The article acquisition and verification pipeline of web_researcher.py

    A shallow embedding of [src/web_researcher.py]: the three extraction
    tiers, the reachability probe, the load-with-retry driver, the validated
    prompt call with its rate-limit backoff, incident verification, suspect
    and victim upload, the per-URL orchestrator [process_url] and [main].

    The program talks to a browser, the network, a language model and a
    record store.  Every such call is an event whose outcome (a value or a
    raised exception) is chosen by a [world]; the world sees the whole
    history of earlier events, so any behaviour of the collaborators, stateful
    or not, is some world.  A computation maps the world and the history so
    far to its result and to the events it emitted, in program order. *)

From Stdlib Require Import Ascii String QArith Sorted.
From stdpp Require Import base strings list gmap sorting.

Local Open Scope Z_scope.
Local Open Scope string_scope.
Local Open Scope list_scope.

(** ** Python strings

    A [str] is modelled over the Latin-1 range, one [ascii] per code point;
    [len] is [String.length]. *)

Definition dquote : string := String "034"%char EmptyString.
Definition newline : string := String "010"%char EmptyString.

(** [str.lower()] on Latin-1: A-Z, and the accented capitals except the
    multiplication sign, move up by 32. *)
Definition lower_char (c : ascii) : ascii :=
  let n := nat_of_ascii c in
  if ((65 <=? n) && (n <=? 90))%nat
     || ((192 <=? n) && (n <=? 222) && negb (n =? 215))%nat
  then ascii_of_nat (n + 32) else c.

Fixpoint lower (s : string) : string :=
  match s with
  | EmptyString => EmptyString
  | String c r => String (lower_char c) (lower r)
  end.

(** [str.isspace] for one Latin-1 character. *)
Definition isspace (c : ascii) : bool :=
  let n := nat_of_ascii c in
  ((9 <=? n) && (n <=? 13))%nat || ((28 <=? n) && (n <=? 32))%nat
  || (n =? 133)%nat || (n =? 160)%nat.

Fixpoint lstrip (s : string) : string :=
  match s with
  | EmptyString => EmptyString
  | String c r => if isspace c then lstrip r else s
  end.

Fixpoint rstrip (s : string) : string :=
  match s with
  | EmptyString => EmptyString
  | String c r =>
      match rstrip r with
      | EmptyString => if isspace c then EmptyString else String c EmptyString
      | r' => String c r'
      end
  end.

(** [str.strip()] *)
Definition strip (s : string) : string := rstrip (lstrip s).

(** [needle in hay] *)
Fixpoint contains (needle hay : string) : bool :=
  String.prefix needle hay
  || match hay with
     | EmptyString => false
     | String _ r => contains needle r
     end.

(** Truthiness of a [str]: [if text:] *)
Definition truthy (s : string) : bool :=
  match s with EmptyString => false | String _ _ => true end.

(** ** Exceptions

    The classes the handlers of the file tell apart, each with its [str(e)].
    All of them derive from [Exception]; [TimeoutException] is selenium's
    subclass of [WebDriverException], and [WebDriverException] below stands
    for the driver faults that are not timeouts.  [DatabaseError] is the
    class of [work_with_db]; [OtherException] is any other [Exception]
    (a pydantic [ValidationError], a [NameError], ...). *)
Inductive exn : Type :=
  | JSONDecodeError (msg : string)
  | RequestException (msg : string)
  | TimeoutException (msg : string)
  | WebDriverException (msg : string)
  | DatabaseError (msg : string)
  | OtherException (msg : string).

Definition str_of (e : exn) : string :=
  match e with
  | JSONDecodeError m | RequestException m | TimeoutException m
  | WebDriverException m | DatabaseError m | OtherException m => m
  end.

Inductive outcome (A : Type) : Type :=
  | Returned (a : A)
  | Raised (e : exn).
Arguments Returned {A} a.
Arguments Raised {A} e.

Definition returned {A} (r : outcome A) : bool :=
  match r with Returned _ => true | Raised _ => false end.

(** ** Python floats

    A [float] is a binary64 number, given as the dyadic rational [m * 2^k].
    Arithmetic on floats is the exact operation followed by rounding to the
    nearest float, ties to even. *)
Definition float : Type := (Z * Z)%type.

(** [n / d] rounded to the nearest integer, ties to even, for [d > 0]. *)
Definition round_half_even (n d : Z) : Z :=
  (let fl := n / d in
   let rem := n mod d in
   if 2 * rem <? d then fl
   else if d <? 2 * rem then fl + 1
   else if Z.even fl then fl else fl + 1)%Z.

(** The [e] with [2^e ≤ n / d < 2^(e+1)], for positive [n] and [d]. *)
Definition binary_exponent (n d : Z) : Z :=
  (let e := Z.log2 n - Z.log2 d in
   if (if 0 <=? e then d * 2 ^ e <=? n else d <=? n * 2 ^ (- e)) then e
   else e - 1)%Z.

(** The float nearest to [n / d], for [d > 0]: 53 significant bits, fewer
    below [2^-1022]; the exponent is not bounded above, see [too_large]. *)
Definition nearest_float (n d : Z) : float :=
  (if n =? 0 then (0, 0)
   else
     let a := Z.abs n in
     let k := Z.max (binary_exponent a d) (-1022) - 52 in
     let m := if 0 <=? k then round_half_even a (d * 2 ^ k)
              else round_half_even (a * 2 ^ (- k)) d in
     (Z.sgn n * m, k))%Z.

(** Beyond the largest finite float. *)
Definition too_large (x : float) : bool :=
  let '(m, k) := x in
  (if 0 <=? k then 2 ^ 1024 <=? Z.abs m * 2 ^ k
   else 2 ^ 1024 * 2 ^ (- k) <=? Z.abs m)%Z.

Definition float_to_Q (x : float) : Q :=
  let '(m, k) := x in
  Qred (if (0 <=? k)%Z then inject_Z (m * 2 ^ k)
        else Qmake m (Z.to_pos (2 ^ (- k)))).

(** [math.ceil(x)] *)
Definition math_ceil (x : float) : Z :=
  let '(m, k) := x in
  (if 0 <=? k then m * 2 ^ k else - ((- m) / 2 ^ (- k)))%Z.

(** [a / b] for two [int]s: the float nearest to the quotient. *)
Definition int_true_div (a b : Z) : outcome float :=
  if (b =? 0)%Z then Raised (OtherException "ZeroDivisionError: division by zero")
  else
    let x := nearest_float (a * Z.sgn b) (Z.abs b) in
    if too_large x
    then Raised (OtherException
                   "OverflowError: integer division result too large for a float")
    else Returned x.

(** [x + y] for two floats given as rationals, far from the largest float. *)
Definition float_add (x y : Q) : Q :=
  let s := (x + y)%Q in
  float_to_Q (nearest_float (Qnum s) (Zpos (Qden s))).

(** [n + y] for an int and a float: the int is converted to the nearest
    float before the sum is taken. *)
Definition int_add_float (n : Z) (y : Q) : Q :=
  float_add (float_to_Q (nearest_float n 1)) y.

(** ** Data *)

(** The dict handed to [db.insert_url]. *)
Record url_record : Type := UrlRecord {
  url : string;
  domain_name : string;
  source : string;
  content : string;
  actual_incident : Z;
  accessible : Z
}.

(** Modelled from the spec: [models.py] is not in src.  The incident,
    suspect, victim and confirmation replies are JSON objects with an
    [answer] and (but for the confirmation) an optional [evidence] list, as
    the prompts of the file request them. *)
Record llm_response : Type := LlmResponse {
  answer : string;
  evidence : option (list string)
}.

Inductive model_class : Type :=
  | IncidentResponse | SuspectResponse | VictimResponse | ConfirmResponse.

Inductive form_class : Type := SuspectFormResponse | VictimFormResponse.

(** Modelled from the spec: the detail form of [models.py], a name and
    optional descriptive fields; an absent field is [None]. *)
Record form_data : Type := FormData {
  form_name : string;
  form_fields : list (string * option string)
}.

(** [response_data.evidence or []] *)
Definition evidence_or_empty (r : llm_response) : list string :=
  match evidence r with Some l => l | None => [] end.

(** The three browser sessions of the file: the throwaway one of
    [is_url_accessible], the long-lived [driver] of [main], and the one
    [extract_with_selenium] opens. *)
Inductive session : Type := ProbeSession | MainSession | TierSession.

(** ** External calls, indexed by what they return *)
Inductive call : Type → Type :=
  (* selenium *)
  | ChromeNew (s : session) : call unit
  | SetPageLoadTimeout (s : session) (seconds : Z) : call unit
  | DriverGet (s : session) (u : string) : call unit
  | DriverTitle (s : session) : call string
  | DriverPageSource (s : session) : call string
  | DriverQuit (s : session) : call unit
  (* newspaper3k: Article(url), download(), parse(), .text *)
  | NewspaperText (u : string) : call string
  (* requests.get(url, headers=..., timeout=...): status code and body *)
  | RequestsGet (u : string) (timeout : Z) : call (Z * string)
  (* llama_index: the index, the memory buffer and the chat engine *)
  | OpenChatEngine (text : string) : call unit
  | Chat (prompt : string) : call string
  | LlmComplete (prompt : string) : call string
  (* work_with_db.URLDatabase *)
  | DbConnect : call unit
  | DbSearchUrls (limit : Z) : call (list url_record)
  | DbInsertUrl (r : url_record) : call unit
  | DbGetUrlId (u : string) : call (option Z)
  | DbUpdateField (u field : string) (value : Z) : call unit
  | DbInsertIncident (url_id : option Z) (incident : string) : call unit
  | DbInsertSuspect (url_id : option Z) (name : string) : call unit
  | DbInsertVictim (url_id : option Z) (name : string) : call unit
  | DbGetSuspectId (url_id : option Z) (name : string) : call (option Z)
  | DbGetVictimId (url_id : option Z) (name : string) : call (option Z)
  | DbInsertSuspectForm (url_id : Z) (f : form_data) (suspect_id : option Z)
      : call unit
  | DbInsertVictimForm (url_id : Z) (f : form_data) (victim_id : option Z)
      : call unit
  (* get_urls_from_csvs.get_unique_urls_from_csvs *)
  | GetUniqueUrlsFromCsvs (dir col : string) (a b : Z) : call (list string).

(** One step of a run: an external call with its outcome, or a
    [time.sleep]. *)
Inductive entry : Type :=
  | Called {X : Type} (c : call X) (r : outcome X)
  | Slept (seconds : Q).

Definition trace : Type := list entry.

(** ** The world

    [respond] answers an external call after a given history.  The library
    functions the file applies to data it already holds are pure: pydantic's
    [model_validate_json], [json.loads] followed by [model_validate] for a
    form (given the class, the name put under the [name] key and the reply;
    it yields the other fields), readability's summary turned to text by
    BeautifulSoup, and [tldextract.extract(url).domain].  [uniform] is
    [random.uniform]; the float it returns is given as a rational. *)
Record world : Type := World {
  respond : ∀ X : Type, trace → call X → outcome X;
  uniform : trace → Q → Q → Q;
  model_validate_json : model_class → string → outcome llm_response;
  form_validate : form_class → string → string
                  → outcome (list (string * option string));
  readability_text : string → outcome string;
  tld_domain : string → string
}.

(** ** Computations *)
Definition M (A : Type) : Type := world → trace → outcome A * trace.

Definition ret {A} (a : A) : M A := λ _ _, (Returned a, []).

Definition raise {A} (e : exn) : M A := λ _ _, (Raised e, []).

Definition bind {A B} (m : M A) (k : A → M B) : M B :=
  λ w h,
    match m w h with
    | (Returned a, t) => let '(r, t') := k a w (h ++ t) in (r, t ++ t')
    | (Raised e, t) => (Raised e, t)
    end.

(** [try: m  except Exception as e: handler e] *)
Definition try_except {A} (m : M A) (handler : exn → M A) : M A :=
  λ w h,
    match m w h with
    | (Returned a, t) => (Returned a, t)
    | (Raised e, t) => let '(r, t') := handler e w (h ++ t) in (r, t ++ t')
    end.

Definition perform {X} (c : call X) : M X :=
  λ w h, let r := respond w X h c in (r, [Called c r]).

Definition sleep (seconds : Q) : M unit := λ _ _, (Returned tt, [Slept seconds]).

Definition random_uniform (a b : Q) : M Q := λ w h, (Returned (uniform w h a b), []).

(** A pure library function that may raise. *)
Definition lift {A} (f : world → outcome A) : M A := λ w _, (f w, []).

Definition pure_of {A} (f : world → A) : M A := λ w _, (Returned (f w), []).

Declare Scope prog_scope.
Delimit Scope prog_scope with prog.
Notation "x ← y ; z" := (bind y (λ x, z))
  (at level 20, y at level 100, z at level 200, only parsing) : prog_scope.
Notation "' x ← y ; z" := (bind y (λ x, z))
  (at level 20, x pattern, y at level 100, z at level 200, only parsing)
  : prog_scope.
Notation "x ;; z" := (bind x (λ _, z))
  (at level 100, z at level 200, only parsing, right associativity)
  : prog_scope.
Local Open Scope prog_scope.

Definition result_of {A} (x : outcome A * trace) : outcome A := fst x.
Definition emitted {A} (x : outcome A * trace) : trace := snd x.

(** ** Prompts *)

(** A string literal of the prompt, between double quotes. *)
Definition quoted (s : string) : string := dquote +:+ s +:+ dquote.

Definition MIN_TEXT_LENGTH : nat := 100.

Module SHORT_PROMPTS.

Definition incident_prompt : string :=
  String.concat EmptyString [
    "Assistant, please indicate if it can be said with certainty that this article is a factual report of an ";
    "actual incident of human trafficking or any closely associated crime.";
    "Return your answer in the following RAW JSON format with NO backticks OR code blocks:" +:+ newline;
    "{" +:+ newline;
    "  " +:+ quoted "answer" +:+ ": " +:+ quoted "yes" +:+ " or " +:+ quoted "no" +:+ "," +:+ newline;
    "  " +:+ quoted "evidence" +:+ ": [" +:+ quoted "incident1" +:+ ", " +:+ quoted "incident2" +:+ ", "
      +:+ quoted "incident3" +:+ "] or null" +:+ newline;
    "}" ].

Definition suspect_prompt : string :=
  String.concat EmptyString [
    "Assistant, please indicate if there is mention of suspect(s) of a crime related to human trafficking in this article. ";
    "Suspects has to be natural persons that is, the NAME (firstname and/or secondname of suspect) of a person, not organizations or any other entities. Exclude cases involving allegations and cases involving ";
    "politicians or celebrities or ANY other sensational reports or reporting.";
    "If yes, provide the suspects(s) by name. EXCLUDE ALL other detail and ONLY provide the NAME (firstname and/or secondname of suspect) of the suspect(s).";
    "Return your answer in the following RAW JSON format ONLY and NO backticks and with no code blocks:" +:+ newline;
    "{" +:+ newline;
    "  " +:+ quoted "answer" +:+ ": " +:+ quoted "yes" +:+ " or " +:+ quoted "no" +:+ "," +:+ newline;
    "  " +:+ quoted "evidence" +:+ ": [" +:+ quoted "firstname and/or secondname of suspect1" +:+ ", ";
    quoted "firstname and/or secondname of suspect2" +:+ ", "
      +:+ quoted "firstname and/or secondname of suspect3" +:+ ", ...] or null" +:+ newline;
    "}" ].

Definition victim_prompt : string :=
  String.concat EmptyString [
    "Assistant, the following is a list of named suspects in the accompanying article.  Please indicate if there is mention of victim(s) of a crime related to human trafficking in this article. ";
    "Victims have to be natural persons that is, the NAME (firstname and/or secondname of victim) of a person, not organizations or any other entities. Exclude cases involving allegations and cases involving ";
    "politicians or celebrities or ANY other sensational reports or reporting.";
    "If yes, provide the victim(s) by name. EXCLUDE ALL other detail and ONLY provide the NAME (firstname and/or secondname of victim) of the victim(s).";
    "Return your answer in the following RAW JSON format ONLY with NO backticks and with NO code blocks:" +:+ newline;
    "{" +:+ newline;
    "  " +:+ quoted "answer" +:+ ": " +:+ quoted "yes" +:+ " or " +:+ quoted "no" +:+ "," +:+ newline;
    "  " +:+ quoted "evidence" +:+ ": [" +:+ quoted "firstname and/or secondname of victim1" +:+ ", ";
    quoted "firstname and/or secondname of victim2" +:+ ", "
      +:+ quoted "firstname and/or secondname of victim2" +:+ ", ...] or null" +:+ newline;
    "}" ].

End SHORT_PROMPTS.

(** The f-string of [confirm_natural_name]. *)
Definition confirm_prompt (name : string) : string :=
  String.concat EmptyString [
    "Assistant, please evaluate the following string: '" +:+ name +:+ "'. ";
    "Determine whether this string is used to identify a natural person. ";
    "Return your answer in the following RAW JSON format ONLY and WITHOUT any backticks or additional commentary:" +:+ newline;
    "{" +:+ quoted "answer" +:+ ": " +:+ quoted "yes" +:+ " or " +:+ quoted "no" +:+ "}" ].

(** One line of a form prompt: ["key": value-description] *)
Definition form_line (indent key value tail : string) : string :=
  indent +:+ quoted key +:+ ": " +:+ value +:+ tail +:+ newline.

Definition text_or_null : string := quoted "text" +:+ " or null".
Definition date_or_null : string := quoted "YYYY-MM-DD" +:+ " or null".

Definition victim_form_prompt (victim : string) : string :=
  String.concat EmptyString [
    "Assistant, carefully extract the following details for the victim named " +:+ victim +:+ " from the text: ";
    "1. Gender, 2. Date of Birth, 3. Age, 4. Address Notes, 5. Phone number, 6. Nationality, ";
    "7. Occupation, 8. Victim Appearance, 9. Victim Vehicle Description, 10. Vehicle Plate #, ";
    "11. Where is the victim been trafficked to?, 12. What job has the victim been offered? ";
    "Return your answer in the following RAW JSON format ONLY and NO backticks or code blocks:" +:+ newline;
    form_line "{" "gender" (quoted "male" +:+ " or " +:+ quoted "female" +:+ " or null") ",";
    form_line "  " "date_of_birth" date_or_null ",";
    form_line "  " "age" (quoted "integer" +:+ " or null") ",";
    form_line "  " "address_notes" text_or_null ",";
    form_line "  " "phone_number" text_or_null ",";
    form_line "  " "nationality" text_or_null ",";
    form_line "  " "occupation" text_or_null ",";
    form_line "  " "appearance" text_or_null ",";
    form_line "  " "vehicle_description" text_or_null ",";
    form_line "  " "vehicle_plate_number" text_or_null ",";
    form_line "  " "destination" text_or_null ",";
    form_line "  " "job_offered" text_or_null EmptyString;
    "}" ].

Definition suspect_form_prompt (suspect : string) : string :=
  String.concat EmptyString [
    "Assistant, carefully extract the following details for " +:+ suspect +:+ " from the text: ";
    "1. Gender, 2. Date of Birth, 3. Age, 4. Address Notes, 5. Phone number, 6. Nationality, ";
    "7. Occupation, 8. Role, 9. Suspect Appearance, 10. Suspect Vehicle Description, 11. Vehicle Plate #, ";
    "12. What is evident of the suspect from the article, 13. Arrested status, 14. Arrest Date, ";
    "15. Crime(s) Person Charged With, 16. Willing PV names, 17. Suspect in police custody, ";
    "18. Suspect's current location, 19. Suspect's last known location, 20. Suspect's last known location date. ";
    "Return your answer in the following RAW JSON format ONLY and NO backticks or code blocks:" +:+ newline;
    form_line "{" "gender" (quoted "male" +:+ " or " +:+ quoted "female" +:+ " or null") ",";
    form_line "  " "date_of_birth" date_or_null ",";
    form_line "  " "age" (quoted "integer" +:+ " or null") ",";
    form_line "  " "address_notes" text_or_null ",";
    form_line "  " "phone_number" text_or_null ",";
    form_line "  " "nationality" text_or_null ",";
    form_line "  " "occupation" text_or_null ",";
    form_line "  " "role" text_or_null ",";
    form_line "  " "appearance" text_or_null ",";
    form_line "  " "vehicle_description" text_or_null ",";
    form_line "  " "vehicle_plate_number" text_or_null ",";
    form_line "  " "evidence" text_or_null ",";
    form_line "  " "arrested_status" text_or_null ",";
    form_line "  " "arrest_date" date_or_null ",";
    form_line "  " "crimes_person_charged_with" text_or_null ",";
    form_line "  " "willing_pv_names" text_or_null ",";
    form_line "  " "suspect_in_police_custody" text_or_null ",";
    form_line "  " "suspect_current_location" text_or_null ",";
    form_line "  " "suspect_last_known_location" text_or_null ",";
    form_line "  " "suspect_last_known_location_date" date_or_null EmptyString;
    "}" ].

(** ** Extraction methods *)

(** What a tier's [try] block leaves: the text it returned from inside the
    block, or nothing when it fell through to the final [return ""]. *)
Definition or_empty (r : option string) : M string :=
  match r with Some text => ret text | None => ret EmptyString end.

Definition extract_with_newspaper (u : string) : M string :=
  r ← try_except
        (raw ← perform (NewspaperText u);
         let text := strip raw in
         if (MIN_TEXT_LENGTH <=? String.length text)%nat
         then ret (Some text) else ret None)
        (λ _, ret None);
  or_empty r.

Definition extract_with_readability (u : string) : M string :=
  r ← try_except
        ('(status_code, body) ← perform (RequestsGet u 10);
         if negb (status_code =? 200)%Z then ret (Some EmptyString)
         else
           raw ← lift (λ w, readability_text w body);
           let text := strip raw in
           if (MIN_TEXT_LENGTH <=? String.length text)%nat
           then ret (Some text) else ret None)
        (λ _, ret None);
  or_empty r.

Definition extract_with_selenium (u : string) : M string :=
  r ← try_except
        (perform (ChromeNew TierSession);;
         perform (DriverGet TierSession u);;
         sleep 3%Q;;
         html ← perform (DriverPageSource TierSession);
         perform (DriverQuit TierSession);;
         raw ← lift (λ w, readability_text w html);
         let text := strip raw in
         if (MIN_TEXT_LENGTH <=? String.length text)%nat
         then ret (Some text) else ret None)
        (λ _, ret None);
  or_empty r.

Definition extract_main_text (u : string) : M string :=
  text ← extract_with_newspaper u;
  if truthy text then ret text
  else
    text ← extract_with_readability u;
    if truthy text then ret text
    else extract_with_selenium u.

(** ** Selenium and URL utilities *)

Definition initialize_selenium : M (option session) :=
  try_except
    (perform (ChromeNew MainSession);;
     perform (SetPageLoadTimeout MainSession 30);;
     ret (Some MainSession))
    (λ _, ret None).

Definition is_url_accessible (u : string) : M bool :=
  try_except
    (perform (ChromeNew ProbeSession);;
     perform (DriverGet ProbeSession u);;
     title ← perform (DriverTitle ProbeSession);
     let status := truthy title in
     perform (DriverQuit ProbeSession);;
     ret status)
    (λ _, ret false).

(** How one pass through a loop body ends. *)
Inductive loop_step (A : Type) : Type :=
  | Return (a : A)
  | Continue
  | Break.
Arguments Return {A} a.
Arguments Continue {A}.
Arguments Break {A}.

Fixpoint fetch_loop (driver : session) (u : string) (retry_delay : Z)
    (attempts : list Z) : M bool :=
  match attempts with
  | [] => ret false
  | attempt :: rest =>
      step ← try_except
               (perform (DriverGet driver u);; ret (Return true))
               (λ e, match e with
                     | TimeoutException _ => ret Continue
                     | WebDriverException _ => ret Break
                     | _ => raise e
                     end);
      match step with
      | Return b => ret b
      | Break => ret false
      | Continue => sleep (inject_Z retry_delay);; fetch_loop driver u retry_delay rest
      end
  end.

Definition fetch_url_with_retries (driver : session) (u : string) : M bool :=
  let max_retries := 3 in
  let retry_delay := 5 in
  fetch_loop driver u retry_delay (seqZ 1 max_retries).

(** [list(set(new_urls) - set(db_urls))]; Python leaves the order of a set
    unspecified, here it is the order of [elements]. *)
Definition set_difference (new_urls db_urls : list string) : list string :=
  elements ((list_to_set new_urls : gset string) ∖ list_to_set db_urls).

(** [df['url']] of a frame built from no record has no such column. *)
Definition get_new_urls (new_urls : list string) : M (list string) :=
  perform DbConnect;;
  df ← perform (DbSearchUrls 1000000);
  match df with
  | [] => raise (OtherException "KeyError: 'url'")
  | _ => ret (set_difference new_urls (url <$> df))
  end.

(** ** Chat engine helpers

    The chat engine of a URL is the one [process_url] opened last, so it is
    not passed around. *)

(** ["429 Too Many Requests" in str(e)] *)
Definition rate_limited (e : exn) : bool :=
  contains "429 Too Many Requests" (str_of e).

Fixpoint gvr_loop (prompt_text : string) (cls : model_class) (base_delay : Z)
    (attempts : list Z) : M (option llm_response) :=
  match attempts with
  | [] => ret None
  | attempt :: rest =>
      step ← try_except
               (response ← perform (Chat prompt_text);
                response_data ← lift (λ w, model_validate_json w cls response);
                ret (Return (Some response_data)))
               (λ e, match e with
                     | JSONDecodeError _ => ret (Return None)
                     | RequestException _ => ret Continue
                     | _ =>
                         if rate_limited e then
                           jitter ← random_uniform 0 1;
                           let delay := int_add_float (base_delay * 2 ^ attempt) jitter in
                           sleep delay;;
                           ret Continue
                         else ret (Return None)
                     end);
      match step with
      | Return v => ret v
      | _ => gvr_loop prompt_text cls base_delay rest
      end
  end.

Definition get_validated_response (prompt_key prompt_text : string)
    (cls : model_class) : M (option llm_response) :=
  let max_retries := 5 in
  let base_delay := 5 in
  gvr_loop prompt_text cls base_delay (seqZ 0 max_retries).

(** Returns [result["actual_incident"]] and [incidents]. *)
Definition verify_incident (u : string) : M (Z * list string) :=
  perform DbConnect;;
  try_except
    (response_data ← get_validated_response "incident_prompt"
                       SHORT_PROMPTS.incident_prompt IncidentResponse;
     match response_data with
     | None => ret (-2, [])
     | Some response_data =>
         let response_answer := lower (answer response_data) in
         if String.eqb response_answer "no" then
           perform (DbUpdateField u "actual_incident" 0);;
           ret (0, [])
         else if String.eqb response_answer "yes" then
           perform (DbUpdateField u "actual_incident" 1);;
           ret (1, evidence_or_empty response_data)
         else ret (-2, [])
     end)
    (λ _, ret (-2, [])).

(** [llm] is a module-level name that the file itself never binds: as the
    file stands the lookup raises [NameError], which the handler turns into
    [False].  The call is left to the world, so that both this and a bound
    [llm] are covered. *)
Definition confirm_natural_name (name : string) : M bool :=
  try_except
    (resp ← perform (LlmComplete (confirm_prompt name));
     response_data ← lift (λ w, model_validate_json w ConfirmResponse resp);
     ret (String.eqb (lower (answer response_data)) "yes"))
    (λ _, ret false).

(** A validated form is truthy, so [if response_data:] always holds. *)
Definition populate_victim_forms_table (u victim : string) : M unit :=
  perform DbConnect;;
  try_except
    (response_text ← perform (Chat (victim_form_prompt victim));
     fields ← lift (λ w, form_validate w VictimFormResponse victim response_text);
     let response_data := {| form_name := victim; form_fields := fields |} in
     url_id ← perform (DbGetUrlId u);
     victim_id ← perform (DbGetVictimId url_id victim);
     match url_id with
     | None => ret tt
     | Some id => perform (DbInsertVictimForm id response_data victim_id)
     end)
    (λ _, ret tt).

Definition populate_suspect_forms_table (u suspect : string) : M unit :=
  perform DbConnect;;
  try_except
    (response_text ← perform (Chat (suspect_form_prompt suspect));
     fields ← lift (λ w, form_validate w SuspectFormResponse suspect response_text);
     let response_data := {| form_name := suspect; form_fields := fields |} in
     url_id ← perform (DbGetUrlId u);
     suspect_id ← perform (DbGetSuspectId url_id suspect);
     match url_id with
     | None => ret tt
     | Some id => perform (DbInsertSuspectForm id response_data suspect_id)
     end)
    (λ _, ret tt).

(** [try: m  except DatabaseError: log] *)
Definition except_database_error (m : M unit) : M unit :=
  try_except m (λ e, match e with DatabaseError _ => ret tt | _ => raise e end).

Fixpoint suspects_loop (u : string) (url_id : option Z) (suspects : list string)
    : M unit :=
  match suspects with
  | [] => ret tt
  | suspect :: rest =>
      ok ← confirm_natural_name suspect;
      (if ok then
         except_database_error (perform (DbInsertSuspect url_id suspect));;
         try_except (populate_suspect_forms_table u suspect) (λ _, ret tt)
       else ret tt);;
      pause ← random_uniform 1 3;
      sleep pause;;
      suspects_loop u url_id rest
  end.

Definition upload_suspects (u : string) : M unit :=
  perform DbConnect;;
  try_except
    (response_data ← get_validated_response "suspect_prompt"
                       SHORT_PROMPTS.suspect_prompt SuspectResponse;
     match response_data with
     | None => ret tt
     | Some response_data =>
         if String.eqb (lower (answer response_data)) "yes" then
           url_id ← perform (DbGetUrlId u);
           let suspects := evidence_or_empty response_data in
           match suspects with
           | [] => ret tt
           | _ => suspects_loop u url_id suspects
           end
         else ret tt
     end)
    (λ _, ret tt).

Fixpoint victims_loop (u : string) (url_id : option Z) (victims : list string)
    : M unit :=
  match victims with
  | [] => ret tt
  | victim :: rest =>
      ok ← confirm_natural_name victim;
      (if ok then
         except_database_error (perform (DbInsertVictim url_id victim));;
         try_except (populate_victim_forms_table u victim) (λ _, ret tt)
       else ret tt);;
      victims_loop u url_id rest
  end.

Definition upload_victims (u : string) : M unit :=
  perform DbConnect;;
  try_except
    (response_data ← get_validated_response "victim_prompt"
                       SHORT_PROMPTS.victim_prompt VictimResponse;
     match response_data with
     | None => ret tt
     | Some response_data =>
         if String.eqb (lower (answer response_data)) "yes" then
           url_id ← perform (DbGetUrlId u);
           let victims := evidence_or_empty response_data in
           match victims with
           | [] => ret tt
           | _ => victims_loop u url_id victims
           end
         else ret tt
     end)
    (λ _, ret tt).

(** ** URL processing *)

Fixpoint for_each {A} (l : list A) (body : A → M unit) : M unit :=
  match l with
  | [] => ret tt
  | x :: rest => body x;; for_each rest body
  end.

(** The record of the three negative exits. *)
Definition negative_record (u domain : string) : url_record :=
  {| url := u; domain_name := domain; source := "google_search";
     content := EmptyString; actual_incident := -1; accessible := 0 |}.

(** Lines 601-636 of [process_url]: what is done with a text that was
    extracted. *)
Definition process_text (u domain_name text : string) : M unit :=
  try_except
    (perform (OpenChatEngine text);;
     '(incident_type, incidents) ← verify_incident u;
     let result :=
       {| url := u; domain_name := domain_name; source := "google_search";
          content := text; actual_incident := incident_type;
          accessible := 1 |} in
     perform (DbInsertUrl result);;
     url_id ← perform (DbGetUrlId u);
     if (actual_incident result =? 1)%Z then
       for_each incidents (λ incident, perform (DbInsertIncident url_id incident));;
       upload_suspects u;;
       upload_victims u
     else ret tt)
    (λ _, ret tt);;
  pause ← random_uniform 1 3;
  sleep pause.

Definition process_url (u : string) (driver : session) : M unit :=
  reachable ← is_url_accessible u;
  if negb reachable then
    domain ← pure_of (λ w, tld_domain w u);
    perform (DbInsertUrl (negative_record u domain))
  else
    domain_name ← pure_of (λ w, tld_domain w u);
    loaded ← fetch_url_with_retries driver u;
    if negb loaded then
      perform (DbInsertUrl (negative_record u domain_name))
    else
      text ← extract_main_text u;
      if negb (truthy text) then
        perform (DbInsertUrl (negative_record u domain_name))
      else process_text u domain_name text.

(** ** Main execution *)

(** Lines 641-650 of [main]: the URLs left after the store's are taken out.
    The store is read a second time when the first reading is not empty, and
    [['url']] of a frame built from no record raises, as in
    [get_new_urls]. *)
Definition main_urls : M (list string) :=
  perform DbConnect;;
  urls_from_files ← perform (GetUniqueUrlsFromCsvs "output" "url" 4 1000);
  df ← perform (DbSearchUrls 1000000);
  urls_from_db ← match df with
                 | [] => ret []
                 | _ =>
                     df ← perform (DbSearchUrls 1000000);
                     match df with
                     | [] => raise (OtherException "KeyError: 'url'")
                     | _ => ret (url <$> df)
                     end
                 end;
  ret (set_difference urls_from_files urls_from_db).

Definition main : M unit :=
  urls ← main_urls;
  driver ← initialize_selenium;
  match driver with
  | None => ret tt
  | Some driver =>
      for_each urls (λ u, process_url u driver);;
      perform (DriverQuit driver)
  end.

(** ** Google search functions

    [google_search] and [fetch_all_results] talk to the Custom Search API
    and to nothing else, so their runs have events of their own: building
    the service, executing one list request, and sleeping.  An [item] is one
    entry of a result page; the functions only pass items on. *)

(** What [service.cse().list(...).execute()] ends in: a reply, of which the
    functions read the value under [items] ([None] when the reply has no such
    key); an [HttpError], of which the handler decodes the content as UTF-8,
    which may raise in its turn; or another exception. *)
Inductive search_reply (item : Type) : Type :=
  | Reply (items : option (list item))
  | HttpError (decoded : outcome string)
  | Failed (e : exn).
Arguments Reply {item} items.
Arguments HttpError {item} decoded.
Arguments Failed {item} e.

Inductive search_entry (item : Type) : Type :=
  | Built (developerKey : string) (r : outcome unit)
  | Executed (q cx : string) (num start : Z) (r : search_reply item)
  | Paused (seconds : Q).
Arguments Built {item} developerKey r.
Arguments Executed {item} q cx num start r.
Arguments Paused {item} seconds.

(** [build("customsearch", "v1", developerKey=...)] and
    [service.cse().list(q=..., cx=..., num=..., start=...).execute()] after a
    given history. *)
Record search_api (item : Type) : Type := SearchApi {
  build : list (search_entry item) → string → outcome unit;
  execute : list (search_entry item) → string → string → Z → Z
            → search_reply item
}.
Arguments build {item} s h developerKey.
Arguments execute {item} s h q cx num start.

Definition google_search {item} (api : search_api item)
    (query api_key cse_id : string) (start num : Z)
    (h : list (search_entry item))
    : outcome (list item) * list (search_entry item) :=
  let service := build api h api_key in
  let built := Built api_key service in
  match service with
  | Raised e => (Raised e, [built])
  | Returned _ =>
      let res := execute api (h ++ [built]) query cse_id num start in
      (match res with
       | Reply (Some items) => Returned items
       | Reply None => Returned []
       | HttpError (Returned error_content) => Returned []
       | HttpError (Raised e) => Raised e
       | Failed _ => Returned []
       end,
       [built; Executed query cse_id num start res])
  end.

(** [math.ceil(max_results / num_per_page)]: the quotient is a float, and
    the division raises when it is too large for one. *)
Definition page_count (max_results num_per_page : Z) : outcome Z :=
  match int_true_div max_results num_per_page with
  | Returned quotient => Returned (math_ceil quotient)
  | Raised e => Raised e
  end.

(** [l[:n]]; a negative [n] counts from the end. *)
Definition slice_to {A} (n : Z) (l : list A) : list A :=
  if (0 <=? n)%Z then take (Z.to_nat n) l
  else take (length l - Z.to_nat (- n)) l.

(** The loop of [fetch_all_results] over the pages that are left, with the
    results gathered so far. *)
Fixpoint fetch_pages {item} (api : search_api item)
    (query api_key cse_id : string) (num_per_page : Z) (pages : list Z)
    (results : list item) (h : list (search_entry item))
    : outcome (list item) * list (search_entry item) :=
  match pages with
  | [] => (Returned results, [])
  | page :: rest =>
      let start := 1 + page * num_per_page in
      let '(r, t) := google_search api query api_key cse_id start num_per_page h in
      match r with
      | Raised e => (Raised e, t)
      | Returned [] => (Returned results, t)
      | Returned page_results =>
          let nap := Paused 1%Q in
          let '(r', t') :=
            fetch_pages api query api_key cse_id num_per_page rest
              (results ++ page_results) (h ++ t ++ [nap]) in
          (r', t ++ nap :: t')
      end
  end.

Definition fetch_all_results {item} (api : search_api item)
    (query api_key cse_id : string) (max_results : Z)
    (h : list (search_entry item))
    : outcome (list item) * list (search_entry item) :=
  let num_per_page := 10 in
  match page_count max_results num_per_page with
  | Raised e => (Raised e, [])
  | Returned total_pages =>
      let '(r, t) :=
        fetch_pages api query api_key cse_id num_per_page (seqZ 0 total_pages)
          [] h in
      (match r with
       | Returned results => Returned (slice_to max_results results)
       | Raised e => Raised e
       end, t)
  end.

(** * The search front end of web_crawler.py

    A shallow embedding of the class [TraffickingNewsSearch] of
    [src/web_crawler.py]: the domain filter, the query builder, the article
    fetch and the CSV output, and [main] over the run configurations.
    Logging is left out. *)

Module web_crawler.

(** The keys of a search configuration that [__init__] reads; a key the dict
    lacks is [None]. *)
Record search_config : Type := SearchConfig {
  config_id : option string;
  config_days_back : option Z;
  config_excluded_domains : option (list string)
}.

Record TraffickingNewsSearch : Type := Searcher {
  search_name : string;
  days_back : Z;
  excluded_domains : list string;
  trafficking_terms : list string;
  evidence_terms : list string
}.

Definition __init__ (config : search_config) : TraffickingNewsSearch :=
  {| search_name := default "default_search" (config_id config);
     days_back := default 7 (config_days_back config);
     excluded_domains := default [] (config_excluded_domains config);
     trafficking_terms :=
       [quoted "human trafficking"; quoted "cyber trafficking";
        quoted "child trafficking"; quoted "forced labor";
        quoted "sexual exploitation"; quoted "organ trafficking"];
     evidence_terms :=
       ["arrest"; "suspect"; "victim"; "rescue"; "operation"; "investigation";
        "prosecute"; "charged"; "convicted"] |}.

(** What iterating over [search(...)] gives: the URLs it yields, until it is
    exhausted or raises. *)
Inductive generator : Type :=
  | Exhausted
  | Yield (u : string) (rest : generator)
  | Throw (e : exn).

(** The library functions of the class: [urlparse(url).netloc], which raises
    on a malformed URL, and googlesearch's
    [search(query, tld, lang, num, start, stop, pause)]. *)
Record library : Type := Library {
  urlparse_netloc : string → outcome string;
  search : string → string → string → Z → Z → Z → Z → generator
}.

Definition is_valid_news_domain (self : TraffickingNewsSearch) (lib : library)
    (u : string) : bool :=
  match urlparse_netloc lib u with
  | Raised _ => false
  | Returned netloc =>
      let domain := lower netloc in
      if existsb (λ excluded, contains excluded domain) (excluded_domains self)
      then false else true
  end.

Definition construct_query (self : TraffickingNewsSearch)
    (start_date end_date : string) (include_evidence_terms : bool) : string :=
  let trafficking_part :=
    "(" +:+ String.concat " OR " (trafficking_terms self) +:+ ")" in
  let base_query :=
    if include_evidence_terms then
      let evidence_part :=
        "(" +:+ String.concat " OR " (evidence_terms self) +:+ ")" in
      trafficking_part +:+ " AND " +:+ evidence_part +:+ " AND ("
      +:+ quoted "news" +:+ " OR " +:+ quoted "article" +:+ ") AND "
      +:+ quoted "South Africa"
    else trafficking_part in
  let excluded_sites :=
    String.concat " " ((λ domain, "-site:" +:+ domain) <$> excluded_domains self) in
  base_query +:+ " " +:+ excluded_sites +:+ " after:" +:+ start_date
  +:+ " before:" +:+ end_date.

(** The [for] loop of [fetch_articles] over what the generator has left,
    with the articles gathered so far. *)
Fixpoint fetch_articles_loop (self : TraffickingNewsSearch) (lib : library)
    (g : generator) (articles : list string) : outcome (list string) :=
  match g with
  | Exhausted => Returned articles
  | Yield u rest =>
      fetch_articles_loop self lib rest
        (if is_valid_news_domain self lib u then articles ++ [u] else articles)
  | Throw e => Raised e
  end.

Definition fetch_articles (self : TraffickingNewsSearch) (lib : library)
    (query : string) (max_results : Z) : list string :=
  match fetch_articles_loop self lib
          (search lib query "com" "en" 10 0 max_results 2) [] with
  | Returned articles => articles
  | Raised _ => []
  end.

(** One step of a run of the crawler: a reading of the clock, a search
    iterated to its end, [os.makedirs] and the writing of a CSV file (its
    name and its rows after the header [url,domain_name,source]). *)
Inductive crawl_entry : Type :=
  | Now (now : Z)
  | Searched (query : string) (g : generator)
  | MadeDirs (path : string) (r : outcome unit)
  | WroteCsv (file_name : string) (rows : list (string * string * string))
      (r : outcome unit).

(** What the crawler finds around it after a given history: the library
    functions, [datetime.now()] (a naive time stamp), [now - timedelta(days)]
    (an [OverflowError] when out of range), [strftime],
    [tldextract.extract(url).domain] and the file system. *)
Record crawl_world : Type := CrawlWorld {
  library_after : list crawl_entry → library;
  datetime_now : list crawl_entry → Z;
  minus_days : Z → Z → outcome Z;
  strftime : Z → string → string;
  extract_domain : string → string;
  makedirs : list crawl_entry → string → outcome unit;
  write_csv : list crawl_entry → string → list (string * string * string)
              → outcome unit
}.

Definition get_recent_articles (self : TraffickingNewsSearch) (cw : crawl_world)
    (h : list crawl_entry) : outcome (list string) * list crawl_entry :=
  let end_date := datetime_now cw h in
  let read := Now end_date in
  match minus_days cw end_date (days_back self) with
  | Raised e => (Raised e, [read])
  | Returned start_date =>
      let query :=
        construct_query self (strftime cw start_date "%Y-%m-%d")
          (strftime cw end_date "%Y-%m-%d") true in
      let lib := library_after cw (h ++ [read]) in
      (Returned (fetch_articles self lib query 200),
       [read; Searched query (search lib query "com" "en" 10 0 200 2)])
  end.

Definition save_to_csv (self : TraffickingNewsSearch) (cw : crawl_world)
    (urls : list string) (h : list crawl_entry)
    : outcome unit * list crawl_entry :=
  let now := datetime_now cw h in
  let timestamp := strftime cw now "%Y%m%d_%H%M%S" in
  let output_dir := "output" in
  let made := makedirs cw (h ++ [Now now]) output_dir in
  match made with
  | Raised e => (Raised e, [Now now; MadeDirs output_dir made])
  | Returned _ =>
      let file_name :=
        output_dir +:+ "/saved_urls_" +:+ search_name self +:+ "_" +:+ timestamp
        +:+ ".csv" in
      let rows := (λ u, (u, extract_domain cw u, "google_miner")) <$> urls in
      let wrote :=
        write_csv cw (h ++ [Now now; MadeDirs output_dir made]) file_name rows in
      (wrote, [Now now; MadeDirs output_dir made; WroteCsv file_name rows wrote])
  end.

(** [search_config['days_back'] = args.days_back] *)
Definition set_days_back (days : Z) (config : search_config) : search_config :=
  {| config_id := config_id config;
     config_days_back := Some days;
     config_excluded_domains := config_excluded_domains config |}.

(** [main], given [args.days_back] and the list under [run_configs]. *)
Fixpoint main (cw : crawl_world) (args_days_back : Z)
    (run_configs : list search_config) (h : list crawl_entry)
    : outcome unit * list crawl_entry :=
  match run_configs with
  | [] => (Returned tt, [])
  | search_config :: rest =>
      let search_config := set_days_back args_days_back search_config in
      let searcher := __init__ search_config in
      let '(found, t) := get_recent_articles searcher cw h in
      match found with
      | Raised e => (Raised e, t)
      | Returned [] =>
          let '(r, t') := main cw args_days_back rest (h ++ t) in (r, t ++ t')
      | Returned articles =>
          let '(saved, t1) := save_to_csv searcher cw articles (h ++ t) in
          match saved with
          | Raised e => (Raised e, t ++ t1)
          | Returned _ =>
              let '(r, t') := main cw args_days_back rest (h ++ t ++ t1) in
              (r, t ++ t1 ++ t')
          end
      end
  end.

End web_crawler.

(** * Specification vocabulary *)

(** ** Reading a trace *)

Definition is_chat (e : entry) : bool :=
  match e with
  | Called (Chat _) _ => true
  | _ => false
  end.

(** The number of prompts sent to the chat engine. *)
Definition chat_attempts (t : trace) : nat := length (List.filter is_chat t).

Definition sleeps (t : trace) : list Q :=
  omap (λ e, match e with Slept d => Some d | _ => None end) t.

(** ** The validated prompt call *)

(** What one attempt of [get_validated_response] ends in, given the chat
    engine's reply: the validated data, or the exception of the chat call or
    of the validation. *)
Definition attempt_outcome (w : world) (cls : model_class)
    (reply : outcome string) : outcome llm_response :=
  match reply with
  | Raised e => Raised e
  | Returned txt => model_validate_json w cls txt
  end.

(** The exceptions the last handler takes for a rate limit. *)
Definition is_rate_limit (e : exn) : bool :=
  match e with
  | JSONDecodeError _ | RequestException _ => false
  | _ => rate_limited e
  end.

(** The failures after which the call returns [None] at once. *)
Definition is_terminal (e : exn) : bool :=
  match e with
  | JSONDecodeError _ => true
  | RequestException _ => false
  | _ => negb (rate_limited e)
  end.

Definition is_request_error (e : exn) : bool :=
  match e with RequestException _ => true | _ => false end.

Definition pre_jitter_delay (base_delay attempt : Z) : Z := base_delay * 2 ^ attempt.







(** The claim that a failure other than a rate limit ends the call with
    [None] after its single attempt, at one world, history and prompt. *)
Definition single_attempt_on_failure (w : world) (h : trace) (p : string)
    (cls : model_class) : Prop :=
  ∀ e, attempt_outcome w cls (respond w string h (Chat p)) = Raised e →
       is_rate_limit e = false →
       ∀ key, get_validated_response key p cls w h
              = (Returned None, [Called (Chat p) (respond w string h (Chat p))]).

(** ** Worlds used as concrete inputs *)

Definition unavailable {X} : outcome X := Raised (OtherException "unavailable").

(** Every chat call is answered by HTTP 429. *)
Definition world_rate_limited : world :=
  {| respond := λ X h c,
       match c in call T return outcome T with
       | Chat _ => Raised (OtherException "Error code: 429 Too Many Requests")
       | _ => unavailable
       end;
     uniform := λ _ a _, a;
     model_validate_json := λ _ _, unavailable;
     form_validate := λ _ _ _, unavailable;
     readability_text := λ _, unavailable;
     tld_domain := λ u, u |}.

(** Every chat call is answered by HTTP 429, which the HTTP client raises as
    a request error. *)
Definition world_429_request_error : world :=
  {| respond := λ X h c,
       match c in call T return outcome T with
       | Chat _ => Raised (RequestException "HTTPError: 429 Too Many Requests")
       | _ => unavailable
       end;
     uniform := λ _ a _, a;
     model_validate_json := λ _ _, unavailable;
     form_validate := λ _ _ _, unavailable;
     readability_text := λ _, unavailable;
     tld_domain := λ u, u |}.

(** The first chat call meets a connection error, the next one is answered
    and validates. *)
Definition world_transport_error : world :=
  {| respond := λ X h c,
       match c in call T return outcome T with
       | Chat _ =>
           if bool_decide (chat_attempts h = 0%nat)
           then Raised (RequestException "Connection aborted.")
           else Returned "{answer: no}"
       | _ => unavailable
       end;
     uniform := λ _ a _, a;
     model_validate_json := λ _ _, Returned {| answer := "no"; evidence := None |};
     form_validate := λ _ _ _, unavailable;
     readability_text := λ _, unavailable;
     tld_domain := λ u, u |}.

(** A malformed reply: validation raises a pydantic error. *)
Definition world_malformed_reply : world :=
  {| respond := λ X h c,
       match c in call T return outcome T with
       | Chat _ => Returned "I cannot answer that."
       | _ => unavailable
       end;
     uniform := λ _ a _, a;
     model_validate_json := λ _ _, Raised (OtherException "1 validation error: Invalid JSON");
     form_validate := λ _ _ _, unavailable;
     readability_text := λ _, unavailable;
     tld_domain := λ u, u |}.

(** ** Extraction tiers *)

Definition meets_threshold (text : string) : bool :=
  (MIN_TEXT_LENGTH <=? String.length text)%nat.

(** What a tier returns for the raw text its extraction produced, if any. *)
Definition accepted (raw : outcome string) : string :=
  match raw with
  | Returned raw => if meets_threshold (strip raw) then strip raw else EmptyString
  | Raised _ => EmptyString
  end.

(** A tier's output: a text at or over the threshold, or the empty string. *)
Definition tier_output (s : string) : Prop :=
  if meets_threshold s then True else s = EmptyString.

(** The raw text of the second tier: the readable part of the body of a 200
    reply. *)
Definition readability_raw (w : world) (reply : outcome (Z * string))
    : outcome string :=
  match reply with
  | Returned (status_code, body) =>
      if (status_code =? 200)%Z then readability_text w body
      else Returned EmptyString
  | Raised e => Raised e
  end.

(** The browser session of the third tier after [h], step by step: start a
    browser, load the page, wait three seconds, read the rendered DOM and
    quit.  The steps up to the first that raises, and the raw text: the
    readable part of the rendered DOM, or the exception of the step that
    raised. *)
Definition rendered_raw (w : world) (u : string) (h : trace)
    : outcome string * trace :=
  let started := respond w unit h (ChromeNew TierSession) in
  let t1 := [Called (ChromeNew TierSession) started] in
  match started with
  | Raised e => (Raised e, t1)
  | Returned _ =>
      let loaded := respond w unit (h ++ t1) (DriverGet TierSession u) in
      let t2 := t1 ++ [Called (DriverGet TierSession u) loaded] in
      match loaded with
      | Raised e => (Raised e, t2)
      | Returned _ =>
          let t3 := t2 ++ [Slept 3] in
          let source := respond w string (h ++ t3) (DriverPageSource TierSession) in
          let t4 := t3 ++ [Called (DriverPageSource TierSession) source] in
          match source with
          | Raised e => (Raised e, t4)
          | Returned html =>
              let quit := respond w unit (h ++ t4) (DriverQuit TierSession) in
              let t5 := t4 ++ [Called (DriverQuit TierSession) quit] in
              match quit with
              | Raised e => (Raised e, t5)
              | Returned _ => (readability_text w html, t5)
              end
          end
      end
  end.

Definition tier_session_entry (e : entry) : bool :=
  match e with
  | Called (ChromeNew TierSession) _ | Called (DriverGet TierSession _) _
  | Called (DriverPageSource TierSession) _
  | Called (DriverQuit TierSession) _ => true
  | Slept _ => true
  | _ => false
  end.

(** ** The reachability probe *)

Definition probe_entry (e : entry) : bool :=
  match e with
  | Called (ChromeNew ProbeSession) _ | Called (DriverGet ProbeSession _) _
  | Called (DriverTitle ProbeSession) _
  | Called (DriverQuit ProbeSession) _ => true
  | _ => false
  end.

Definition raised_entry (e : entry) : bool :=
  match e with
  | Called _ (Raised _) => true
  | _ => false
  end.

Definition empty_title_entry (e : entry) : bool :=
  match e with
  | Called c r =>
      match c in call T return outcome T → bool with
      | DriverTitle _ =>
          λ r, match r with Returned title => negb (truthy title) | Raised _ => false end
      | _ => λ _, false
      end r
  | Slept _ => false
  end.

(** A text of 129 characters. *)
Definition long_text : string :=
  "Police arrested two men on Tuesday after a raid on a warehouse where eleven workers were held against their will, officials said.".

(** Tier 1 finds too little, tier 2 finds an article. *)
Definition world_second_tier : world :=
  {| respond := λ X h c,
       match c in call T return outcome T with
       | NewspaperText _ => Returned "Subscribe to read"
       | RequestsGet _ _ => Returned (200, "<html>...</html>")
       | _ => unavailable
       end;
     uniform := λ _ a _, a;
     model_validate_json := λ _ _, unavailable;
     form_validate := λ _ _ _, unavailable;
     readability_text := λ _, Returned ("  " +:+ long_text +:+ newline);
     tld_domain := λ u, "example" |}.

(** Tiers 1 and 2 find nothing; the rendered DOM holds an article. *)
Definition world_third_tier : world :=
  {| respond := λ X h c,
       match c in call T return outcome T with
       | NewspaperText _ => Returned EmptyString
       | RequestsGet _ _ => Returned (403, "Forbidden")
       | ChromeNew _ => Returned tt
       | DriverGet _ _ => Returned tt
       | DriverPageSource _ => Returned "<html>rendered</html>"
       | DriverQuit _ => Returned tt
       | _ => unavailable
       end;
     uniform := λ _ a _, a;
     model_validate_json := λ _ _, unavailable;
     form_validate := λ _ _ _, unavailable;
     readability_text := λ html,
       if String.eqb html "<html>rendered</html>"
       then Returned ("  " +:+ long_text +:+ newline)
       else Returned EmptyString;
     tld_domain := λ u, "example" |}.

(** The probe renders a page without a title. *)
Definition world_blank_page : world :=
  {| respond := λ X h c,
       match c in call T return outcome T with
       | ChromeNew _ => Returned tt
       | DriverGet _ _ => Returned tt
       | DriverTitle _ => Returned EmptyString
       | DriverQuit _ => Returned tt
       | DbInsertUrl _ => Returned tt
       | _ => unavailable
       end;
     uniform := λ _ a _, a;
     model_validate_json := λ _ _, unavailable;
     form_validate := λ _ _ _, unavailable;
     readability_text := λ _, unavailable;
     tld_domain := λ u, "example" |}.

(** The page has a title and loads, but no tier finds a text. *)
Definition world_no_text : world :=
  {| respond := λ X h c,
       match c in call T return outcome T with
       | ChromeNew _ => Returned tt
       | DriverGet _ _ => Returned tt
       | DriverTitle _ => Returned "Breaking news"
       | DriverPageSource _ => Returned "<html></html>"
       | DriverQuit _ => Returned tt
       | NewspaperText _ => Returned EmptyString
       | RequestsGet _ _ => Returned (403, "Forbidden")
       | DbInsertUrl _ => Returned tt
       | _ => unavailable
       end;
     uniform := λ _ a _, a;
     model_validate_json := λ _ _, unavailable;
     form_validate := λ _ _ _, unavailable;
     readability_text := λ _, Returned "  ";
     tld_domain := λ u, "example" |}.

(** The page has a title, but every load by the long-lived driver times out. *)
Definition world_load_timeout : world :=
  {| respond := λ X h c,
       match c in call T return outcome T with
       | ChromeNew _ => Returned tt
       | DriverGet ProbeSession _ => Returned tt
       | DriverGet _ _ => Raised (TimeoutException "timeout: Timed out receiving message from renderer")
       | DriverTitle _ => Returned "Breaking news"
       | DriverQuit _ => Returned tt
       | DbInsertUrl _ => Returned tt
       | _ => unavailable
       end;
     uniform := λ _ a _, a;
     model_validate_json := λ _ _, unavailable;
     form_validate := λ _ _ _, unavailable;
     readability_text := λ _, unavailable;
     tld_domain := λ u, "example" |}.

(** ** Kinds of entries *)

(** Every entry of the trace satisfies [q]. *)
Definition all (q : entry → bool) (t : trace) : Prop := forallb q t = true.

(** Browser and network calls of the probe, the load and the tiers. *)
Definition acquisition_entry (e : entry) : bool :=
  match e with
  | Called (ChromeNew _) _ | Called (DriverGet _ _) _ | Called (DriverTitle _) _
  | Called (DriverPageSource _) _ | Called (DriverQuit _) _
  | Called (NewspaperText _) _ | Called (RequestsGet _ _) _ | Slept _ => true
  | _ => false
  end.

(** A prompt [p] sent to the chat engine, or a sleep. *)
Definition chat_entry (p : string) (e : entry) : bool :=
  match e with
  | Called (Chat p') _ => String.eqb p' p
  | Slept _ => true
  | _ => false
  end.

(** What incident verification may do for [u]: open the store, send the
    incident prompt, sleep, and set [actual_incident] to 0 or 1. *)
Definition verify_entry (u : string) (e : entry) : bool :=
  match e with
  | Called DbConnect _ | Slept _ => true
  | Called (OpenChatEngine _) _ => true
  | Called (Chat p) _ => String.eqb p SHORT_PROMPTS.incident_prompt
  | Called (DbUpdateField u' field value) _ =>
      String.eqb u' u && String.eqb field "actual_incident"
      && ((value =? 0) || (value =? 1))%Z
  | _ => false
  end.

(** The stage of a row insert: the URL record, an incident, a suspect with
    its form, a victim with its form. *)
Definition stage (e : entry) : option Z :=
  match e with
  | Called (DbInsertUrl _) _ => Some 0
  | Called (DbInsertIncident _ _) _ => Some 1
  | Called (DbInsertSuspect _ _) _ | Called (DbInsertSuspectForm _ _ _) _ => Some 2
  | Called (DbInsertVictim _ _) _ | Called (DbInsertVictimForm _ _ _) _ => Some 3
  | _ => None
  end.

(** No row insert, or one of stage [k]. *)
Definition staged (k : Z) (e : entry) : bool :=
  match stage e with
  | None => true
  | Some s => (s =? k)%Z
  end.

Definition stages (t : trace) : list Z := omap stage t.

(** Everything that belongs to entity extraction: a prompt other than the
    incident prompt, a confirmation query, and any call on the incident,
    suspect, victim and form tables. *)
Definition entity_stage (e : entry) : bool :=
  match e with
  | Called (Chat p) _ => negb (String.eqb p SHORT_PROMPTS.incident_prompt)
  | Called (LlmComplete _) _ => true
  | Called (DbInsertIncident _ _) _
  | Called (DbInsertSuspect _ _) _ | Called (DbInsertVictim _ _) _
  | Called (DbGetSuspectId _ _) _ | Called (DbGetVictimId _ _) _
  | Called (DbInsertSuspectForm _ _ _) _
  | Called (DbInsertVictimForm _ _ _) _ => true
  | _ => false
  end.

Definition incident_query (e : entry) : bool :=
  match e with
  | Called (Chat p) _ => String.eqb p SHORT_PROMPTS.incident_prompt
  | _ => false
  end.

(** The answer lower-cases to "yes". *)
Definition says_yes (data : llm_response) : bool :=
  String.eqb (lower (answer data)) "yes".

(** The reply validates, under [cls], to data that satisfy [pred]. *)
Definition validates (w : world) (cls : model_class)
    (pred : llm_response → bool) (r : outcome string) : bool :=
  match r with
  | Returned txt =>
      match model_validate_json w cls txt with
      | Returned data => pred data
      | Raised _ => false
      end
  | Raised _ => false
  end.

(** Prompt [p] was sent and its reply validates to data that satisfy
    [pred]. *)
Definition chat_reply (w : world) (cls : model_class) (p : string)
    (pred : llm_response → bool) (e : entry) : bool :=
  match e with
  | Called c r =>
      match c in call T return outcome T → bool with
      | Chat p' => λ r, String.eqb p' p && validates w cls pred r
      | _ => λ _, false
      end r
  | Slept _ => false
  end.

(** An incident query that was answered yes. *)
Definition answered_yes (w : world) : entry → bool :=
  chat_reply w IncidentResponse SHORT_PROMPTS.incident_prompt says_yes.

(** [db.update_field(url, "actual_incident", 1)] went through. *)
Definition recorded_yes (u : string) (e : entry) : bool :=
  match e with
  | Called (DbUpdateField u' field value) r =>
      String.eqb u' u && String.eqb field "actual_incident" && (value =? 1)%Z
      && returned r
  | _ => false
  end.

(** [db.insert_url] of a record of [u] whose [actual_incident] satisfies [ok]
    was called. *)
Definition inserts_url (u : string) (ok : Z → bool) (e : entry) : bool :=
  match e with
  | Called (DbInsertUrl rec) _ => String.eqb (url rec) u && ok (actual_incident rec)
  | _ => false
  end.

(** The URL of a record that [db.insert_url] accepted. *)
Definition inserted_url (e : entry) : option string :=
  match e with
  | Called (DbInsertUrl rec) r => if returned r then Some (url rec) else None
  | _ => None
  end.

(** Whatever entry [e] of the trace has a requirement [needs e = Some g]
    comes after an entry that satisfies [g]. *)
Definition follows (needs : entry → option (entry → bool)) (t : trace) : Prop :=
  ∀ pre e post g, t = pre ++ e :: post → needs e = Some g → existsb g pre = true.

(** Whatever satisfies [p] in the trace comes after an entry that satisfies
    [g]. *)
Definition guarded_by (g p : entry → bool) (t : trace) : Prop :=
  follows (λ e, if p e then Some g else None) t.

(** The insert of the suspect or victim that a form insert belongs to. *)
Definition owner_insert (e : entry) : option (entry → bool) :=
  match e with
  | Called (DbInsertSuspectForm _ f _) _ =>
      Some (λ e', match e' with
                  | Called (DbInsertSuspect _ name) _ => String.eqb name (form_name f)
                  | _ => false
                  end)
  | Called (DbInsertVictimForm _ f _) _ =>
      Some (λ e', match e' with
                  | Called (DbInsertVictim _ name) _ => String.eqb name (form_name f)
                  | _ => false
                  end)
  | _ => None
  end.

(** ** Natural-person confirmation *)

Definition is_llm_complete (e : entry) : bool :=
  match e with
  | Called (LlmComplete _) _ => true
  | _ => false
  end.

(** The confirmation query for [name] was answered yes. *)
Definition confirms (w : world) (name : string) (e : entry) : bool :=
  match e with
  | Called c r =>
      match c in call T return outcome T → bool with
      | LlmComplete p =>
          λ r, String.eqb p (confirm_prompt name)
               && validates w ConfirmResponse says_yes r
      | _ => λ _, false
      end r
  | Slept _ => false
  end.

(** The name a write to the suspect, victim or form tables is about. *)
Definition person_write (e : entry) : option string :=
  match e with
  | Called (DbInsertSuspect _ name) _ | Called (DbInsertVictim _ name) _ => Some name
  | Called (DbInsertSuspectForm _ f _) _
  | Called (DbInsertVictimForm _ f _) _ => Some (form_name f)
  | _ => None
  end.

(** Whether the latest confirmation query in [t] was one for [name] that was
    answered yes; [acc] when [t] holds no confirmation query. *)
Fixpoint last_confirmation (w : world) (name : string) (acc : bool) (t : trace)
    : bool :=
  match t with
  | [] => acc
  | e :: t' =>
      last_confirmation w name
        (if is_llm_complete e then confirms w name e else acc) t'
  end.

(** Every write about a person follows a confirmation of that very name, with
    no other confirmation query in between. *)
Definition gated (w : world) (t : trace) : Prop :=
  ∀ pre e post name,
    t = pre ++ e :: post → person_write e = Some name →
    last_confirmation w name false pre = true.

(** The suspect query names a company and a person; [llm] is bound and
    confirms the person only. *)
Definition world_two_candidates : world :=
  {| respond := λ X h c,
       match c in call T return outcome T with
       | Chat _ => Returned "{...}"
       | LlmComplete p =>
           if String.eqb p (confirm_prompt "John Doe") then Returned "yes"
           else Returned "no"
       | DbConnect => Returned tt
       | DbGetUrlId _ => Returned (Some 1)
       | DbInsertSuspect _ _ => Returned tt
       | DbGetSuspectId _ _ => Returned (Some 7)
       | DbInsertSuspectForm _ _ _ => Returned tt
       | _ => unavailable
       end;
     uniform := λ _ a _, a;
     model_validate_json := λ cls txt,
       match cls with
       | ConfirmResponse => Returned {| answer := txt; evidence := None |}
       | _ => Returned {| answer := "yes";
                          evidence := Some ["Acme Logistics"; "John Doe"] |}
       end;
     form_validate := λ _ _ _, Returned [("gender", Some "male")];
     readability_text := λ _, unavailable;
     tld_domain := λ u, "example" |}.

(** An entry that is no confirmation query and writes, if anything about a
    person, about [name]. *)
Definition about (name : string) (e : entry) : bool :=
  negb (is_llm_complete e)
  && match person_write e with
     | None => true
     | Some name' => String.eqb name' name
     end.

Definition no_person_write (e : entry) : bool :=
  match person_write e with None => true | Some _ => false end.

(** What filling the form of suspect [name] may do. *)
Definition suspect_form_entry (name : string) (e : entry) : bool :=
  match e with
  | Called DbConnect _ | Called (Chat _) _ | Called (DbGetUrlId _) _
  | Called (DbGetSuspectId _ _) _ => true
  | Called (DbInsertSuspectForm _ f _) _ => String.eqb (form_name f) name
  | _ => false
  end.

Definition victim_form_entry (name : string) (e : entry) : bool :=
  match e with
  | Called DbConnect _ | Called (Chat _) _ | Called (DbGetUrlId _) _
  | Called (DbGetVictimId _ _) _ => true
  | Called (DbInsertVictimForm _ f _) _ => String.eqb (form_name f) name
  | _ => false
  end.

(** No form is inserted. *)
Definition no_form_insert (e : entry) : bool :=
  match owner_insert e with None => true | Some _ => false end.

(** ** The shape of a run of [process_url] *)

(** [db.insert_url] accepted a record of [u] whose [actual_incident]
    satisfies [ok]. *)
Definition stored_as (u : string) (ok : Z → bool) (e : entry) : bool :=
  inserts_url u ok e && match e with Called _ r => returned r | Slept _ => false end.

(** A row insert: the table, and for a person or a form the name it is
    about. *)
Inductive row : Type :=
  | RUrl
  | RIncident
  | RSuspect (name : string)
  | RSuspectForm (name : string)
  | RVictim (name : string)
  | RVictimForm (name : string).

Definition row_of (e : entry) : option row :=
  match e with
  | Called (DbInsertUrl _) _ => Some RUrl
  | Called (DbInsertIncident _ _) _ => Some RIncident
  | Called (DbInsertSuspect _ name) _ => Some (RSuspect name)
  | Called (DbInsertSuspectForm _ f _) _ => Some (RSuspectForm (form_name f))
  | Called (DbInsertVictim _ name) _ => Some (RVictim name)
  | Called (DbInsertVictimForm _ f _) _ => Some (RVictimForm (form_name f))
  | _ => None
  end.

(** The row inserts of a trace, in the order they were issued. *)
Definition rows (t : trace) : list row := omap row_of t.

(** How far the row inserts of a URL have come: none yet; the record of the
    URL and perhaps incidents; suspects; victims.  Among the suspects and
    victims, [awaiting] is the person whose row was the last insert and whose
    form may come next. *)
Inductive phase : Type :=
  | NoRow
  | Incidents
  | Suspects (awaiting : option string)
  | Victims (awaiting : option string).

(** The phase after one more row insert, if the order allows it: the record
    of the URL comes first, incidents before every suspect, suspects before
    every victim, and a form only right after the row of its own person. *)
Definition next_phase (p : phase) (r : row) : option phase :=
  match r, p with
  | RUrl, NoRow => Some Incidents
  | RIncident, Incidents => Some Incidents
  | RSuspect name, (Incidents | Suspects _) => Some (Suspects (Some name))
  | RSuspectForm name, Suspects (Some owner) =>
      if String.eqb name owner then Some (Suspects None) else None
  | RVictim name, (Incidents | Suspects _ | Victims _) => Some (Victims (Some name))
  | RVictimForm name, Victims (Some owner) =>
      if String.eqb name owner then Some (Victims None) else None
  | _, _ => None
  end.

Fixpoint run_rows (p : phase) (rs : list row) : option phase :=
  match rs with
  | [] => Some p
  | r :: rest =>
      match next_phase p r with
      | Some p' => run_rows p' rest
      | None => None
      end
  end.

(** The order of the row inserts of one URL. *)
Definition interleaved_order (rs : list row) : bool :=
  match run_rows NoRow rs with
  | Some _ => true
  | None => false
  end.

Definition among_incidents (p : phase) : bool :=
  match p with Incidents => true | _ => false end.

Definition among_suspects (p : phase) : bool :=
  match p with Incidents | Suspects _ => true | _ => false end.

Definition among_victims (p : phase) : bool :=
  match p with Incidents | Suspects _ | Victims _ => true | _ => false end.

(** From every phase in [ok] the row inserts of [t] are in order and end in
    a phase in [ok]. *)
Definition keeps (ok : phase → bool) (t : trace) : Prop :=
  ∀ p, ok p = true → ∃ p', run_rows p (rows t) = Some p' ∧ ok p' = true.

(** The calls made for a confirmed incident: the incident rows, then
    the suspects with their forms, then the victims with theirs. *)
Definition entity_children (children : trace) : Prop :=
  ∃ ci cs cv,
    children = ci ++ cs ++ cv
    ∧ all (staged 1) ci ∧ all (staged 2) cs ∧ all (staged 3) cv
    ∧ follows owner_insert cs ∧ follows owner_insert cv
    ∧ keeps among_incidents ci ∧ keeps among_suspects cs
    ∧ keeps among_victims cv.

(** What verification found, as the record and the trace [tv] of
    [verify_incident] show it. *)
Definition verdict (w : world) (u : string) (status : Z) (tv : trace) : Prop :=
  (status = 1 ∧ existsb (recorded_yes u) tv = true
   ∧ existsb (answered_yes w) tv = true)
  ∨ status = 0 ∨ status = -2.

(** A run of [process_text]: the calls of verification, then the insert of
    the record, the look-up of its id and the entity calls, then the pause. *)
Definition text_run_shape (w : world) (u : string) (t : trace) : Prop :=
  ∃ tv tail pause,
    t = tv ++ tail ++ [Slept pause]
    ∧ all (verify_entry u) tv
    ∧ ((tail = [] ∧ existsb incident_query tv = false)
       ∨ ∃ rec r,
           url rec = u ∧ accessible rec = 1
           ∧ verdict w u (actual_incident rec) tv
           ∧ ((tail = [Called (DbInsertUrl rec) r] ∧ returned r = false)
              ∨ ∃ r2 children,
                  tail = Called (DbInsertUrl rec) r :: Called (DbGetUrlId u) r2
                         :: children
                  ∧ returned r = true
                  ∧ (children = []
                     ∨ (actual_incident rec = 1 ∧ entity_children children)))).

(** A run of [process_url]: browser and network calls, then nothing (an
    exception escaped), or the insert of the negative record, or a run of
    [process_text]. *)
Definition url_run_shape (w : world) (u : string) (t : trace) : Prop :=
  ∃ ta t',
    t = ta ++ t'
    ∧ all acquisition_entry ta
    ∧ (t' = []
       ∨ (∃ r, t' = [Called (DbInsertUrl (negative_record u (tld_domain w u))) r])
       ∨ text_run_shape w u t').

(** ** The order of writes *)

(** An insert into the incident, suspect, victim or form tables. *)
Definition child_insert (e : entry) : bool :=
  match stage e with
  | Some s => (0 <? s)%Z
  | None => false
  end.

Inductive write_class : Type :=
  | WUpdate | WUrl | WIncident | WPerson | WForm.

Definition write_class_of (e : entry) : option write_class :=
  match e with
  | Called (DbUpdateField _ _ _) _ => Some WUpdate
  | Called (DbInsertUrl _) _ => Some WUrl
  | Called (DbInsertIncident _ _) _ => Some WIncident
  | Called (DbInsertSuspect _ _) _ | Called (DbInsertVictim _ _) _ => Some WPerson
  | Called (DbInsertSuspectForm _ _ _) _
  | Called (DbInsertVictimForm _ _ _) _ => Some WForm
  | _ => None
  end.

(** The writes of a trace, and its row inserts. *)
Definition writes (t : trace) : list write_class := omap write_class_of t.

Definition row_inserts (t : trace) : list write_class :=
  List.filter (λ c, match c with WUpdate => false | _ => true end) (writes t).

(** The rank of a child row in the order the claim gives. *)
Definition child_rank (c : write_class) : option nat :=
  match c with
  | WIncident => Some 1%nat
  | WPerson => Some 2%nat
  | WForm => Some 3%nat
  | WUpdate | WUrl => None
  end.

(** Children only, their ranks never falling, starting no lower than [lo]. *)
Fixpoint children_in_order (lo : nat) (ws : list write_class) : bool :=
  match ws with
  | [] => true
  | c :: rest =>
      match child_rank c with
      | Some k => (lo <=? k)%nat && children_in_order k rest
      | None => false
      end
  end.

(** The order of writes as the claim has it: the record of the URL first,
    then the incident rows, then the suspect and victim rows, then the form
    rows. *)
Definition claimed_order (ws : list write_class) : bool :=
  match ws with
  | [] => true
  | WUrl :: rest => children_in_order 1 rest
  | _ :: _ => false
  end.

(** A reachable article that the model takes for an incident report.  The
    suspect query names [suspects]; the victim query answers no.  [llm] is
    bound when [llm_bound], and then confirms every name; otherwise its
    lookup raises, as in the file taken alone. *)
Definition world_incident (llm_bound : bool) (suspects : list string) : world :=
  {| respond := λ X h c,
       match c in call T return outcome T with
       | ChromeNew _ => Returned tt
       | SetPageLoadTimeout _ _ => Returned tt
       | DriverGet _ _ => Returned tt
       | DriverTitle _ => Returned "Warehouse raid frees eleven"
       | DriverPageSource _ => Returned "<html>...</html>"
       | DriverQuit _ => Returned tt
       | NewspaperText _ => Returned long_text
       | RequestsGet _ _ => Returned (200, "<html>...</html>")
       | OpenChatEngine _ => Returned tt
       | Chat _ => Returned "{...}"
       | LlmComplete _ =>
           if llm_bound then Returned "{...}"
           else Raised (OtherException "name 'llm' is not defined")
       | DbConnect => Returned tt
       | DbSearchUrls _ => Returned []
       | DbInsertUrl _ => Returned tt
       | DbGetUrlId _ => Returned (Some 1)
       | DbUpdateField _ _ _ => Returned tt
       | DbInsertIncident _ _ => Returned tt
       | DbInsertSuspect _ _ => Returned tt
       | DbInsertVictim _ _ => Returned tt
       | DbGetSuspectId _ _ => Returned (Some 7)
       | DbGetVictimId _ _ => Returned (Some 9)
       | DbInsertSuspectForm _ _ _ => Returned tt
       | DbInsertVictimForm _ _ _ => Returned tt
       | GetUniqueUrlsFromCsvs _ _ _ _ => Returned ["https://example.org/a"]
       end;
     uniform := λ _ a _, a;
     model_validate_json := λ cls _,
       match cls with
       | IncidentResponse =>
           Returned {| answer := "Yes"; evidence := Some ["raid on warehouse"] |}
       | SuspectResponse =>
           Returned {| answer := "yes"; evidence := Some suspects |}
       | VictimResponse => Returned {| answer := "no"; evidence := None |}
       | ConfirmResponse => Returned {| answer := "yes"; evidence := None |}
       end;
     form_validate := λ _ _ _, Returned [("gender", None)];
     readability_text := λ _, Returned long_text;
     tld_domain := λ u, "example" |}.

(** ** The loop over the URLs *)

(** The traces of [process_url] for the URLs of a batch, one after the
    other. *)
Fixpoint batch_trace (w : world) (driver : session) (urls : list string)
    (h : trace) : trace :=
  match urls with
  | [] => []
  | u :: rest =>
      let t := emitted (process_url u driver w h) in
      t ++ batch_trace w driver rest (h ++ t)
  end.

(** The claim that the loop of [main] runs through the whole batch. *)
Definition batch_completes (w : world) (driver : session) (urls : list string)
    (h : trace) : Prop :=
  for_each urls (λ u, process_url u driver) w h
  = (Returned tt, batch_trace w driver urls h).

(** The store takes every record of a negative exit. *)
Definition negative_inserts_accepted (w : world) : Prop :=
  ∀ h rec, accessible rec = 0 → respond w unit h (DbInsertUrl rec) = Returned tt.

(** A page load fails, if at all, with a timeout or a driver fault. *)
Definition load_faults_are_driver_faults (w : world) (driver : session) : Prop :=
  ∀ h u, match respond w unit h (DriverGet driver u) with
         | Returned _ => True
         | Raised (TimeoutException _) | Raised (WebDriverException _) => True
         | Raised _ => False
         end.

(** The URLs whose processing started: one throwaway browser each. *)
Definition probes (t : trace) : nat :=
  length (List.filter (λ e, match e with
                            | Called (ChromeNew ProbeSession) _ => true
                            | _ => false
                            end) t).

(** ** The store as the runs see it *)

(** The URLs of the records that [db.insert_url] accepted in a trace, in
    order. *)
Definition inserted (h : trace) : list string := omap inserted_url h.

(** The URL that a call on the store names.  Whatever the store makes of
    such a call (an insert, an upsert, a get-or-create), it is the only kind
    of call after which the store may hold a record of that URL where it
    held none. *)
Definition store_call_url (e : entry) : option string :=
  match e with
  | Called (DbInsertUrl rec) _ => Some (url rec)
  | Called (DbUpdateField u _ _) _ | Called (DbGetUrlId u) _ => Some u
  | _ => None
  end.

(** The URL of which an upsert store holds a record after a write: that of
    an accepted [insert_url] or [update_field]. *)
Definition written_url (e : entry) : option string :=
  match e with
  | Called (DbInsertUrl rec) r => if returned r then Some (url rec) else None
  | Called (DbUpdateField u _ _) r => if returned r then Some u else None
  | _ => None
  end.

Definition written (h : trace) : list string := omap written_url h.

(** The URL that a call is about. *)
Definition url_of (e : entry) : option string :=
  match e with
  | Called (DriverGet _ u) _ | Called (NewspaperText u) _
  | Called (RequestsGet u _) _ | Called (DbGetUrlId u) _
  | Called (DbUpdateField u _ _) _ => Some u
  | Called (DbInsertUrl rec) _ => Some (url rec)
  | _ => None
  end.

(** The URLs that the calls of a trace are about, in order. *)
Definition urls_of (t : trace) : list string := omap url_of t.

(** No call about another URL than [u]. *)
Definition about_only (u : string) (e : entry) : bool :=
  match url_of e with
  | Some u' => String.eqb u' u
  | None => true
  end.

(** No throwaway browser is started for a probe. *)
Definition no_probe_start (e : entry) : bool :=
  match e with
  | Called (ChromeNew ProbeSession) _ => false
  | _ => true
  end.

Definition stored_record (u : string) : url_record :=
  {| url := u; domain_name := EmptyString; source := "google_search";
     content := EmptyString; actual_incident := -1; accessible := 0 |}.

(** Modelled from the spec: [work_with_db.py] is not in src, and the store
    is known by what its calls return.  [held h] is the set of the URLs
    whose records the store holds after [h].  [search_urls(limit)] returns,
    and what it returns are the records of these URLs as long as they are
    no more than the limit; no record is ever dropped; an accepted
    [insert_url] leaves a record of its URL; and a record of a URL appears
    only after a store call that names this URL, so that the store may take
    a field update for an upsert, or a look-up of the id for a
    get-or-create, or not. *)
Record keeps_records (w : world) (held : trace → gset string) : Prop :=
  KeepsRecords {
    search_returns : ∀ h,
      ∃ recs, respond w (list url_record) h (DbSearchUrls 1000000) = Returned recs
              ∧ ((Z.of_nat (size (held h)) ≤ 1000000)%Z →
                 ∀ u, u ∈ url <$> recs ↔ u ∈ held h);
    records_kept : ∀ h e u, u ∈ held h → u ∈ held (h ++ [e]);
    insert_kept : ∀ h e u, inserted_url e = Some u → u ∈ held (h ++ [e]);
    records_written : ∀ h e u,
      u ∈ held (h ++ [e]) → u ∈ held h ∨ store_call_url e = Some u
  }.

(** The CSV files yield the same URL set whenever they are read. *)
Definition same_url_set (w : world) (files : list string) : Prop :=
  ∀ h, respond w (list string) h (GetUniqueUrlsFromCsvs "output" "url" 4 1000)
       = Returned files.

(** The pages render without a title and the store fails on every insert. *)
Definition world_store_down : world :=
  {| respond := λ X h c,
       match c in call T return outcome T with
       | ChromeNew _ => Returned tt
       | SetPageLoadTimeout _ _ => Returned tt
       | DriverGet _ _ => Returned tt
       | DriverTitle _ => Returned EmptyString
       | DriverQuit _ => Returned tt
       | DbConnect => Returned tt
       | DbSearchUrls _ => Returned []
       | DbInsertUrl _ => Raised (DatabaseError "database is locked")
       | GetUniqueUrlsFromCsvs _ _ _ _ =>
           Returned ["https://example.org/a"; "https://example.org/b"]
       | _ => unavailable
       end;
     uniform := λ _ a _, a;
     model_validate_json := λ _ _, unavailable;
     form_validate := λ _ _ _, unavailable;
     readability_text := λ _, unavailable;
     tld_domain := λ u, "example" |}.

(** A store that keeps what it accepted.  Pages are reachable and the first
    tier finds the article; the chat engine cannot be opened when
    [model_up] is [false]. *)
Definition world_keeping_store (model_up : bool) : world :=
  {| respond := λ X h c,
       match c in call T return outcome T with
       | ChromeNew _ => Returned tt
       | SetPageLoadTimeout _ _ => Returned tt
       | DriverGet _ _ => Returned tt
       | DriverTitle _ => Returned "Warehouse raid frees eleven"
       | DriverQuit _ => Returned tt
       | NewspaperText _ => Returned long_text
       | OpenChatEngine _ =>
           if model_up then Returned tt
           else Raised (OtherException "Connection error.")
       | Chat _ => Returned "{...}"
       | DbConnect => Returned tt
       | DbSearchUrls _ => Returned (stored_record <$> inserted h)
       | DbInsertUrl _ => Returned tt
       | DbGetUrlId _ => Returned (Some 1)
       | DbUpdateField _ _ _ => Returned tt
       | GetUniqueUrlsFromCsvs _ _ _ _ => Returned ["https://example.org/a"]
       | _ => unavailable
       end;
     uniform := λ _ a _, a;
     model_validate_json := λ _ _, Returned {| answer := "no"; evidence := None |};
     form_validate := λ _ _ _, unavailable;
     readability_text := λ _, unavailable;
     tld_domain := λ u, "example" |}.

(** A store that takes a field update for an upsert and rejects the insert
    of a record it holds, as the persistence contract words it.  Pages are
    reachable, the first tier finds the article and the model answers no. *)
Definition world_upsert_store : world :=
  {| respond := λ X h c,
       match c in call T return outcome T with
       | ChromeNew _ => Returned tt
       | SetPageLoadTimeout _ _ => Returned tt
       | DriverGet _ _ => Returned tt
       | DriverTitle _ => Returned "Warehouse raid frees eleven"
       | DriverQuit _ => Returned tt
       | NewspaperText _ => Returned long_text
       | OpenChatEngine _ => Returned tt
       | Chat _ => Returned "{...}"
       | DbConnect => Returned tt
       | DbSearchUrls _ => Returned (stored_record <$> written h)
       | DbInsertUrl rec =>
           if existsb (String.eqb (url rec)) (written h)
           then Raised (DatabaseError "UNIQUE constraint failed: urls.url")
           else Returned tt
       | DbGetUrlId _ => Returned (Some 1)
       | DbUpdateField _ _ _ => Returned tt
       | GetUniqueUrlsFromCsvs _ _ _ _ => Returned ["https://example.org/a"]
       | _ => unavailable
       end;
     uniform := λ _ a _, a;
     model_validate_json := λ _ _, Returned {| answer := "no"; evidence := None |};
     form_validate := λ _ _ _, unavailable;
     readability_text := λ _, unavailable;
     tld_domain := λ u, "example" |}.

(** The claim that a second run over the same URL set and store processes
    no URL and inserts no record. *)
Definition rerun_is_idle (w : world) (h : trace) : Prop :=
  let h1 := h ++ emitted (main w h) in
  probes (emitted (main w h1)) = 0%nat
  ∧ inserted (emitted (main w h1)) = [].

(** ** What a computation can emit *)

(** [P] holds of the trace of every run of [m]. *)
Definition always {A} (P : world → trace → Prop) (m : M A) : Prop :=
  ∀ w h, P w (emitted (m w h)).

(** [P] holds of the empty trace and of a concatenation of traces that have
    it. *)
Definition closed (P : world → trace → Prop) : Prop :=
  (∀ w, P w []) ∧ (∀ w t1 t2, P w t1 → P w t2 → P w (t1 ++ t2)).


(** ** The load with retries *)

(** A load of [u] that timed out and the sleep that follows it. *)
Definition timed_out_round (driver : session) (u : string) (retry_delay : Z)
    (msg : string) : trace :=
  [Called (DriverGet driver u) (Raised (TimeoutException msg));
   Slept (inject_Z retry_delay)].

Definition is_timeout {X} (r : outcome X) : bool :=
  match r with
  | Raised (TimeoutException _) => true
  | _ => false
  end.

(** What the load that ends the loop makes of the outcome of [driver.get]. *)
Definition load_verdict (r : outcome unit) : outcome bool :=
  match r with
  | Returned _ => Returned true
  | Raised (TimeoutException _) | Raised (WebDriverException _) => Returned false
  | Raised e => Raised e
  end.

(** The exceptions [fetch_url_with_retries] handles. *)
Definition is_driver_fault (e : exn) : bool :=
  match e with
  | TimeoutException _ | WebDriverException _ => true
  | _ => false
  end.

(** The pages have a title, but the long-lived browser is gone: its loads
    fail with a connection error of the HTTP client. *)
Definition world_driver_gone : world :=
  {| respond := λ X h c,
       match c in call T return outcome T with
       | ChromeNew _ => Returned tt
       | SetPageLoadTimeout _ _ => Returned tt
       | DriverGet ProbeSession _ => Returned tt
       | DriverGet _ _ => Raised (OtherException "Max retries exceeded: Connection refused")
       | DriverTitle _ => Returned "Breaking news"
       | DriverQuit _ => Returned tt
       | DbConnect => Returned tt
       | DbSearchUrls _ => Returned []
       | DbInsertUrl _ => Returned tt
       | GetUniqueUrlsFromCsvs _ _ _ _ =>
           Returned ["https://example.org/a"; "https://example.org/b"]
       | _ => unavailable
       end;
     uniform := λ _ a _, a;
     model_validate_json := λ _ _, unavailable;
     form_validate := λ _ _ _, unavailable;
     readability_text := λ _, unavailable;
     tld_domain := λ u, "example" |}.

(** ** The start and the end of [main] *)

(** [driver.quit()] on the long-lived browser. *)
Definition main_quit (e : entry) : bool :=
  match e with
  | Called (DriverQuit MainSession) _ => true
  | _ => false
  end.

Definition no_main_quit (e : entry) : bool := negb (main_quit e).

(** What [main] does before the loop: it opens the store, reads the CSV
    files and the stored URLs, and starts the long-lived browser. *)
Definition startup_entry (e : entry) : bool :=
  match e with
  | Called DbConnect _ | Called (GetUniqueUrlsFromCsvs _ _ _ _) _
  | Called (DbSearchUrls _) _
  | Called (ChromeNew MainSession) _
  | Called (SetPageLoadTimeout MainSession _) _ => true
  | _ => false
  end.

(** The store answers the first [search_urls] with a record and the second
    with none. *)
Definition world_vanishing_record : world :=
  {| respond := λ X h c,
       match c in call T return outcome T with
       | ChromeNew _ => Returned tt
       | SetPageLoadTimeout _ _ => Returned tt
       | DbConnect => Returned tt
       | DbSearchUrls _ =>
           if existsb (λ e, match e with
                            | Called (DbSearchUrls _) _ => true
                            | _ => false
                            end) h
           then Returned []
           else Returned [negative_record "https://example.org/b" "example"]
       | GetUniqueUrlsFromCsvs _ _ _ _ => Returned ["https://example.org/a"]
       | _ => unavailable
       end;
     uniform := λ _ a _, a;
     model_validate_json := λ _ _, unavailable;
     form_validate := λ _ _ _, unavailable;
     readability_text := λ _, unavailable;
     tld_domain := λ u, "example" |}.

(** One new URL, and no chromedriver on the machine. *)
Definition world_no_browser : world :=
  {| respond := λ X h c,
       match c in call T return outcome T with
       | ChromeNew _ =>
           Raised (WebDriverException "'chromedriver' executable needs to be in PATH")
       | DbConnect => Returned tt
       | DbSearchUrls _ => Returned []
       | DbInsertUrl _ => Returned tt
       | GetUniqueUrlsFromCsvs _ _ _ _ => Returned ["https://example.org/a"]
       | _ => unavailable
       end;
     uniform := λ _ a _, a;
     model_validate_json := λ _ _, unavailable;
     form_validate := λ _ _ _, unavailable;
     readability_text := λ _, unavailable;
     tld_domain := λ u, "example" |}.

(** ** Throwaway browsers *)

(** [driver.quit()] of the probe's browser, and a [driver.title] that was
    read. *)
Definition probe_quit (e : entry) : bool :=
  match e with
  | Called (DriverQuit ProbeSession) _ => true
  | _ => false
  end.

Definition title_read (e : entry) : bool :=
  match e with
  | Called (DriverTitle ProbeSession) r => returned r
  | _ => false
  end.

(** The same for the browser of the third tier and its [page_source]. *)
Definition tier_quit (e : entry) : bool :=
  match e with
  | Called (DriverQuit TierSession) _ => true
  | _ => false
  end.

Definition source_read (e : entry) : bool :=
  match e with
  | Called (DriverPageSource TierSession) r => returned r
  | _ => false
  end.

(** A browser that was started. *)
Definition started (e : entry) : bool :=
  match e with
  | Called (ChromeNew _) r => returned r
  | _ => false
  end.

(** A [driver.get] that raised. *)
Definition load_raised (e : entry) : bool :=
  match e with
  | Called (DriverGet _ _) r => negb (returned r)
  | _ => false
  end.

(** ** Replies and what became of them *)

(** A prompt whose reply validates under [cls]. *)
Definition attempt_validates (w : world) (cls : model_class) (e : entry) : bool :=
  match e with
  | Called c r =>
      match c in call T return outcome T → bool with
      | Chat _ => λ r, validates w cls (λ _, true) r
      | _ => λ _, false
      end r
  | Slept _ => false
  end.

(** [db.update_field(u, "actual_incident", v)] went through. *)
Definition recorded_status (u : string) (v : Z) (e : entry) : bool :=
  match e with
  | Called (DbUpdateField u' field value) r =>
      String.eqb u' u && String.eqb field "actual_incident" && (value =? v)%Z
      && returned r
  | _ => false
  end.

Definition is_update (e : entry) : bool :=
  match e with
  | Called (DbUpdateField _ _ _) _ => true
  | _ => false
  end.

(** ** Detail forms *)

Definition is_suspect_form_insert (e : entry) : bool :=
  match e with
  | Called (DbInsertSuspectForm _ _ _) _ => true
  | _ => false
  end.

Definition is_victim_form_insert (e : entry) : bool :=
  match e with
  | Called (DbInsertVictimForm _ _ _) _ => true
  | _ => false
  end.

(** ** The loops over the candidates *)

Definition is_database_error (e : exn) : bool :=
  match e with
  | DatabaseError _ => true
  | _ => false
  end.

(** The insert of a confirmed name returned, or failed with the
    [DatabaseError] that is logged. *)
Definition insert_passes (r : outcome unit) : bool :=
  match r with
  | Returned _ => true
  | Raised e => is_database_error e
  end.

(** What a candidate leaves in the trace of a loop that goes on to the next
    one: its confirmation query and body, and the pause if there is one. *)
Definition is_sleep (e : entry) : bool :=
  match e with
  | Slept _ => true
  | _ => false
  end.

(** [llm] is bound and takes every string for a person's name; the suspect
    and victim tables reject their inserts with the error [insert_error]. *)
Definition world_insert_fault (insert_error : exn) : world :=
  {| respond := λ X h c,
       match c in call T return outcome T with
       | Chat _ => Returned "{...}"
       | LlmComplete _ => Returned "{...}"
       | DbConnect => Returned tt
       | DbGetUrlId _ => Returned (Some 1)
       | DbInsertSuspect _ _ => Raised insert_error
       | DbInsertVictim _ _ => Raised insert_error
       | DbGetSuspectId _ _ => Returned None
       | DbGetVictimId _ _ => Returned None
       | DbInsertSuspectForm _ _ _ => Returned tt
       | DbInsertVictimForm _ _ _ => Returned tt
       | _ => unavailable
       end;
     uniform := λ _ a _, a;
     model_validate_json := λ _ _, Returned {| answer := "yes"; evidence := None |};
     form_validate := λ _ _ _, Returned [("gender", None)];
     readability_text := λ _, unavailable;
     tld_domain := λ u, "example" |}.

Definition no_sleep (e : entry) : bool := negb (is_sleep e).

(** The model answered yes and gave at least one name. *)
Definition names_given (data : llm_response) : bool :=
  says_yes data && match evidence_or_empty data with [] => false | _ => true end.

(** A name is put to the confirmation query, or a row about a person is
    written. *)
Definition examines_or_writes (e : entry) : bool :=
  is_llm_complete e || negb (no_person_write e).

(** [db.get_url_id(u)] returned. *)
Definition url_id_read (u : string) (e : entry) : bool :=
  match e with
  | Called (DbGetUrlId u') r => String.eqb u' u && returned r
  | _ => false
  end.

(** ** The records of [process_url] *)

(** A record of [u] as [process_url] builds it: either the negative one, or
    one that carries a text of at least [MIN_TEXT_LENGTH] characters with the
    status verification gave. *)
Definition consistent_record (u domain : string) (rec : url_record) : bool :=
  String.eqb (url rec) u && String.eqb (domain_name rec) domain
  && String.eqb (source rec) "google_search"
  && (((accessible rec =? 0)%Z && String.eqb (content rec) EmptyString
       && (actual_incident rec =? -1)%Z)
      || ((accessible rec =? 1)%Z && meets_threshold (content rec)
          && ((actual_incident rec =? 1) || (actual_incident rec =? 0)
              || (actual_incident rec =? -2))%Z)).

Definition record_ok (u domain : string) (e : entry) : bool :=
  match e with
  | Called (DbInsertUrl rec) _ => consistent_record u domain rec
  | _ => true
  end.

(** ** Reading a run of the search functions *)

(** The ceiling of the exact quotient [a / b], for a positive [b]. *)
Definition exact_ceiling (a b : Z) : Z := (- ((- a) / b))%Z.

(** The list requests that were executed: query, engine id, page size and
    start index. *)
Definition requests {item} (t : list (search_entry item))
    : list (string * string * Z * Z) :=
  omap (λ e, match e with
             | Executed q cx num start _ => Some (q, cx, num, start)
             | _ => None
             end) t.

(** The items of a reply, none when the request failed or the reply has no
    [items]. *)
Definition items_of {item} (r : search_reply item) : list item :=
  match r with
  | Reply (Some items) => items
  | _ => []
  end.

(** The result pages of a run, in order. *)
Definition result_pages {item} (t : list (search_entry item)) : list (list item) :=
  omap (λ e, match e with
             | Executed _ _ _ _ r => Some (items_of r)
             | _ => None
             end) t.

Definition pauses {item} (t : list (search_entry item)) : list Q :=
  omap (λ e, match e with Paused d => Some d | _ => None end) t.

(** The failures that no handler of [google_search] takes: that of
    [build], and that of decoding the content of an [HttpError]. *)
Definition escapes {item} (e : search_entry item) : option exn :=
  match e with
  | Built _ (Raised e) => Some e
  | Executed _ _ _ _ (HttpError (Raised e)) => Some e
  | _ => None
  end.

Definition escaped {item} (e : search_entry item) : bool :=
  match escapes e with Some _ => true | None => false end.

(** An API that serves [total] items, ten to a page, the item at index [i]
    being [i]; asked for a start past the end it answers with an error. *)
Definition numbered_api (total : Z) : search_api Z :=
  {| build := λ _ _, Returned tt;
     execute := λ _ _ _ num start,
       if (start <=? total)%Z
       then Reply (Some (seqZ start (Z.min num (total - start + 1))))
       else HttpError (Returned "Request contains an invalid argument.") |}.

(** An API whose service cannot be built once two pages were served. *)
Definition expiring_api : search_api Z :=
  {| build := λ h _,
       if (length (requests h) <? 2)%nat then Returned tt
       else Raised (OtherException "invalid_grant: token expired");
     execute := λ _ _ _ num start, Reply (Some (seqZ start num)) |}.

(** An API that serves one page and then answers with an [HttpError] whose
    content is not UTF-8. *)
Definition garbled_api : search_api Z :=
  {| build := λ _ _, Returned tt;
     execute := λ h _ _ num start,
       if (length (requests h) <? 1)%nat then Reply (Some (seqZ start num))
       else HttpError (Raised (OtherException "'utf-8' codec can't decode byte 0xff")) |}.

(** ** Reading a search of the crawler *)

(** The URLs a generator yields, and the exception it ends with, if any. *)
Fixpoint yielded (g : web_crawler.generator) : list string :=
  match g with
  | web_crawler.Yield u rest => u :: yielded rest
  | _ => []
  end.

Fixpoint failure (g : web_crawler.generator) : option exn :=
  match g with
  | web_crawler.Exhausted => None
  | web_crawler.Yield _ rest => failure rest
  | web_crawler.Throw e => Some e
  end.

(** The host of a URL with scheme [https], and a search that yields three
    URLs and then, when [broken], loses its connection. *)
Definition demo_library (broken : bool) : web_crawler.library :=
  {| web_crawler.urlparse_netloc := λ u,
       match u with
       | "https://www.News24.com/a" => Returned "www.News24.com"
       | "https://example.org/b" => Returned "example.org"
       | "https://blog.example.org/c" => Returned "blog.example.org"
       | _ => Raised (OtherException "ValueError: Invalid IPv6 URL")
       end;
     web_crawler.search := λ _ _ _ _ _ _ _,
       web_crawler.Yield "https://www.News24.com/a"
         (web_crawler.Yield "https://example.org/b"
            (web_crawler.Yield "https://blog.example.org/c"
               (if broken
                then web_crawler.Throw (OtherException "HTTP Error 429: Too Many Requests")
                else web_crawler.Exhausted))) |}.

(** ** Reading a run of the crawler *)

(** A configuration with another value, or none, under [days_back]. *)
Definition with_days_back (days : option Z) (config : web_crawler.search_config)
    : web_crawler.search_config :=
  {| web_crawler.config_id := web_crawler.config_id config;
     web_crawler.config_days_back := days;
     web_crawler.config_excluded_domains :=
       web_crawler.config_excluded_domains config |}.

Definition is_search (e : web_crawler.crawl_entry) : bool :=
  match e with
  | web_crawler.Searched _ _ => true
  | _ => false
  end.

Definition is_csv (e : web_crawler.crawl_entry) : bool :=
  match e with
  | web_crawler.WroteCsv _ _ _ => true
  | _ => false
  end.

(** A CSV file as [main] writes it: under [output/], with at least one row,
    every row giving a URL, its domain and the source [google_miner]. *)
Definition csv_ok (cw : web_crawler.crawl_world) (e : web_crawler.crawl_entry)
    : Prop :=
  match e with
  | web_crawler.WroteCsv file_name rows _ =>
      String.prefix "output/saved_urls_" file_name = true
      ∧ rows ≠ []
      ∧ Forall (λ row, row = (row.1.1, web_crawler.extract_domain cw row.1.1,
                              "google_miner")) rows
  | _ => True
  end.

(** * Properties *)

(** ** Running a computation *)

Lemma bind_run {A B} (m : M A) (k : A → M B) w h :
  bind m k w h
  = match m w h with
    | (Returned a, t) => let '(r, t') := k a w (h ++ t) in (r, t ++ t')
    | (Raised e, t) => (Raised e, t)
    end.
Proof. reflexivity. Qed.

Lemma try_except_run {A} (m : M A) (handler : exn → M A) w h :
  try_except m handler w h
  = match m w h with
    | (Returned a, t) => (Returned a, t)
    | (Raised e, t) => let '(r, t') := handler e w (h ++ t) in (r, t ++ t')
    end.
Proof. reflexivity. Qed.

Lemma perform_run {X} (c : call X) w h :
  perform c w h = (respond w X h c, [Called c (respond w X h c)]).
Proof. reflexivity. Qed.

(** ** The validated prompt call *)

(** One pass through the retry loop of [get_validated_response]. *)
Lemma gvr_loop_cons p cls base attempt rest w h :
  gvr_loop p cls base (attempt :: rest) w h =
  let reply := respond w string h (Chat p) in
  let sent := Called (Chat p) reply in
  match attempt_outcome w cls reply with
  | Returned data => (Returned (Some data), [sent])
  | Raised e =>
      if is_terminal e then (Returned None, [sent])
      else if is_request_error e then
        let '(r, t) := gvr_loop p cls base rest w (h ++ [sent]) in (r, sent :: t)
      else
        let nap := Slept (int_add_float (pre_jitter_delay base attempt)
                            (uniform w (h ++ [sent]) 0 1)) in
        let '(r, t) := gvr_loop p cls base rest w (h ++ [sent; nap]) in
        (r, sent :: nap :: t)
  end.
Proof.
  simpl. unfold bind, try_except, perform, lift, ret, attempt_outcome.
  destruct (respond w string h (Chat p)) as [txt|e]; simpl.
  - destruct (model_validate_json w cls txt) as [data|e]; simpl; [done|].
    destruct e; simpl; try done;
      unfold rate_limited; simpl;
      match goal with |- context [contains ?a ?b] => destruct (contains a b) end;
      simpl; rewrite <- ?app_assoc; simpl; done.
  - destruct e; simpl; try done;
      unfold rate_limited; simpl;
      match goal with |- context [contains ?a ?b] => destruct (contains a b) end;
      simpl; rewrite <- ?app_assoc; simpl; done.
Qed.






Example rate_limit_as_request_error_run :
  let run := get_validated_response "incident_prompt"
               SHORT_PROMPTS.incident_prompt IncidentResponse
               world_429_request_error [] in
  result_of run = Returned None
  ∧ chat_attempts (emitted run) = 5%nat
  ∧ sleeps (emitted run) = [].
Proof. repeat split; vm_compute; reflexivity. Qed.



(** The delays as the trace has them, for the world that answers every
    prompt with HTTP 429 and draws no jitter; and the float sum for a jitter
    of [0.1], which differs from the exact sum. *)
Example rate_limited_sleeps :
  sleeps (emitted (get_validated_response "incident_prompt"
                     SHORT_PROMPTS.incident_prompt IncidentResponse
                     world_rate_limited []))
  = [inject_Z 5; inject_Z 10; inject_Z 20; inject_Z 40; inject_Z 80]
  ∧ int_add_float 5 (3602879701896397 # 36028797018963968)
    = (2871044762448691 # 562949953421312)%Q
  ∧ ¬ (inject_Z 5 + (3602879701896397 # 36028797018963968)
       == 2871044762448691 # 562949953421312)%Q.
Proof. split; [|split]; [vm_compute; reflexivity..|]. by vm_compute. Qed.

(** C4 as stated fails for a transport error: the handler of
    [RequestException] logs and falls through to the next attempt.  Here the
    first attempt meets a connection error and the second one is answered, so
    the call makes two attempts and returns the validated data. *)
Lemma transport_error_is_retried :
  ¬ single_attempt_on_failure world_transport_error []
      SHORT_PROMPTS.incident_prompt IncidentResponse.
Proof.
  intros Hclaim.
  specialize (Hclaim (RequestException "Connection aborted.") eq_refl eq_refl
                "incident_prompt").
  vm_compute in Hclaim. discriminate Hclaim.
Qed.

Example transport_error_run :
  get_validated_response "incident_prompt" SHORT_PROMPTS.incident_prompt
    IncidentResponse world_transport_error []
  = (Returned (Some {| answer := "no"; evidence := None |}),
     [Called (Chat SHORT_PROMPTS.incident_prompt)
        (Raised (RequestException "Connection aborted."));
      Called (Chat SHORT_PROMPTS.incident_prompt) (Returned "{answer: no}")]).
Proof. vm_compute. reflexivity. Qed.

(** C4, amended: when the first attempt fails with a JSON decoding error, or
    with any exception that is neither a request error nor taken for a rate
    limit, the call returns [None] after that single attempt; when it fails
    with a request error the next attempt follows at once, without a sleep,
    while attempts remain. *)
Theorem failure_without_rate_limit w h key p cls e :
  attempt_outcome w cls (respond w string h (Chat p)) = Raised e →
  is_rate_limit e = false →
  let sent := Called (Chat p) (respond w string h (Chat p)) in
  (is_request_error e = false →
     get_validated_response key p cls w h = (Returned None, [sent]))
  ∧ (is_request_error e = true →
     get_validated_response key p cls w h
     = let '(r, t) := gvr_loop p cls 5 (seqZ 1 4) w (h ++ [sent]) in
       (r, sent :: t)).
Proof.
  intros Hfail Hrl sent. unfold get_validated_response.
  change (seqZ 0 5) with (0 :: seqZ 1 4).
  rewrite gvr_loop_cons; cbv zeta. rewrite Hfail.
  split; intros Hreq.
  - replace (is_terminal e) with true; [done|].
    destruct e; simpl in *; try done; by rewrite Hrl.
  - destruct e; simpl in *; done.
Qed.

Lemma failure_without_rate_limit_witness :
  let w := world_malformed_reply in
  let p := SHORT_PROMPTS.incident_prompt in
  let sent := Called (Chat p) (respond w string [] (Chat p)) in
  (is_request_error (OtherException "1 validation error: Invalid JSON") = false →
     get_validated_response "incident_prompt" p IncidentResponse w []
     = (Returned None, [sent]))
  ∧ (is_request_error (OtherException "1 validation error: Invalid JSON") = true →
     get_validated_response "incident_prompt" p IncidentResponse w []
     = let '(r, t) := gvr_loop p IncidentResponse 5 (seqZ 1 4) w ([] ++ [sent]) in
       (r, sent :: t)).
Proof.
  apply (failure_without_rate_limit world_malformed_reply []
           "incident_prompt" SHORT_PROMPTS.incident_prompt IncidentResponse
           (OtherException "1 validation error: Invalid JSON"));
    reflexivity.
Defined.

(** ** Extraction tiers *)

Lemma accepted_tier_output raw : tier_output (accepted raw).
Proof.
  unfold tier_output, accepted. destruct raw as [raw|e]; [|done].
  destruct (meets_threshold (strip raw)) eqn:E; [by rewrite E|done].
Qed.

Lemma tier_output_truthy s : tier_output s → truthy s = meets_threshold s.
Proof.
  unfold tier_output. destruct (meets_threshold s) eqn:E; [|by intros ->].
  intros _. by destruct s.
Qed.

Lemma extract_with_newspaper_run u w h :
  extract_with_newspaper u w h
  = let reply := respond w string h (NewspaperText u) in
    (Returned (accepted reply), [Called (NewspaperText u) reply]).
Proof.
  unfold extract_with_newspaper, bind, try_except, perform, accepted,
    meets_threshold. cbn -[Nat.leb strip].
  destruct (respond w string h (NewspaperText u)) as [raw|e];
    cbn -[Nat.leb strip]; [|done].
  by destruct (MIN_TEXT_LENGTH <=? String.length (strip raw))%nat.
Qed.

Lemma extract_with_readability_run u w h :
  extract_with_readability u w h
  = let reply := respond w (Z * string)%type h (RequestsGet u 10) in
    (Returned (accepted (readability_raw w reply)),
     [Called (RequestsGet u 10) reply]).
Proof.
  unfold extract_with_readability, bind, try_except, perform, lift, accepted,
    readability_raw, meets_threshold. cbn -[Nat.leb strip].
  destruct (respond w (Z * string)%type h (RequestsGet u 10))
    as [[status_code body]|e]; cbn -[Nat.leb strip]; [|done].
  destruct (status_code =? 200)%Z; cbn -[Nat.leb strip]; [|done].
  destruct (readability_text w body) as [raw|e]; cbn -[Nat.leb strip]; [|done].
  by destruct (MIN_TEXT_LENGTH <=? String.length (strip raw))%nat.
Qed.

(** The third tier is its browser session, and what it returns is the
    readable part of the rendered DOM, stripped, if that meets the
    threshold. *)
Lemma extract_with_selenium_rendered u w h :
  extract_with_selenium u w h
  = (Returned (accepted (rendered_raw w u h).1), (rendered_raw w u h).2).
Proof.
  unfold extract_with_selenium, rendered_raw, bind, try_except, perform, lift,
    sleep, accepted, meets_threshold. cbn -[Nat.leb strip].
  destruct (respond w unit h (ChromeNew TierSession));
    rewrite <- ?app_assoc; cbn -[Nat.leb strip]; [|done].
  destruct (respond w unit _ (DriverGet TierSession u));
    rewrite <- ?app_assoc; cbn -[Nat.leb strip]; [|done].
  destruct (respond w string _ (DriverPageSource TierSession)) as [html|];
    rewrite <- ?app_assoc; cbn -[Nat.leb strip]; [|done].
  destruct (respond w unit _ (DriverQuit TierSession));
    rewrite <- ?app_assoc; cbn -[Nat.leb strip]; [|done].
  destruct (readability_text w html) as [raw|]; cbn -[Nat.leb strip]; [|done].
  by destruct (MIN_TEXT_LENGTH <=? String.length (strip raw))%nat.
Qed.

Lemma rendered_raw_entries w u h :
  forallb tier_session_entry (rendered_raw w u h).2 = true.
Proof.
  unfold rendered_raw.
  destruct (respond w unit h (ChromeNew TierSession)); [|done].
  destruct (respond w unit _ (DriverGet TierSession u)); [|done].
  destruct (respond w string _ (DriverPageSource TierSession)); [|done].
  by destruct (respond w unit _ (DriverQuit TierSession)).
Qed.

Lemma extract_with_selenium_run u w h :
  ∃ s, result_of (extract_with_selenium u w h) = Returned s
       ∧ tier_output s
       ∧ forallb tier_session_entry (emitted (extract_with_selenium u w h)) = true.
Proof.
  rewrite extract_with_selenium_rendered. eexists. split; [done|].
  split; [apply accepted_tier_output|apply rendered_raw_entries].
Qed.

(** [extract_main_text] by the outputs of its tiers. *)
Lemma extract_main_text_run w u h :
  let reply1 := respond w string h (NewspaperText u) in
  let t1 := [Called (NewspaperText u) reply1] in
  let reply2 := respond w (Z * string)%type (h ++ t1) (RequestsGet u 10) in
  let t2 := [Called (RequestsGet u 10) reply2] in
  let r3 := extract_with_selenium u w (h ++ t1 ++ t2) in
  let s1 := accepted reply1 in
  let s2 := accepted (readability_raw w reply2) in
  ∃ s3, result_of r3 = Returned s3 ∧ tier_output s3
        ∧ forallb tier_session_entry (emitted r3) = true
        ∧ extract_main_text u w h
          = if meets_threshold s1 then (Returned s1, t1)
            else if meets_threshold s2 then (Returned s2, t1 ++ t2)
            else if meets_threshold s3 then (Returned s3, t1 ++ t2 ++ emitted r3)
            else (Returned EmptyString, t1 ++ t2 ++ emitted r3).
Proof.
  intros reply1 t1 reply2 t2 r3 s1 s2.
  pose proof (extract_with_newspaper_run u w h) as H1.
  pose proof (extract_with_readability_run u w (h ++ t1)) as H2.
  cbv zeta in H1, H2. fold reply1 t1 s1 in H1. fold reply2 t2 s2 in H2.
  pose proof (accepted_tier_output reply1) as O1.
  pose proof (accepted_tier_output (readability_raw w reply2)) as O2.
  fold s1 in O1. fold s2 in O2.
  destruct (extract_with_selenium_run u w (h ++ t1 ++ t2)) as (s3 & R3 & O3 & T3).
  fold r3 in R3, T3. exists s3. repeat split; try done.
  unfold extract_main_text, bind.
  rewrite H1, (tier_output_truthy _ O1).
  destruct (meets_threshold s1); simpl; [done|].
  rewrite H2, (tier_output_truthy _ O2).
  destruct (meets_threshold s2); simpl; [done|].
  rewrite <- app_assoc. fold r3.
  destruct r3 as [o3 t3]; simpl in *. subst o3.
  unfold tier_output in O3. destruct (meets_threshold s3); [done|].
  by rewrite O3.
Qed.

Lemma extract_main_text_returns u w h :
  ∃ s, result_of (extract_main_text u w h) = Returned s.
Proof.
  destruct (extract_main_text_run w u h) as (s3 & _ & _ & _ & Heq).
  rewrite Heq. repeat case_match; by eexists.
Qed.

(** C5: the tiers run in the order newspaper, HTTP fetch with readability,
    rendered DOM; a tier returns its stripped text when that has at least 100
    characters and the empty string otherwise.  The first tier's text is
    newspaper's; the second's is the readable part of the body of a 200
    reply; the third's is the readable part of the DOM that a throwaway
    browser rendered, read after three seconds, the browser being quit
    before the text is extracted.  [extract_main_text] returns the output of
    the first tier that meets the threshold and calls no later tier, and the
    empty string when none does.  In particular, when tier 1 stays below the
    threshold and tier 2 meets it, the result is tier 2's output and the run
    consists of the two calls of tiers 1 and 2. *)
Theorem extract_main_text_first_accepted w u h :
  let reply1 := respond w string h (NewspaperText u) in
  let t1 := [Called (NewspaperText u) reply1] in
  let reply2 := respond w (Z * string)%type (h ++ t1) (RequestsGet u 10) in
  let t2 := [Called (RequestsGet u 10) reply2] in
  let r3 := extract_with_selenium u w (h ++ t1 ++ t2) in
  let s1 := accepted reply1 in
  let s2 := accepted (readability_raw w reply2) in
  let s3 := accepted (rendered_raw w u (h ++ t1 ++ t2)).1 in
  let t3 := (rendered_raw w u (h ++ t1 ++ t2)).2 in
  extract_with_newspaper u w h = (Returned s1, t1)
  ∧ extract_with_readability u w (h ++ t1) = (Returned s2, t2)
  ∧ r3 = (Returned s3, t3)
  ∧ tier_output s1 ∧ tier_output s2 ∧ tier_output s3
  ∧ forallb tier_session_entry t3 = true
  ∧ extract_main_text u w h
    = (if meets_threshold s1 then (Returned s1, t1)
       else if meets_threshold s2 then (Returned s2, t1 ++ t2)
       else if meets_threshold s3 then (Returned s3, t1 ++ t2 ++ t3)
       else (Returned EmptyString, t1 ++ t2 ++ t3))
  ∧ (meets_threshold s1 = false → meets_threshold s2 = true →
     extract_main_text u w h = (Returned s2, t1 ++ t2))
  ∧ (meets_threshold s1 = false → meets_threshold s2 = false →
     extract_main_text u w h = (Returned s3, t1 ++ t2 ++ t3)).
Proof.
  intros reply1 t1 reply2 t2 r3 s1 s2 s3 t3.
  pose proof (extract_main_text_run w u h) as Hrun. cbv zeta in Hrun.
  fold reply1 t1 reply2 t2 r3 s1 s2 in Hrun.
  assert (H3 : r3 = (Returned s3, t3)) by apply extract_with_selenium_rendered.
  pose proof (accepted_tier_output (rendered_raw w u (h ++ t1 ++ t2)).1) as O3.
  fold s3 in O3.
  assert (Heq : extract_main_text u w h
    = (if meets_threshold s1 then (Returned s1, t1)
       else if meets_threshold s2 then (Returned s2, t1 ++ t2)
       else if meets_threshold s3 then (Returned s3, t1 ++ t2 ++ t3)
       else (Returned EmptyString, t1 ++ t2 ++ t3))).
  { destruct Hrun as (s3' & R3 & _ & _ & ->). rewrite H3 in R3 |- *.
    unfold result_of, emitted in *. simpl in *. by simplify_eq. }
  split; [apply extract_with_newspaper_run|].
  split; [apply extract_with_readability_run|].
  split; [exact H3|].
  split; [apply accepted_tier_output|].
  split; [apply accepted_tier_output|].
  split; [exact O3|].
  split; [apply rendered_raw_entries|].
  split; [exact Heq|].
  split; intros E1 E2; rewrite Heq, E1, E2; [done|].
  unfold tier_output in O3. destruct (meets_threshold s3); [done|].
  by rewrite O3.
Qed.

Lemma extract_main_text_first_accepted_witness :
  extract_main_text "https://example.org/a" world_second_tier []
  = (Returned long_text,
     [Called (NewspaperText "https://example.org/a") (Returned "Subscribe to read");
      Called (RequestsGet "https://example.org/a" 10)
        (Returned (200, "<html>...</html>"))]).
Proof.
  exact (proj1 (proj2 (proj2 (proj2 (proj2 (proj2 (proj2 (proj2 (proj2
           (extract_main_text_first_accepted world_second_tier
              "https://example.org/a" []))))))))) eq_refl eq_refl).
Defined.

(** A page of which only the rendered DOM holds the article: the third tier
    returns it, stripped, after the three tiers ran in order. *)
Example rendered_tier_run :
  extract_main_text "https://example.org/a" world_third_tier []
  = (Returned long_text,
     [Called (NewspaperText "https://example.org/a") (Returned EmptyString);
      Called (RequestsGet "https://example.org/a" 10) (Returned (403, "Forbidden"));
      Called (ChromeNew TierSession) (Returned tt);
      Called (DriverGet TierSession "https://example.org/a") (Returned tt);
      Slept 3;
      Called (DriverPageSource TierSession) (Returned "<html>rendered</html>");
      Called (DriverQuit TierSession) (Returned tt)]).
Proof. vm_compute. reflexivity. Qed.


(** ** The negative exits of [process_url] *)

(** The probe never raises; it is [False] exactly when one of its browser
    calls raised or the rendered title is empty. *)
Lemma is_url_accessible_run u w h :
  ∃ b, result_of (is_url_accessible u w h) = Returned b
       ∧ forallb probe_entry (emitted (is_url_accessible u w h)) = true
       ∧ (b = false ↔
          existsb raised_entry (emitted (is_url_accessible u w h))
          || existsb empty_title_entry (emitted (is_url_accessible u w h)) = true).
Proof.
  unfold is_url_accessible, bind, try_except, perform, result_of, emitted.
  simpl.
  destruct (respond w unit h (ChromeNew ProbeSession)); simpl;
    [|by exists false].
  destruct (respond w unit _ (DriverGet ProbeSession u)); simpl;
    [|by exists false].
  destruct (respond w string _ (DriverTitle ProbeSession)) as [title|]; simpl;
    [|by exists false].
  destruct (respond w unit _ (DriverQuit ProbeSession)); simpl.
  - exists (truthy title). repeat split; try done.
    + intros ->. done.
    + by destruct (truthy title).
  - exists false. repeat split; try done.
Qed.

(** [process_url] stage by stage. *)
Lemma process_url_run u driver w h :
  process_url u driver w h =
  let probe := is_url_accessible u w h in
  let record := negative_record u (tld_domain w u) in
  let insert_after t :=
    let stored := respond w unit (h ++ t) (DbInsertUrl record) in
    (stored, t ++ [Called (DbInsertUrl record) stored]) in
  match result_of probe with
  | Raised e => (Raised e, emitted probe)
  | Returned false => insert_after (emitted probe)
  | Returned true =>
      let load := fetch_url_with_retries driver u w (h ++ emitted probe) in
      match result_of load with
      | Raised e => (Raised e, emitted probe ++ emitted load)
      | Returned false => insert_after (emitted probe ++ emitted load)
      | Returned true =>
          let extraction :=
            extract_main_text u w (h ++ emitted probe ++ emitted load) in
          let t := emitted probe ++ emitted load ++ emitted extraction in
          match result_of extraction with
          | Raised e => (Raised e, t)
          | Returned text =>
              if truthy text then
                let rest := process_text u (tld_domain w u) text w (h ++ t) in
                (result_of rest, t ++ emitted rest)
              else insert_after t
          end
      end
  end.
Proof.
  cbv zeta. unfold process_url. rewrite bind_run.
  destruct (is_url_accessible u w h) as [[[]|e] t1];
    cbn [negb result_of emitted fst snd]; [| |done].
  - rewrite bind_run. unfold pure_of at 1. rewrite app_nil_r, bind_run.
    destruct (fetch_url_with_retries driver u w (h ++ t1)) as [[[]|e] t2];
      cbn [negb result_of emitted fst snd app]; [| |done].
    + rewrite bind_run, <- app_assoc.
      destruct (extract_main_text u w (h ++ t1 ++ t2)) as [[text|e] t3];
        cbn [negb result_of emitted fst snd app]; [|done].
      destruct (truthy text); cbn [negb].
      * rewrite <- !app_assoc.
        by destruct (process_text _ _ _ _ _).
      * rewrite perform_run, <- !app_assoc. done.
    + rewrite perform_run, <- !app_assoc. done.
  - rewrite bind_run. unfold pure_of at 1. rewrite app_nil_r, perform_run. done.
Qed.

(** C6: when the reachability probe is [False] (a browser call of the probe
    raised, or the title is empty), [process_url] issues, after the probe's
    own browser calls, exactly one more call: the insert of the record with
    [accessible = 0], [actual_incident = -1] and [content = ""].  Nothing is
    extracted, no model is asked and no other row is written. *)
Theorem unreachable_url_short_circuit w u driver h :
  let probe := is_url_accessible u w h in
  result_of probe = Returned false →
  let record := negative_record u (tld_domain w u) in
  let stored := respond w unit (h ++ emitted probe) (DbInsertUrl record) in
  process_url u driver w h
  = (stored, emitted probe ++ [Called (DbInsertUrl record) stored])
  ∧ forallb probe_entry (emitted probe) = true
  ∧ existsb raised_entry (emitted probe)
    || existsb empty_title_entry (emitted probe) = true
  ∧ accessible record = 0 ∧ actual_incident record = -1
  ∧ content record = EmptyString ∧ url record = u.
Proof.
  intros probe Hprobe record stored.
  destruct (is_url_accessible_run u w h) as (b & Hb & Hcalls & Hiff).
  fold probe in Hb, Hcalls, Hiff.
  rewrite Hprobe in Hb. injection Hb as <-.
  repeat split; try done; [|by apply Hiff].
  rewrite process_url_run; cbv zeta. fold probe. by rewrite Hprobe.
Qed.

Lemma unreachable_url_short_circuit_witness :
  process_url "https://example.org/gone" MainSession world_blank_page []
  = (Returned tt,
     [Called (ChromeNew ProbeSession) (Returned tt);
      Called (DriverGet ProbeSession "https://example.org/gone") (Returned tt);
      Called (DriverTitle ProbeSession) (Returned EmptyString);
      Called (DriverQuit ProbeSession) (Returned tt);
      Called (DbInsertUrl
                {| url := "https://example.org/gone"; domain_name := "example";
                   source := "google_search"; content := EmptyString;
                   actual_incident := -1; accessible := 0 |}) (Returned tt)]).
Proof.
  exact (proj1 (unreachable_url_short_circuit world_blank_page
                  "https://example.org/gone" MainSession [] eq_refl)).
Defined.

(** One pass through the loop of [fetch_url_with_retries]. *)
Lemma fetch_loop_cons driver u delay attempt rest w h :
  fetch_loop driver u delay (attempt :: rest) w h =
  let reply := respond w unit h (DriverGet driver u) in
  let got := Called (DriverGet driver u) reply in
  match reply with
  | Returned _ => (Returned true, [got])
  | Raised (TimeoutException _) =>
      let nap := Slept (inject_Z delay) in
      let '(r, t) := fetch_loop driver u delay rest w (h ++ [got; nap]) in
      (r, got :: nap :: t)
  | Raised (WebDriverException _) => (Returned false, [got])
  | Raised e => (Raised e, [got])
  end.
Proof.
  simpl. unfold bind, try_except, perform, sleep. simpl.
  destruct (respond w unit h (DriverGet driver u)) as [[]|e]; simpl; [done|].
  destruct e; simpl; try done. rewrite <- app_assoc; simpl.
  by destruct (fetch_loop _ _ _ _ _ _).
Qed.

(** Three timeouts in a row exhaust the load: three attempts, a sleep of five
    seconds after each, and [False]. *)
Lemma fetch_exhausts_retries w u driver h :
  (∀ h', ∃ msg, respond w unit h' (DriverGet driver u)
                = Raised (TimeoutException msg)) →
  ∃ m1 m2 m3,
    fetch_url_with_retries driver u w h
    = (Returned false,
       [Called (DriverGet driver u) (Raised (TimeoutException m1)); Slept (inject_Z 5);
        Called (DriverGet driver u) (Raised (TimeoutException m2)); Slept (inject_Z 5);
        Called (DriverGet driver u) (Raised (TimeoutException m3)); Slept (inject_Z 5)]).
Proof.
  intros Hw. unfold fetch_url_with_retries.
  change (seqZ 1 3) with [1; 2; 3].
  rewrite fetch_loop_cons; cbv zeta. destruct (Hw h) as [m1 ->].
  rewrite fetch_loop_cons; cbv zeta.
  match goal with |- context [respond w unit ?hh (DriverGet driver u)] =>
    destruct (Hw hh) as [m2 ->] end.
  rewrite fetch_loop_cons; cbv zeta.
  match goal with |- context [respond w unit ?hh (DriverGet driver u)] =>
    destruct (Hw hh) as [m3 ->] end.
  simpl. by exists m1, m2, m3.
Qed.

(** C10: when the probe is [True] but the load fails, or the load succeeds
    and [extract_main_text] returns the empty string, the one record
    [process_url] inserts has [accessible = 0], [content = ""] and
    [actual_incident = -1], and nothing follows the insert. *)
Theorem no_text_recorded_inaccessible w u driver h :
  let probe := is_url_accessible u w h in
  let load := fetch_url_with_retries driver u w (h ++ emitted probe) in
  let extraction := extract_main_text u w (h ++ emitted probe ++ emitted load) in
  let record := negative_record u (tld_domain w u) in
  result_of probe = Returned true →
  (result_of load = Returned false →
     let t := emitted probe ++ emitted load in
     let stored := respond w unit (h ++ t) (DbInsertUrl record) in
     process_url u driver w h = (stored, t ++ [Called (DbInsertUrl record) stored]))
  ∧ (result_of load = Returned true →
     result_of extraction = Returned EmptyString →
     let t := emitted probe ++ emitted load ++ emitted extraction in
     let stored := respond w unit (h ++ t) (DbInsertUrl record) in
     process_url u driver w h = (stored, t ++ [Called (DbInsertUrl record) stored]))
  ∧ accessible record = 0 ∧ actual_incident record = -1
  ∧ content record = EmptyString ∧ url record = u.
Proof.
  intros probe load extraction record Hprobe.
  repeat split; try done.
  - intros Hload t stored. subst t stored.
    rewrite process_url_run; cbv zeta. fold probe. rewrite Hprobe.
    fold load. by rewrite Hload.
  - intros Hload Hext t stored. subst t stored.
    rewrite process_url_run; cbv zeta. fold probe. rewrite Hprobe.
    fold load. rewrite Hload. fold extraction. by rewrite Hext.
Qed.

Lemma no_text_recorded_inaccessible_witness :
  process_url "https://example.org/a" MainSession world_no_text []
  = (Returned tt,
     [Called (ChromeNew ProbeSession) (Returned tt);
      Called (DriverGet ProbeSession "https://example.org/a") (Returned tt);
      Called (DriverTitle ProbeSession) (Returned "Breaking news");
      Called (DriverQuit ProbeSession) (Returned tt);
      Called (DriverGet MainSession "https://example.org/a") (Returned tt);
      Called (NewspaperText "https://example.org/a") (Returned EmptyString);
      Called (RequestsGet "https://example.org/a" 10) (Returned (403, "Forbidden"));
      Called (ChromeNew TierSession) (Returned tt);
      Called (DriverGet TierSession "https://example.org/a") (Returned tt);
      Slept 3;
      Called (DriverPageSource TierSession) (Returned "<html></html>");
      Called (DriverQuit TierSession) (Returned tt);
      Called (DbInsertUrl
                {| url := "https://example.org/a"; domain_name := "example";
                   source := "google_search"; content := EmptyString;
                   actual_incident := -1; accessible := 0 |}) (Returned tt)]).
Proof.
  exact (proj1 (proj2 (no_text_recorded_inaccessible world_no_text
                         "https://example.org/a" MainSession [] eq_refl))
           eq_refl eq_refl).
Defined.

(** The same record after three timeouts of the load. *)
Example load_timeout_run :
  process_url "https://example.org/a" MainSession world_load_timeout []
  = (Returned tt,
     [Called (ChromeNew ProbeSession) (Returned tt);
      Called (DriverGet ProbeSession "https://example.org/a") (Returned tt);
      Called (DriverTitle ProbeSession) (Returned "Breaking news");
      Called (DriverQuit ProbeSession) (Returned tt);
      Called (DriverGet MainSession "https://example.org/a")
        (Raised (TimeoutException "timeout: Timed out receiving message from renderer"));
      Slept (inject_Z 5);
      Called (DriverGet MainSession "https://example.org/a")
        (Raised (TimeoutException "timeout: Timed out receiving message from renderer"));
      Slept (inject_Z 5);
      Called (DriverGet MainSession "https://example.org/a")
        (Raised (TimeoutException "timeout: Timed out receiving message from renderer"));
      Slept (inject_Z 5);
      Called (DbInsertUrl
                {| url := "https://example.org/a"; domain_name := "example";
                   source := "google_search"; content := EmptyString;
                   actual_incident := -1; accessible := 0 |}) (Returned tt)]).
Proof. vm_compute. reflexivity. Qed.

(** ** What a computation can emit *)

Section Always.
Context (P : world → trace → Prop) (HP : closed P).

Lemma always_ret {A} (a : A) : always P (ret a).
Proof. intros w h. apply HP. Qed.

Lemma always_raise {A} (e : exn) : always P (raise (A:=A) e).
Proof. intros w h. apply HP. Qed.

Lemma always_pure_of {A} (f : world → A) : always P (pure_of f).
Proof. intros w h. apply HP. Qed.

Lemma always_lift {A} (f : world → outcome A) : always P (lift f).
Proof. intros w h. apply HP. Qed.

Lemma always_random a b : always P (random_uniform a b).
Proof. intros w h. apply HP. Qed.

Lemma always_perform {X} (c : call X) :
  (∀ w r, P w [Called c r]) → always P (perform c).
Proof. intros H w h. apply H. Qed.

Lemma always_sleep d : (∀ w, P w [Slept d]) → always P (sleep d).
Proof. intros H w h. apply H. Qed.

Lemma always_bind {A B} (m : M A) (k : A → M B) :
  always P m → (∀ a, always P (k a)) → always P (bind m k).
Proof.
  intros Hm Hk w h. unfold emitted. rewrite bind_run.
  specialize (Hm w h). destruct (m w h) as [[a|e] t]; simpl in *; [|done].
  specialize (Hk a w (h ++ t)). destruct (k a w (h ++ t)) as [r t']; simpl in *.
  by apply HP.
Qed.

Lemma always_try {A} (m : M A) (handler : exn → M A) :
  always P m → (∀ e, always P (handler e)) → always P (try_except m handler).
Proof.
  intros Hm Hk w h. unfold emitted. rewrite try_except_run.
  specialize (Hm w h). destruct (m w h) as [[a|e] t]; simpl in *; [done|].
  specialize (Hk e w (h ++ t)).
  destruct (handler e w (h ++ t)) as [r t']; simpl in *.
  by apply HP.
Qed.

Lemma always_for_each {A} (l : list A) (body : A → M unit) :
  (∀ x, always P (body x)) → always P (for_each l body).
Proof.
  intros Hb. induction l as [|x l IH]; simpl.
  - apply always_ret.
  - apply always_bind; [apply Hb|]. intros _. apply IH.
Qed.
End Always.

Lemma all_closed q : closed (λ _, all q).
Proof.
  split; [done|]. intros _ t1 t2 H1 H2. unfold all in *.
  by rewrite forallb_app, H1, H2.
Qed.

Lemma all_app q t1 t2 : all q (t1 ++ t2) ↔ all q t1 ∧ all q t2.
Proof. unfold all. rewrite forallb_app, andb_true_iff. done. Qed.

Lemma all_impl (q q' : entry → bool) t :
  (∀ e, q e = true → q' e = true) → all q t → all q' t.
Proof.
  unfold all. rewrite !forallb_forall. intros Himp H e He. by apply Himp, H.
Qed.

Lemma all_existsb_false (q g : entry → bool) t :
  (∀ e, q e = true → g e = false) → all q t → existsb g t = false.
Proof.
  intros Himp. induction t as [|e t IH]; [done|].
  unfold all; simpl. rewrite andb_true_iff. intros [He Ht].
  by rewrite (Himp e He), IH.
Qed.

(** Breaks the monadic structure of the goal [always P m] apart. *)
Ltac always_step HP :=
  first
    [ apply (always_bind _ HP); [|intros ?]
    | apply (always_try _ HP); [|intros ?]
    | apply (always_ret _ HP)
    | apply (always_raise _ HP)
    | apply (always_pure_of _ HP)
    | apply (always_lift _ HP)
    | apply (always_random _ HP)
    | apply (always_for_each _ HP); intros ?
    | apply always_perform; intros ? ?
    | apply always_sleep; intros ?
    | match goal with
      | |- always _ (match ?x with _ => _ end) => destruct x
      | |- always _ (if ?x then _ else _) => destruct x
      | |- always _ (let '(_, _) := ?x in _) => destruct x
      end ].

Lemma is_url_accessible_acquisition u :
  always (λ _, all acquisition_entry) (is_url_accessible u).
Proof.
  unfold is_url_accessible.
  repeat always_step (all_closed acquisition_entry); done.
Qed.

Lemma fetch_url_with_retries_acquisition driver u :
  always (λ _, all acquisition_entry) (fetch_url_with_retries driver u).
Proof.
  unfold fetch_url_with_retries. generalize (seqZ 1 3).
  intros attempts. induction attempts as [|attempt rest IH]; simpl.
  - apply always_ret, all_closed.
  - repeat always_step (all_closed acquisition_entry); done.
Qed.

Lemma extract_main_text_acquisition u :
  always (λ _, all acquisition_entry) (extract_main_text u).
Proof.
  unfold extract_main_text, extract_with_newspaper, extract_with_readability,
    extract_with_selenium, or_empty.
  repeat always_step (all_closed acquisition_entry); done.
Qed.

Lemma gvr_loop_chat p cls base attempts :
  always (λ _, all (chat_entry p)) (gvr_loop p cls base attempts).
Proof.
  induction attempts as [|attempt rest IH]; simpl.
  - apply always_ret, all_closed.
  - repeat always_step (all_closed (chat_entry p)); try done; try apply IH.
    all: unfold all; simpl; by rewrite String.eqb_refl.
Qed.

Lemma get_validated_response_chat key p cls :
  always (λ _, all (chat_entry p)) (get_validated_response key p cls).
Proof. apply gvr_loop_chat. Qed.

Lemma always_impl {A} (q q' : entry → bool) (m : M A) :
  (∀ e, q e = true → q' e = true) →
  always (λ _, all q) m → always (λ _, all q') m.
Proof. intros Himp Hm w h. by eapply all_impl, Hm. Qed.

(** ** Traces in which one entry must come after another *)

Lemma follows_closed needs : closed (λ _, follows needs).
Proof.
  split.
  - intros _ pre e post g Heq. by destruct pre.
  - intros _ t1 t2 H1 H2 pre e post g Heq Hneeds.
    apply app_eq_app in Heq as [l [[-> Heq]|[-> ->]]].
    + destruct l as [|e' l]; simpl in Heq.
      * subst t2. by specialize (H2 [] e post g eq_refl Hneeds).
      * injection Heq as -> ->. by eapply H1.
    + rewrite existsb_app. erewrite (H2 l e post g); [|done..].
      apply orb_true_r.
Qed.

Lemma follows_free needs t :
  (∀ e, In e t → needs e = None) → follows needs t.
Proof.
  intros Hfree pre e post g -> Hneeds.
  rewrite Hfree in Hneeds; [done|]. apply in_app_iff. right. by left.
Qed.

Lemma guarded_by_free g p t : all (λ e, negb (p e)) t → guarded_by g p t.
Proof.
  unfold all. rewrite forallb_forall. intros Hall.
  apply follows_free. intros e He. specialize (Hall e He).
  by destruct (p e).
Qed.

(** Once the guard has occurred, anything may follow. *)
Lemma guarded_by_after g p t1 t2 :
  guarded_by g p t1 → existsb g t1 = true → guarded_by g p (t1 ++ t2).
Proof.
  intros H1 Hg pre e post g' Heq Hneeds.
  destruct (p e) eqn:Hp; [|done]. injection Hneeds as <-.
  apply app_eq_app in Heq as [l [[-> Heq]|[-> ->]]].
  - destruct l as [|e' l]; simpl in Heq.
    + by rewrite app_nil_r in Hg.
    + injection Heq as -> ->. eapply H1; [done|]. by rewrite Hp.
  - rewrite existsb_app, Hg. done.
Qed.

(** ** Confirmation gating *)

Lemma last_confirmation_app w name acc t1 t2 :
  last_confirmation w name acc (t1 ++ t2)
  = last_confirmation w name (last_confirmation w name acc t1) t2.
Proof. revert acc. induction t1 as [|e t1 IH]; intros acc; simpl; [done|apply IH]. Qed.

Lemma last_confirmation_mono w name acc t :
  last_confirmation w name false t = true →
  last_confirmation w name acc t = true.
Proof.
  revert acc. induction t as [|e t IH] using rev_ind; intros acc; [done|].
  rewrite !last_confirmation_app. simpl.
  destruct (is_llm_complete e); [done|]. apply IH.
Qed.

Lemma last_confirmation_quiet w name acc t :
  all (λ e, negb (is_llm_complete e)) t →
  last_confirmation w name acc t = acc.
Proof.
  revert acc. induction t as [|e t IH]; intros acc; [done|].
  unfold all; simpl. rewrite andb_true_iff. intros [He Ht].
  destruct (is_llm_complete e); [done|]. by apply IH.
Qed.

Lemma gated_closed : closed gated.
Proof.
  split.
  - intros w pre e post name Heq. by destruct pre.
  - intros w t1 t2 H1 H2 pre e post name Heq Hwrite.
    apply app_eq_app in Heq as [l [[-> Heq]|[-> ->]]].
    + destruct l as [|e' l]; simpl in Heq.
      * subst t2. by specialize (H2 [] e post name eq_refl Hwrite).
      * injection Heq as -> ->. by eapply H1.
    + rewrite last_confirmation_app. apply last_confirmation_mono.
      by eapply H2.
Qed.

Lemma gated_free w t : all no_person_write t → gated w t.
Proof.
  unfold all. rewrite forallb_forall. intros Hall pre e post name -> Hwrite.
  specialize (Hall e). unfold no_person_write in Hall. rewrite Hwrite in Hall.
  discriminate Hall. apply in_app_iff. right. by left.
Qed.

(** After a confirmation of [name], entries about [name] are gated. *)
Lemma gated_confirmed w name c t :
  is_llm_complete c = true → confirms w name c = true →
  all (about name) t → gated w (c :: t).
Proof.
  intros Hllm Hconf Hall pre e post name' Heq Hwrite.
  destruct pre as [|c' pre]; simpl in Heq.
  - injection Heq as <- _. destruct c as [X c r|]; [|done].
    destruct c; simpl in *; done.
  - injection Heq as <- ->.
    apply all_app in Hall as [Hpre Hrest].
    unfold all in Hrest; simpl in Hrest. apply andb_true_iff in Hrest as [He _].
    unfold about in He. rewrite Hwrite in He.
    apply andb_true_iff in He as [_ He]. apply String.eqb_eq in He as ->.
    cbn [last_confirmation]. rewrite Hllm, Hconf.
    apply last_confirmation_quiet.
    eapply all_impl, Hpre. intros e'. unfold about. by intros [? _]%andb_true_iff.
Qed.

Lemma confirm_natural_name_run name w h :
  confirm_natural_name name w h
  = let c := Called (LlmComplete (confirm_prompt name))
               (respond w string h (LlmComplete (confirm_prompt name))) in
    (Returned (confirms w name c), [c]).
Proof.
  unfold confirm_natural_name, bind, try_except, perform, lift, ret, confirms,
    validates, says_yes. rewrite String.eqb_refl. simpl.
  destruct (respond w string h (LlmComplete (confirm_prompt name))) as [txt|e];
    simpl; [|done].
  by destruct (model_validate_json w ConfirmResponse txt).
Qed.

Ltac entry_facts :=
  unfold all; simpl; rewrite ?String.eqb_refl; done.

Lemma populate_suspect_forms_table_entries u name :
  always (λ _, all (suspect_form_entry name)) (populate_suspect_forms_table u name).
Proof.
  unfold populate_suspect_forms_table.
  repeat always_step (all_closed (suspect_form_entry name)); entry_facts.
Qed.

Lemma populate_victim_forms_table_entries u name :
  always (λ _, all (victim_form_entry name)) (populate_victim_forms_table u name).
Proof.
  unfold populate_victim_forms_table.
  repeat always_step (all_closed (victim_form_entry name)); entry_facts.
Qed.

(** An insert under [except DatabaseError], then a computation [m]: the
    trace starts with the insert. *)
Lemma insert_then_run (ins : call unit) (m : M unit) q w h :
  always (λ _, all q) m →
  ∃ r t, emitted ((except_database_error (perform ins);; m) w h)
         = Called ins r :: t
         ∧ all q t.
Proof.
  intros Hm. rewrite bind_run. unfold except_database_error.
  rewrite try_except_run, perform_run.
  destruct (respond w unit h ins) as [[]|e].
  - specialize (Hm w (h ++ [Called ins (Returned ())])).
    destruct (m w _) as [r t]. by eexists _, _.
  - destruct e; try by eexists _, [].
    unfold ret. rewrite !app_nil_r.
    specialize (Hm w (h ++ [Called ins (Raised (DatabaseError msg))])).
    destruct (m w _) as [r t]. by eexists _, _.
Qed.

(** The insert of a confirmed suspect and the filling of the form. *)
Lemma suspect_block_run u url_id name w h :
  ∃ r t,
    emitted ((except_database_error (perform (DbInsertSuspect url_id name));;
              try_except (populate_suspect_forms_table u name) (λ _, ret tt)) w h)
    = Called (DbInsertSuspect url_id name) r :: t
    ∧ all (suspect_form_entry name) t.
Proof.
  apply insert_then_run.
  apply (always_try _ (all_closed _)); [|intros; apply always_ret, all_closed].
  apply populate_suspect_forms_table_entries.
Qed.

Lemma victim_block_run u url_id name w h :
  ∃ r t,
    emitted ((except_database_error (perform (DbInsertVictim url_id name));;
              try_except (populate_victim_forms_table u name) (λ _, ret tt)) w h)
    = Called (DbInsertVictim url_id name) r :: t
    ∧ all (victim_form_entry name) t.
Proof.
  apply insert_then_run.
  apply (always_try _ (all_closed _)); [|intros; apply always_ret, all_closed].
  apply populate_victim_forms_table_entries.
Qed.

Lemma suspect_form_entry_about name e :
  suspect_form_entry name e = true → about name e = true.
Proof. destruct e as [X c r|]; [|done]. by destruct c. Qed.

Lemma victim_form_entry_about name e :
  victim_form_entry name e = true → about name e = true.
Proof. destruct e as [X c r|]; [|done]. by destruct c. Qed.

(** A block that starts with the insert of a person and goes on about that
    person is gated once the person is confirmed, and its form insert follows
    the insert of its owner. *)
Lemma gated_block w name c ins t :
  is_llm_complete c = true → confirms w name c = true →
  about name ins = true → all (about name) t → gated w (c :: ins :: t).
Proof.
  intros Hllm Hconf Hins Ht. apply (gated_confirmed w name); [done..|].
  unfold all in *; simpl. by rewrite Hins, Ht.
Qed.

Lemma follows_suspect_block url_id name r t :
  all (suspect_form_entry name) t →
  follows owner_insert (Called (DbInsertSuspect url_id name) r :: t).
Proof.
  intros Ht pre e post g Heq Hneeds.
  destruct pre as [|e' pre]; simpl in Heq; injection Heq as <- ->; [done|].
  simpl. apply all_app in Ht as [_ Ht]. unfold all in Ht; simpl in Ht.
  apply andb_true_iff in Ht as [He _].
  destruct e as [X c r'|]; [|done]. destruct c; simpl in *; try done.
  injection Hneeds as <-. by rewrite String.eqb_sym, He.
Qed.

Lemma follows_victim_block url_id name r t :
  all (victim_form_entry name) t →
  follows owner_insert (Called (DbInsertVictim url_id name) r :: t).
Proof.
  intros Ht pre e post g Heq Hneeds.
  destruct pre as [|e' pre]; simpl in Heq; injection Heq as <- ->; [done|].
  simpl. apply all_app in Ht as [_ Ht]. unfold all in Ht; simpl in Ht.
  apply andb_true_iff in Ht as [He _].
  destruct e as [X c r'|]; [|done]. destruct c; simpl in *; try done.
  injection Hneeds as <-. by rewrite String.eqb_sym, He.
Qed.

Lemma gated_single w e : no_person_write e = true → gated w [e].
Proof. intros He. apply gated_free. unfold all; simpl. by rewrite He. Qed.

Lemma follows_single needs e : needs e = None → follows needs [e].
Proof. intros He. apply follows_free. by intros e' [<-|[]]. Qed.

(** The pause and the rest of the loop after a candidate. *)
Lemma always_pause_then (P : world → trace → Prop) (m : M unit) a b :
  closed P → (∀ w d, P w [Slept d]) → always P m →
  always P (pause ← random_uniform a b; sleep pause;; m).
Proof.
  intros HP Hs Hm. repeat always_step HP; [apply Hs|apply Hm].
Qed.

Lemma suspects_loop_gated u url_id suspects :
  always gated (suspects_loop u url_id suspects).
Proof.
  induction suspects as [|name rest IH]; [apply always_ret, gated_closed|].
  intros w h. cbn [suspects_loop]. unfold emitted.
  rewrite bind_run, confirm_natural_name_run; cbv zeta.
  set (c := Called (LlmComplete _) _).
  pose proof (always_pause_then gated (suspects_loop u url_id rest) 1 3
                gated_closed (λ w d, gated_single w (Slept d) eq_refl) IH) as Htail.
  destruct (confirms w name c) eqn:Hc; rewrite bind_run.
  - destruct (suspect_block_run u url_id name w (h ++ [c])) as (r & t & Heq & Ht).
    destruct (bind (except_database_error _) _ w (h ++ [c])) as [[[]|e] tb];
      simpl in Heq; subst tb; simpl.
    + specialize (Htail w ((h ++ [c]) ++ Called (DbInsertSuspect url_id name) r :: t)).
      destruct (bind (random_uniform 1 3) _ w _) as [r' tk]; simpl in Htail |- *.
      change (gated w ((c :: Called (DbInsertSuspect url_id name) r :: t) ++ tk)).
      apply gated_closed; [|done].
      apply (gated_block w name); [done|done|by (unfold about; simpl; rewrite String.eqb_refl)|].
      eapply all_impl, Ht. apply suspect_form_entry_about.
    + apply (gated_block w name); [done|done|by (unfold about; simpl; rewrite String.eqb_refl)|].
      eapply all_impl, Ht. apply suspect_form_entry_about.
  - unfold ret at 1. rewrite app_nil_r.
    specialize (Htail w (h ++ [c])).
    destruct (bind (random_uniform 1 3) _ w _) as [r' tk]; simpl in Htail |- *.
    change (gated w ([c] ++ tk)). apply gated_closed; [|done].
    by apply gated_single.
Qed.

Lemma victims_loop_gated u url_id victims :
  always gated (victims_loop u url_id victims).
Proof.
  induction victims as [|name rest IH]; [apply always_ret, gated_closed|].
  intros w h. cbn [victims_loop]. unfold emitted.
  rewrite bind_run, confirm_natural_name_run; cbv zeta.
  set (c := Called (LlmComplete _) _).
  destruct (confirms w name c) eqn:Hc; rewrite bind_run.
  - destruct (victim_block_run u url_id name w (h ++ [c])) as (r & t & Heq & Ht).
    destruct (bind (except_database_error _) _ w (h ++ [c])) as [[[]|e] tb];
      simpl in Heq; subst tb; simpl.
    + specialize (IH w ((h ++ [c]) ++ Called (DbInsertVictim url_id name) r :: t)).
      destruct (victims_loop u url_id rest w _) as [r' tk]; simpl in IH |- *.
      change (gated w ((c :: Called (DbInsertVictim url_id name) r :: t) ++ tk)).
      apply gated_closed; [|done].
      apply (gated_block w name); [done|done|by (unfold about; simpl; rewrite String.eqb_refl)|].
      eapply all_impl, Ht. apply victim_form_entry_about.
    + apply (gated_block w name); [done|done|by (unfold about; simpl; rewrite String.eqb_refl)|].
      eapply all_impl, Ht. apply victim_form_entry_about.
  - unfold ret at 1. rewrite app_nil_r.
    specialize (IH w (h ++ [c])).
    destruct (victims_loop u url_id rest w _) as [r' tk]; simpl in IH |- *.
    change (gated w ([c] ++ tk)). apply gated_closed; [|done].
    by apply gated_single.
Qed.

Lemma suspects_loop_follows u url_id suspects :
  always (λ _, follows owner_insert) (suspects_loop u url_id suspects).
Proof.
  induction suspects as [|name rest IH]; [apply always_ret, follows_closed|].
  intros w h. cbn [suspects_loop]. unfold emitted.
  rewrite bind_run, confirm_natural_name_run; cbv zeta.
  set (c := Called (LlmComplete _) _).
  pose proof (always_pause_then (λ _, follows owner_insert)
                (suspects_loop u url_id rest) 1 3
                (follows_closed _) (λ w d, follows_single _ (Slept d) eq_refl) IH)
    as Htail.
  destruct (confirms w name c) eqn:Hc; rewrite bind_run.
  - destruct (suspect_block_run u url_id name w (h ++ [c])) as (r & t & Heq & Ht).
    destruct (bind (except_database_error _) _ w (h ++ [c])) as [[[]|e] tb];
      simpl in Heq; subst tb; simpl.
    + specialize (Htail w ((h ++ [c]) ++ Called (DbInsertSuspect url_id name) r :: t)).
      destruct (bind (random_uniform 1 3) _ w _) as [r' tk]; simpl in Htail |- *.
      change (follows owner_insert
                ([c] ++ (Called (DbInsertSuspect url_id name) r :: t) ++ tk)).
      apply (follows_closed owner_insert); [exact w|by apply follows_single|].
      apply (follows_closed owner_insert); [exact w| |done].
      by apply follows_suspect_block.
    + change (follows owner_insert
                ([c] ++ (Called (DbInsertSuspect url_id name) r :: t))).
      apply (follows_closed owner_insert); [exact w|by apply follows_single|].
      by apply follows_suspect_block.
  - unfold ret at 1. rewrite app_nil_r.
    specialize (Htail w (h ++ [c])).
    destruct (bind (random_uniform 1 3) _ w _) as [r' tk]; simpl in Htail |- *.
    change (follows owner_insert ([c] ++ tk)).
    apply (follows_closed owner_insert); [exact w|by apply follows_single|done].
Qed.

Lemma victims_loop_follows u url_id victims :
  always (λ _, follows owner_insert) (victims_loop u url_id victims).
Proof.
  induction victims as [|name rest IH]; [apply always_ret, follows_closed|].
  intros w h. cbn [victims_loop]. unfold emitted.
  rewrite bind_run, confirm_natural_name_run; cbv zeta.
  set (c := Called (LlmComplete _) _).
  destruct (confirms w name c) eqn:Hc; rewrite bind_run.
  - destruct (victim_block_run u url_id name w (h ++ [c])) as (r & t & Heq & Ht).
    destruct (bind (except_database_error _) _ w (h ++ [c])) as [[[]|e] tb];
      simpl in Heq; subst tb; simpl.
    + specialize (IH w ((h ++ [c]) ++ Called (DbInsertVictim url_id name) r :: t)).
      destruct (victims_loop u url_id rest w _) as [r' tk]; simpl in IH |- *.
      change (follows owner_insert
                ([c] ++ (Called (DbInsertVictim url_id name) r :: t) ++ tk)).
      apply (follows_closed owner_insert); [exact w|by apply follows_single|].
      apply (follows_closed owner_insert); [exact w| |done].
      by apply follows_victim_block.
    + change (follows owner_insert
                ([c] ++ (Called (DbInsertVictim url_id name) r :: t))).
      apply (follows_closed owner_insert); [exact w|by apply follows_single|].
      by apply follows_victim_block.
  - unfold ret at 1. rewrite app_nil_r.
    specialize (IH w (h ++ [c])).
    destruct (victims_loop u url_id rest w _) as [r' tk]; simpl in IH |- *.
    change (follows owner_insert ([c] ++ tk)).
    apply (follows_closed owner_insert); [exact w|by apply follows_single|done].
Qed.

Lemma always_gated_of_all {A} (q : entry → bool) (m : M A) :
  (∀ e, q e = true → no_person_write e = true) →
  always (λ _, all q) m → always gated m.
Proof. intros Himp Hm w h. apply gated_free. by eapply all_impl, Hm. Qed.

Lemma always_follows_of_all {A} (q : entry → bool) (m : M A) :
  (∀ e, q e = true → no_form_insert e = true) →
  always (λ _, all q) m → always (λ _, follows owner_insert) m.
Proof.
  intros Himp Hm w h. apply follows_free. intros e He.
  specialize (Hm w h). unfold all in Hm. rewrite forallb_forall in Hm.
  specialize (Himp e (Hm e He)). unfold no_form_insert in Himp.
  by destruct (owner_insert e).
Qed.

Lemma chat_entry_no_person_write p e :
  chat_entry p e = true → no_person_write e = true.
Proof. destruct e as [X c r|]; [|done]. by destruct c. Qed.

Lemma chat_entry_no_form_insert p e :
  chat_entry p e = true → no_form_insert e = true.
Proof. destruct e as [X c r|]; [|done]. by destruct c. Qed.

Lemma acquisition_no_person_write e :
  acquisition_entry e = true → no_person_write e = true.
Proof. destruct e as [X c r|]; [|done]. by destruct c. Qed.

Lemma acquisition_no_form_insert e :
  acquisition_entry e = true → no_form_insert e = true.
Proof. destruct e as [X c r|]; [|done]. by destruct c. Qed.

(** Breaks [always P m] apart, trying [leaf] on each piece first. *)
Ltac always_with HP leaf := repeat first [ solve [leaf] | always_step HP ].

Lemma gvr_gated key p cls : always gated (get_validated_response key p cls).
Proof.
  eapply always_gated_of_all;
    [apply chat_entry_no_person_write|apply get_validated_response_chat].
Qed.

Lemma gvr_follows key p cls :
  always (λ _, follows owner_insert) (get_validated_response key p cls).
Proof.
  eapply always_follows_of_all;
    [apply chat_entry_no_form_insert|apply get_validated_response_chat].
Qed.

Lemma upload_suspects_gated u : always gated (upload_suspects u).
Proof.
  unfold upload_suspects.
  always_with gated_closed
    ltac:(first [ by apply gated_single | apply suspects_loop_gated
                | apply gvr_gated ]).
Qed.

Lemma upload_victims_gated u : always gated (upload_victims u).
Proof.
  unfold upload_victims.
  always_with gated_closed
    ltac:(first [ by apply gated_single | apply victims_loop_gated
                | apply gvr_gated ]).
Qed.

Lemma upload_suspects_follows u :
  always (λ _, follows owner_insert) (upload_suspects u).
Proof.
  unfold upload_suspects.
  always_with (follows_closed owner_insert)
    ltac:(first [ by apply follows_single | apply suspects_loop_follows
                | apply gvr_follows ]).
Qed.

Lemma upload_victims_follows u :
  always (λ _, follows owner_insert) (upload_victims u).
Proof.
  unfold upload_victims.
  always_with (follows_closed owner_insert)
    ltac:(first [ by apply follows_single | apply victims_loop_follows
                | apply gvr_follows ]).
Qed.

Lemma verify_incident_entries u :
  always (λ _, all (verify_entry u)) (verify_incident u).
Proof.
  unfold verify_incident.
  always_with (all_closed (verify_entry u))
    ltac:(first
            [ entry_facts
            | eapply always_impl; [|apply get_validated_response_chat];
              intros e; destruct e as [X c r|]; [|done]; by destruct c ]).
Qed.

Lemma verify_entry_no_person_write u e :
  verify_entry u e = true → no_person_write e = true.
Proof. destruct e as [X c r|]; [|done]. by destruct c. Qed.

Lemma acquisition_gated {A} (m : M A) :
  always (λ _, all acquisition_entry) m → always gated m.
Proof. apply always_gated_of_all, acquisition_no_person_write. Qed.

Lemma process_url_gated u driver : always gated (process_url u driver).
Proof.
  unfold process_url, process_text.
  always_with gated_closed
    ltac:(first
            [ by apply gated_single
            | apply upload_suspects_gated
            | apply upload_victims_gated
            | apply acquisition_gated, is_url_accessible_acquisition
            | apply acquisition_gated, fetch_url_with_retries_acquisition
            | apply acquisition_gated, extract_main_text_acquisition
            | eapply always_gated_of_all;
                [apply (verify_entry_no_person_write u)
                |apply verify_incident_entries] ]).
Qed.

(** A candidate whose confirmation is not a yes leaves, in the suspects
    loop, its confirmation query and the pause. *)
Lemma refused_suspect_skipped u url_id name rest w h :
  let c := Called (LlmComplete (confirm_prompt name))
             (respond w string h (LlmComplete (confirm_prompt name))) in
  confirms w name c = false →
  suspects_loop u url_id (name :: rest) w h
  = let nap := Slept (uniform w (h ++ [c]) 1 3) in
    let '(r, t) := suspects_loop u url_id rest w (h ++ [c; nap]) in
    (r, c :: nap :: t).
Proof.
  intros c Hc. cbn [suspects_loop].
  rewrite bind_run, confirm_natural_name_run; cbv zeta. fold c. rewrite Hc.
  unfold bind, ret, random_uniform, sleep. simpl.
  rewrite !app_nil_r, <- app_assoc. simpl.
  by destruct (suspects_loop u url_id rest w _).
Qed.

(** In the victims loop it leaves its confirmation query only. *)
Lemma refused_victim_skipped u url_id name rest w h :
  let c := Called (LlmComplete (confirm_prompt name))
             (respond w string h (LlmComplete (confirm_prompt name))) in
  confirms w name c = false →
  victims_loop u url_id (name :: rest) w h
  = let '(r, t) := victims_loop u url_id rest w (h ++ [c]) in (r, c :: t).
Proof.
  intros c Hc. cbn [victims_loop].
  rewrite bind_run, confirm_natural_name_run; cbv zeta. fold c. rewrite Hc.
  unfold bind, ret. simpl. rewrite !app_nil_r.
  by destruct (victims_loop u url_id rest w _).
Qed.

(** C2: the confirmation of a name is [True] only when the single
    confirmation query was answered and the answer validates to yes; a
    candidate that is not confirmed leaves no call but that query (and the
    pause) in the loop; and in every run of [upload_suspects],
    [upload_victims] and [process_url] each insert of a suspect, a victim or
    a form comes after a confirmation query for that very name that was
    answered yes, with no other confirmation query in between. *)
Theorem unconfirmed_name_never_persisted w u h :
  (∀ name,
     let c := Called (LlmComplete (confirm_prompt name))
                (respond w string h (LlmComplete (confirm_prompt name))) in
     confirm_natural_name name w h = (Returned (confirms w name c), [c])
     ∧ ∀ url_id rest,
         confirms w name c = false →
         suspects_loop u url_id (name :: rest) w h
         = (let nap := Slept (uniform w (h ++ [c]) 1 3) in
            let '(r, t) := suspects_loop u url_id rest w (h ++ [c; nap]) in
            (r, c :: nap :: t))
         ∧ victims_loop u url_id (name :: rest) w h
           = (let '(r, t) := victims_loop u url_id rest w (h ++ [c]) in
              (r, c :: t)))
  ∧ gated w (emitted (upload_suspects u w h))
  ∧ gated w (emitted (upload_victims u w h))
  ∧ ∀ driver, gated w (emitted (process_url u driver w h)).
Proof.
  repeat split.
  - apply confirm_natural_name_run.
  - by apply refused_suspect_skipped.
  - by apply refused_victim_skipped.
  - apply upload_suspects_gated.
  - apply upload_victims_gated.
  - intros driver. apply process_url_gated.
Qed.

(** Of two candidates the confirmed one alone is written: its row and its
    form. *)
Example confirmed_candidate_alone_is_written :
  omap person_write
    (emitted (upload_suspects "https://example.org/a" world_two_candidates []))
  = ["John Doe"; "John Doe"]
  ∧ chat_attempts
      (emitted (upload_suspects "https://example.org/a" world_two_candidates []))
    = 2%nat.
Proof. split; vm_compute; reflexivity. Qed.

(** ** The shape of a run *)

(** The loop never raises, and data it returns were validated from a reply
    to the prompt. *)
Lemma gvr_loop_result p cls base attempts w h :
  match result_of (gvr_loop p cls base attempts w h) with
  | Returned (Some data) =>
      ∀ pred, pred data = true →
              existsb (chat_reply w cls p pred)
                (emitted (gvr_loop p cls base attempts w h)) = true
  | Returned None => True
  | Raised _ => False
  end.
Proof.
  revert h. induction attempts as [|attempt rest IH]; intros h; [done|].
  rewrite gvr_loop_cons; cbv zeta.
  assert (Hrec : ∀ h' pre,
            match result_of (let '(r, t) := gvr_loop p cls base rest w h' in
                             (r, pre ++ t)) with
            | Returned (Some data) =>
                ∀ pred, pred data = true →
                  existsb (chat_reply w cls p pred)
                    (emitted (let '(r, t) := gvr_loop p cls base rest w h' in
                              (r, pre ++ t))) = true
            | Returned None => True
            | Raised _ => False
            end).
  { intros h' pre. specialize (IH h').
    destruct (gvr_loop p cls base rest w h') as [[[data|]|e'] t]; simpl in *;
      try done.
    intros pred Hpred. rewrite existsb_app, (IH pred Hpred). apply orb_true_r. }
  destruct (attempt_outcome w cls (respond w string h (Chat p))) as [data|e] eqn:Hv.
  - simpl. intros pred Hpred. rewrite String.eqb_refl. simpl.
    unfold attempt_outcome in Hv. unfold validates.
    destruct (respond w string h (Chat p)); [|done]. by rewrite Hv, Hpred.
  - destruct (is_terminal e); [done|].
    destruct (is_request_error e).
    + apply (Hrec _ [_]).
    + apply (Hrec _ [_; _]).
Qed.

(** What [verify_incident] returns against what it did. *)
Lemma verify_incident_verdict u w h :
  match result_of (verify_incident u w h) with
  | Raised _ => existsb incident_query (emitted (verify_incident u w h)) = false
  | Returned (status, incidents) =>
      verdict w u status (emitted (verify_incident u w h))
      ∧ (status ≠ 1 → incidents = [])
  end.
Proof.
  unfold verify_incident. rewrite bind_run, perform_run.
  destruct (respond w unit h DbConnect) as [[]|e]; [|done].
  rewrite try_except_run, bind_run. unfold get_validated_response.
  set (h1 := h ++ _).
  pose proof (gvr_loop_result SHORT_PROMPTS.incident_prompt IncidentResponse 5
                (seqZ 0 5) w h1) as Hg.
  destruct (gvr_loop _ _ _ _ w h1) as [[[data|]|e] tg]; simpl in Hg; [| |done].
  - specialize (Hg says_yes).
    destruct (String.eqb (lower (answer data)) "no") eqn:Hno.
    + rewrite bind_run, perform_run.
      destruct (respond w unit _ (DbUpdateField u "actual_incident" 0)); simpl;
        unfold verdict; split; auto; done.
    + destruct (String.eqb (lower (answer data)) "yes") eqn:Hyes.
      * rewrite bind_run, perform_run.
        destruct (respond w unit _ (DbUpdateField u "actual_incident" 1)); simpl.
        -- split; [|done]. left. split; [done|].
           cbn [existsb]. rewrite !existsb_app. unfold answered_yes.
           rewrite (Hg Hyes). simpl. rewrite !String.eqb_refl.
           split; [apply orb_true_r|done].
        -- unfold verdict. split; auto.
      * simpl. unfold verdict. split; auto.
  - simpl. unfold verdict. split; auto.
Qed.

Lemma for_each_incidents_staged url_id incidents :
  always (λ _, all (staged 1))
    (for_each incidents (λ incident, perform (DbInsertIncident url_id incident))).
Proof. always_with (all_closed (staged 1)) ltac:(entry_facts). Qed.

Lemma gvr_staged k key p cls :
  always (λ _, all (staged k)) (get_validated_response key p cls).
Proof.
  eapply always_impl; [|apply get_validated_response_chat].
  intros e. destruct e as [X c r|]; [|done]. by destruct c.
Qed.

Lemma suspects_loop_staged u url_id suspects :
  always (λ _, all (staged 2)) (suspects_loop u url_id suspects).
Proof.
  induction suspects as [|name rest IH]; [apply always_ret, all_closed|].
  cbn [suspects_loop].
  unfold confirm_natural_name, except_database_error,
    populate_suspect_forms_table.
  always_with (all_closed (staged 2)) ltac:(first [entry_facts|apply IH]).
Qed.

Lemma victims_loop_staged u url_id victims :
  always (λ _, all (staged 3)) (victims_loop u url_id victims).
Proof.
  induction victims as [|name rest IH]; [apply always_ret, all_closed|].
  cbn [victims_loop].
  unfold confirm_natural_name, except_database_error,
    populate_victim_forms_table.
  always_with (all_closed (staged 3)) ltac:(first [entry_facts|apply IH]).
Qed.

(** *** The order of the row inserts within the entity calls *)

Lemma rows_app t1 t2 : rows (t1 ++ t2) = rows t1 ++ rows t2.
Proof. apply omap_app. Qed.

Lemma rows_none (q : entry → bool) t :
  (∀ e, q e = true → row_of e = None) → all q t → rows t = [].
Proof.
  intros Hq. induction t as [|e t IH]; [done|].
  unfold all; simpl. rewrite andb_true_iff. intros [He Ht].
  unfold rows in *. simpl. rewrite (Hq e He). by apply IH.
Qed.

Lemma run_rows_app p rs1 rs2 :
  run_rows p (rs1 ++ rs2)
  = match run_rows p rs1 with
    | Some p' => run_rows p' rs2
    | None => None
    end.
Proof.
  revert p. induction rs1 as [|r rs1 IH]; intros p; [done|].
  simpl. by destruct (next_phase p r).
Qed.

Lemma keeps_closed ok : closed (λ _, keeps ok).
Proof.
  split; [intros _ p Hp; by exists p|].
  intros _ t1 t2 H1 H2 p Hp. destruct (H1 p Hp) as (p1 & Hrun1 & Hp1).
  destruct (H2 p1 Hp1) as (p2 & Hrun2 & Hp2). exists p2.
  by rewrite rows_app, run_rows_app, Hrun1.
Qed.

Lemma keeps_free ok t : rows t = [] → keeps ok t.
Proof. intros Ht p Hp. exists p. by rewrite Ht. Qed.

Lemma keeps_single ok e : row_of e = None → keeps ok [e].
Proof. intros He. apply keeps_free. unfold rows; simpl. by rewrite He. Qed.

Lemma always_keeps_of_all {A} ok (q : entry → bool) (m : M A) :
  (∀ e, q e = true → row_of e = None) →
  always (λ _, all q) m → always (λ _, keeps ok) m.
Proof. intros Hq Hm w h. eapply keeps_free, rows_none, Hm. exact Hq. Qed.

Lemma chat_entry_no_row p e : chat_entry p e = true → row_of e = None.
Proof. destruct e as [X c r|]; [|done]. by destruct c. Qed.

Lemma gvr_keeps ok key p cls :
  always (λ _, keeps ok) (get_validated_response key p cls).
Proof.
  eapply always_keeps_of_all; [apply (chat_entry_no_row p)|].
  apply get_validated_response_chat.
Qed.

(** Filling a form inserts at most one row, the form of [name]. *)
Lemma populate_suspect_forms_table_rows u name w h :
  let t := emitted (populate_suspect_forms_table u name w h) in
  rows t = [] ∨ rows t = [RSuspectForm name].
Proof.
  cbv zeta. remember (populate_suspect_forms_table u name w h) as run eqn:Hrun.
  unfold populate_suspect_forms_table in Hrun.
  rewrite bind_run, perform_run in Hrun.
  destruct (respond w unit h DbConnect) as [[]|e]; [|subst run; by left].
  rewrite try_except_run, bind_run, perform_run in Hrun.
  destruct (respond w string _ (Chat _)) as [reply|]; [|subst run; by left].
  rewrite bind_run in Hrun. unfold lift at 1 in Hrun.
  destruct (form_validate w SuspectFormResponse name reply) as [fields|];
    [|subst run; by left].
  rewrite bind_run, perform_run in Hrun.
  destruct (respond w (option Z) _ (DbGetUrlId u)) as [url_id|];
    [|subst run; by left].
  rewrite bind_run, perform_run in Hrun.
  destruct (respond w (option Z) _ (DbGetSuspectId url_id name))
    as [suspect_id|]; [|subst run; by left].
  destruct url_id as [id|]; [|subst run; by left].
  rewrite perform_run in Hrun.
  destruct (respond w unit _ (DbInsertSuspectForm _ _ _)) as [[]|e'];
    subst run; by right.
Qed.

Lemma populate_victim_forms_table_rows u name w h :
  let t := emitted (populate_victim_forms_table u name w h) in
  rows t = [] ∨ rows t = [RVictimForm name].
Proof.
  cbv zeta. remember (populate_victim_forms_table u name w h) as run eqn:Hrun.
  unfold populate_victim_forms_table in Hrun.
  rewrite bind_run, perform_run in Hrun.
  destruct (respond w unit h DbConnect) as [[]|e]; [|subst run; by left].
  rewrite try_except_run, bind_run, perform_run in Hrun.
  destruct (respond w string _ (Chat _)) as [reply|]; [|subst run; by left].
  rewrite bind_run in Hrun. unfold lift at 1 in Hrun.
  destruct (form_validate w VictimFormResponse name reply) as [fields|];
    [|subst run; by left].
  rewrite bind_run, perform_run in Hrun.
  destruct (respond w (option Z) _ (DbGetUrlId u)) as [url_id|];
    [|subst run; by left].
  rewrite bind_run, perform_run in Hrun.
  destruct (respond w (option Z) _ (DbGetVictimId url_id name))
    as [victim_id|]; [|subst run; by left].
  destruct url_id as [id|]; [|subst run; by left].
  rewrite perform_run in Hrun.
  destruct (respond w unit _ (DbInsertVictimForm _ _ _)) as [[]|e'];
    subst run; by right.
Qed.

(** The insert of a person, then a computation of which every trace has
    [P]. *)
Lemma insert_then_trace (ins : call unit) (m : M unit) (P : trace → Prop) w h :
  P [] → (∀ w h, P (emitted (m w h))) →
  ∃ r t, emitted ((except_database_error (perform ins);; m) w h)
         = Called ins r :: t
         ∧ P t.
Proof.
  intros Hnil Hm. rewrite bind_run. unfold except_database_error.
  rewrite try_except_run, perform_run.
  destruct (respond w unit h ins) as [[]|e].
  - specialize (Hm w (h ++ [Called ins (Returned ())])).
    destruct (m w _) as [r t]. by eexists _, _.
  - destruct e; try by eexists _, [].
    unfold ret. rewrite !app_nil_r.
    specialize (Hm w (h ++ [Called ins (Raised (DatabaseError msg))])).
    destruct (m w _) as [r t]. by eexists _, _.
Qed.

Lemma suspect_block_rows u url_id name w h :
  ∃ r t,
    emitted ((except_database_error (perform (DbInsertSuspect url_id name));;
              try_except (populate_suspect_forms_table u name) (λ _, ret tt)) w h)
    = Called (DbInsertSuspect url_id name) r :: t
    ∧ (rows t = [] ∨ rows t = [RSuspectForm name]).
Proof.
  apply (insert_then_trace _ _ (λ t, rows t = [] ∨ rows t = [RSuspectForm name]));
    [by left|].
  intros w' h'. unfold emitted. rewrite try_except_run.
  pose proof (populate_suspect_forms_table_rows u name w' h') as Hrows.
  cbv zeta in Hrows. unfold emitted in Hrows.
  destruct (populate_suspect_forms_table u name w' h') as [[[]|e] t]; [done|].
  unfold ret. simpl in *. by rewrite app_nil_r.
Qed.

Lemma victim_block_rows u url_id name w h :
  ∃ r t,
    emitted ((except_database_error (perform (DbInsertVictim url_id name));;
              try_except (populate_victim_forms_table u name) (λ _, ret tt)) w h)
    = Called (DbInsertVictim url_id name) r :: t
    ∧ (rows t = [] ∨ rows t = [RVictimForm name]).
Proof.
  apply (insert_then_trace _ _ (λ t, rows t = [] ∨ rows t = [RVictimForm name]));
    [by left|].
  intros w' h'. unfold emitted. rewrite try_except_run.
  pose proof (populate_victim_forms_table_rows u name w' h') as Hrows.
  cbv zeta in Hrows. unfold emitted in Hrows.
  destruct (populate_victim_forms_table u name w' h') as [[[]|e] t]; [done|].
  unfold ret. simpl in *. by rewrite app_nil_r.
Qed.

Lemma keeps_suspect_block url_id name r t :
  rows t = [] ∨ rows t = [RSuspectForm name] →
  keeps among_suspects (Called (DbInsertSuspect url_id name) r :: t).
Proof.
  intros Ht p Hp.
  change (rows (Called (DbInsertSuspect url_id name) r :: t))
    with (RSuspect name :: rows t).
  destruct Ht as [-> | ->]; destruct p; try done; simpl;
    rewrite ?String.eqb_refl; by eexists.
Qed.

Lemma keeps_victim_block url_id name r t :
  rows t = [] ∨ rows t = [RVictimForm name] →
  keeps among_victims (Called (DbInsertVictim url_id name) r :: t).
Proof.
  intros Ht p Hp.
  change (rows (Called (DbInsertVictim url_id name) r :: t))
    with (RVictim name :: rows t).
  destruct Ht as [-> | ->]; destruct p; try done; simpl;
    rewrite ?String.eqb_refl; by eexists.
Qed.

Lemma suspects_loop_keeps u url_id suspects :
  always (λ _, keeps among_suspects) (suspects_loop u url_id suspects).
Proof.
  induction suspects as [|name rest IH]; [apply always_ret, keeps_closed|].
  intros w h. cbn [suspects_loop]. unfold emitted.
  rewrite bind_run, confirm_natural_name_run; cbv zeta.
  set (c := Called (LlmComplete _) _).
  pose proof (always_pause_then (λ _, keeps among_suspects)
                (suspects_loop u url_id rest) 1 3
                (keeps_closed _) (λ w d, keeps_single _ (Slept d) eq_refl) IH)
    as Htail.
  destruct (confirms w name c) eqn:Hc; rewrite bind_run.
  - destruct (suspect_block_rows u url_id name w (h ++ [c])) as (r & t & Heq & Ht).
    destruct (bind (except_database_error _) _ w (h ++ [c])) as [[[]|e] tb];
      simpl in Heq; subst tb; simpl.
    + specialize (Htail w ((h ++ [c]) ++ Called (DbInsertSuspect url_id name) r :: t)).
      destruct (bind (random_uniform 1 3) _ w _) as [r' tk]; simpl in Htail |- *.
      change (keeps among_suspects
                ([c] ++ (Called (DbInsertSuspect url_id name) r :: t) ++ tk)).
      apply (keeps_closed among_suspects); [exact w|by apply keeps_single|].
      apply (keeps_closed among_suspects); [exact w| |done].
      by apply keeps_suspect_block.
    + change (keeps among_suspects
                ([c] ++ (Called (DbInsertSuspect url_id name) r :: t))).
      apply (keeps_closed among_suspects); [exact w|by apply keeps_single|].
      by apply keeps_suspect_block.
  - unfold ret at 1. rewrite app_nil_r.
    specialize (Htail w (h ++ [c])).
    destruct (bind (random_uniform 1 3) _ w _) as [r' tk]; simpl in Htail |- *.
    change (keeps among_suspects ([c] ++ tk)).
    apply (keeps_closed among_suspects); [exact w|by apply keeps_single|done].
Qed.

Lemma victims_loop_keeps u url_id victims :
  always (λ _, keeps among_victims) (victims_loop u url_id victims).
Proof.
  induction victims as [|name rest IH]; [apply always_ret, keeps_closed|].
  intros w h. cbn [victims_loop]. unfold emitted.
  rewrite bind_run, confirm_natural_name_run; cbv zeta.
  set (c := Called (LlmComplete _) _).
  destruct (confirms w name c) eqn:Hc; rewrite bind_run.
  - destruct (victim_block_rows u url_id name w (h ++ [c])) as (r & t & Heq & Ht).
    destruct (bind (except_database_error _) _ w (h ++ [c])) as [[[]|e] tb];
      simpl in Heq; subst tb; simpl.
    + specialize (IH w ((h ++ [c]) ++ Called (DbInsertVictim url_id name) r :: t)).
      destruct (victims_loop u url_id rest w _) as [r' tk]; simpl in IH |- *.
      change (keeps among_victims
                ([c] ++ (Called (DbInsertVictim url_id name) r :: t) ++ tk)).
      apply (keeps_closed among_victims); [exact w|by apply keeps_single|].
      apply (keeps_closed among_victims); [exact w| |done].
      by apply keeps_victim_block.
    + change (keeps among_victims
                ([c] ++ (Called (DbInsertVictim url_id name) r :: t))).
      apply (keeps_closed among_victims); [exact w|by apply keeps_single|].
      by apply keeps_victim_block.
  - unfold ret at 1. rewrite app_nil_r.
    specialize (IH w (h ++ [c])).
    destruct (victims_loop u url_id rest w _) as [r' tk]; simpl in IH |- *.
    change (keeps among_victims ([c] ++ tk)).
    apply (keeps_closed among_victims); [exact w|by apply keeps_single|done].
Qed.

Lemma upload_suspects_keeps u :
  always (λ _, keeps among_suspects) (upload_suspects u).
Proof.
  unfold upload_suspects.
  always_with (keeps_closed among_suspects)
    ltac:(first [by apply keeps_single|apply gvr_keeps|apply suspects_loop_keeps]).
Qed.

Lemma upload_victims_keeps u :
  always (λ _, keeps among_victims) (upload_victims u).
Proof.
  unfold upload_victims.
  always_with (keeps_closed among_victims)
    ltac:(first [by apply keeps_single|apply gvr_keeps|apply victims_loop_keeps]).
Qed.

Lemma for_each_incidents_keeps url_id incidents :
  always (λ _, keeps among_incidents)
    (for_each incidents (λ incident, perform (DbInsertIncident url_id incident))).
Proof.
  always_with (keeps_closed among_incidents)
    ltac:(intros p Hp; destruct p; try done; by exists Incidents).
Qed.

Lemma upload_suspects_staged u : always (λ _, all (staged 2)) (upload_suspects u).
Proof.
  unfold upload_suspects.
  always_with (all_closed (staged 2))
    ltac:(first [entry_facts|apply gvr_staged|apply suspects_loop_staged]).
Qed.

Lemma upload_victims_staged u : always (λ _, all (staged 3)) (upload_victims u).
Proof.
  unfold upload_victims.
  always_with (all_closed (staged 3))
    ltac:(first [entry_facts|apply gvr_staged|apply victims_loop_staged]).
Qed.

(** The calls made for a confirmed incident. *)
Lemma entity_children_run u url_id incidents w h :
  entity_children
    (emitted ((for_each incidents
                 (λ incident, perform (DbInsertIncident url_id incident));;
               upload_suspects u;; upload_victims u) w h)).
Proof.
  unfold emitted. rewrite bind_run.
  pose proof (for_each_incidents_staged url_id incidents w h) as Hi.
  pose proof (for_each_incidents_keeps url_id incidents w h) as Hik.
  destruct (for_each incidents _ w h) as [[[]|e] ci]; simpl in Hi, Hik.
  - rewrite bind_run.
    pose proof (upload_suspects_staged u w (h ++ ci)) as Hs.
    pose proof (upload_suspects_follows u w (h ++ ci)) as Hsf.
    pose proof (upload_suspects_keeps u w (h ++ ci)) as Hsk.
    destruct (upload_suspects u w (h ++ ci)) as [[[]|e] cs];
      simpl in Hs, Hsf, Hsk.
    + pose proof (upload_victims_staged u w ((h ++ ci) ++ cs)) as Hv.
      pose proof (upload_victims_follows u w ((h ++ ci) ++ cs)) as Hvf.
      pose proof (upload_victims_keeps u w ((h ++ ci) ++ cs)) as Hvk.
      destruct (upload_victims u w _) as [r cv]; simpl in *.
      by exists ci, cs, cv.
    + exists ci, cs, []. rewrite app_nil_r.
      split; [done|]. split; [done|]. split; [done|]. split; [done|].
      split; [done|]. split; [by apply follows_free|].
      split; [done|]. split; [done|]. by apply keeps_free.
  - exists ci, [], []. rewrite app_nil_r.
    split; [done|]. split; [done|]. split; [done|]. split; [done|].
    split; [by apply follows_free|]. split; [by apply follows_free|].
    split; [done|]. split; by apply keeps_free.
Qed.

Lemma pause_run a b w h :
  (pause ← random_uniform a b; sleep pause) w h
  = (Returned tt, [Slept (uniform w h a b)]).
Proof. reflexivity. Qed.

(** [process_text] never raises, and its trace has the shape above. *)
Lemma process_text_shape u domain text w h :
  ∃ t, process_text u domain text w h = (Returned tt, t)
       ∧ text_run_shape w u t.
Proof.
  unfold process_text. rewrite bind_run, try_except_run, bind_run, perform_run.
  set (opened := Called (OpenChatEngine text) _).
  assert (Hopen : all (verify_entry u) [opened]) by done.
  destruct (respond w unit h (OpenChatEngine text)) as [[]|e]; cycle 1.
  { simpl. eexists. split; [reflexivity|].
    exists [opened], [], (uniform w (h ++ [opened]) 1 3). by repeat split; auto. }
  rewrite bind_run.
  pose proof (verify_incident_entries u w (h ++ [opened])) as Hentries.
  pose proof (verify_incident_verdict u w (h ++ [opened])) as Hverdict.
  destruct (verify_incident u w (h ++ [opened]))
    as [[[status incidents]|e] tv]; simpl in Hentries, Hverdict; cycle 1.
  { simpl. eexists. split; [reflexivity|].
    eexists (opened :: tv), [], _.
    split; [by rewrite app_nil_r|]. split; [done|]. by left. }
  destruct Hverdict as [Hverdict Hnone].
  assert (Hverdict' : verdict w u status (opened :: tv)).
  { destruct Hverdict as [(? & Hr & Ha)|?]; [left|by right].
    split; [done|]. cbn [existsb]. rewrite Hr, Ha. by rewrite !orb_true_r. }
  assert (Htv : all (verify_entry u) (opened :: tv)) by done.
  rewrite bind_run, perform_run.
  set (rec := {| url := u; domain_name := domain; source := "google_search";
                 content := text; actual_incident := status; accessible := 1 |}).
  set (h2 := (h ++ [opened]) ++ tv).
  destruct (respond w unit h2 (DbInsertUrl rec)) as [[]|e] eqn:Hins; cycle 1.
  { simpl. eexists. split; [reflexivity|].
    eexists (opened :: tv), [Called (DbInsertUrl rec) (Raised e)], _.
    split; [by rewrite <- !app_assoc|]. split; [done|].
    right. exists rec, (Raised e). repeat split; auto. }
  rewrite bind_run, perform_run.
  set (inserted := Called (DbInsertUrl rec) (Returned ())).
  destruct (respond w (option Z) (h2 ++ [inserted]) (DbGetUrlId u))
    as [url_id|e] eqn:Hid; cycle 1.
  { simpl. eexists. split; [reflexivity|].
    eexists (opened :: tv), [inserted; Called (DbGetUrlId u) (Raised e)], _.
    split; [by rewrite <- !app_assoc|]. split; [done|].
    right. exists rec, (Returned ()). repeat split; auto.
    right. exists (Raised e), []. repeat split; auto. }
  cbn [actual_incident rec].
  destruct (status =? 1)%Z eqn:Hstatus.
  - apply Z.eqb_eq in Hstatus.
    set (h3 := (h2 ++ [inserted]) ++ [Called (DbGetUrlId u) (Returned url_id)]).
    pose proof (entity_children_run u url_id incidents w h3) as Hchildren.
    destruct (bind (for_each incidents _) _ w h3) as [rc children];
      simpl in Hchildren.
    assert (Hshape : ∀ pause,
              text_run_shape w u
                ((opened :: tv)
                 ++ (inserted :: Called (DbGetUrlId u) (Returned url_id) :: children)
                 ++ [Slept pause])).
    { intros pause. eexists (opened :: tv), _, pause. split; [done|].
      split; [done|]. right. exists rec, (Returned ()). repeat split; auto.
      right. exists (Returned url_id), children. repeat split; auto. }
    destruct rc as [[]|e]; simpl; eexists; (split; [reflexivity|]);
      rewrite <- !app_assoc; apply Hshape.
  - simpl. eexists. split; [reflexivity|].
    eexists (opened :: tv), [inserted; Called (DbGetUrlId u) (Returned url_id)], _.
    split; [by rewrite <- !app_assoc|]. split; [done|].
    right. exists rec, (Returned ()). repeat split; auto.
    right. exists (Returned url_id), []. repeat split; auto.
Qed.

Lemma acquisition_text_free e :
  acquisition_entry e = true →
  entity_stage e = false ∧ incident_query e = false ∧ stage e = None
  ∧ owner_insert e = None.
Proof. destruct e as [X c r|]; [|done]. by destruct c. Qed.

Lemma verify_entry_free u e :
  verify_entry u e = true →
  entity_stage e = false ∧ stage e = None ∧ owner_insert e = None.
Proof.
  destruct e as [X c r|]; [|done]. destruct c; try done.
  simpl. by intros ->.
Qed.

(** [process_url] raises only what escapes a stage, and its trace has the
    shape above. *)
Lemma process_url_shape u driver w h :
  url_run_shape w u (emitted (process_url u driver w h)).
Proof.
  rewrite process_url_run; cbv zeta.
  pose proof (is_url_accessible_acquisition u w h) as H1.
  destruct (is_url_accessible u w h) as [[[]|e] t1]; simpl in H1 |- *.
  - pose proof (fetch_url_with_retries_acquisition driver u w (h ++ t1)) as H2.
    destruct (fetch_url_with_retries driver u w (h ++ t1)) as [[[]|e] t2];
      simpl in H2 |- *.
    + pose proof (extract_main_text_acquisition u w (h ++ t1 ++ t2)) as H3.
      destruct (extract_main_text u w (h ++ t1 ++ t2)) as [[text|e] t3];
        simpl in H3 |- *.
      * assert (Hacq : all acquisition_entry (t1 ++ t2 ++ t3))
          by (rewrite !all_app; done).
        destruct (truthy text).
        -- destruct (process_text_shape u (tld_domain w u) text w
                       (h ++ t1 ++ t2 ++ t3)) as (t & -> & Hshape).
           simpl. exists (t1 ++ t2 ++ t3), t. auto.
        -- simpl. eexists (t1 ++ t2 ++ t3), _. split; [done|]. split; [done|].
           right. left. by eexists.
      * exists (t1 ++ t2 ++ t3), []. rewrite app_nil_r, !all_app. auto.
    + eexists (t1 ++ t2), _. rewrite all_app. split; [done|]. split; [done|].
      right. left. by eexists.
    + exists (t1 ++ t2), []. rewrite app_nil_r, all_app. auto.
  - eexists t1, _. split; [done|]. split; [done|]. right. left. by eexists.
  - exists t1, []. rewrite app_nil_r. auto.
Qed.

(** ** Entity extraction only after a confirmed incident *)

Lemma all_free_acquisition t :
  all acquisition_entry t → all (λ e, negb (entity_stage e)) t.
Proof.
  apply all_impl. intros e He.
  by destruct (acquisition_text_free e He) as (-> & _).
Qed.

Lemma all_free_verify u t :
  all (verify_entry u) t → all (λ e, negb (entity_stage e)) t.
Proof.
  apply all_impl. intros e He.
  by destruct (verify_entry_free u e He) as (-> & _).
Qed.

Lemma no_query_acquisition t :
  all acquisition_entry t → existsb incident_query t = false.
Proof.
  apply all_existsb_false. intros e He.
  by destruct (acquisition_text_free e He) as (_ & -> & _).
Qed.

(** C1: in every run of [process_url], whatever belongs to entity extraction
    (a prompt other than the incident prompt, a confirmation query, a call
    on the incident, suspect, victim or form tables) comes after
    [update_field(url, "actual_incident", 1)] went through and after the
    store accepted the record with [actual_incident = 1].  When the incident
    query was sent and no reply to it validates to yes (it answers no, is
    malformed or invalid, or the call failed), [insert_url] is called with
    [actual_incident] 0 or -2 and nothing of entity extraction happens. *)
Theorem entities_only_after_confirmed_incident w u driver h :
  let t := emitted (process_url u driver w h) in
  guarded_by (recorded_yes u) entity_stage t
  ∧ guarded_by (stored_as u (Z.eqb 1)) entity_stage t
  ∧ (existsb incident_query t = true →
     existsb (answered_yes w) t = false →
     existsb (inserts_url u (λ s, (s =? 0) || (s =? -2))%Z) t = true
     ∧ all (λ e, negb (entity_stage e)) t).
Proof.
  intros t. subst t.
  destruct (process_url_shape u driver w h)
    as (ta & t' & -> & Hta & [-> | [[r ->] | Htext]]).
  - (* an exception escaped *)
    rewrite app_nil_r. pose proof (all_free_acquisition _ Hta) as Hfree.
    split; [by apply guarded_by_free|]. split; [by apply guarded_by_free|].
    intros Hq. by rewrite (no_query_acquisition _ Hta) in Hq.
  - (* a negative exit *)
    assert (Hfree : all (λ e, negb (entity_stage e))
                      (ta ++ [Called (DbInsertUrl (negative_record u (tld_domain w u))) r])).
    { apply all_app. split; [by apply all_free_acquisition|done]. }
    split; [by apply guarded_by_free|]. split; [by apply guarded_by_free|].
    intros Hq. rewrite existsb_app, (no_query_acquisition _ Hta) in Hq. done.
  - destruct Htext as (tv & tail & pause & -> & Htv & Htail).
    pose proof (all_free_acquisition _ Hta) as Hfa.
    pose proof (all_free_verify _ _ Htv) as Hfv.
    assert (Hquiet : ∀ rec r rest,
              all (λ e, negb (entity_stage e)) rest →
              verdict w u (actual_incident rec) tv → url rec = u →
              let t := ta ++ tv ++ (Called (DbInsertUrl rec) r :: rest)
                       ++ [Slept pause] in
              all (λ e, negb (entity_stage e)) t
              ∧ (existsb (answered_yes w) t = false →
                 existsb (inserts_url u (λ s, (s =? 0) || (s =? -2))%Z) t = true)).
    { intros rec r rest Hrest Hverdict Hurl t. subst t. split.
      - rewrite !all_app. repeat split; try done.
        all: unfold all in *; simpl; by rewrite Hrest.
      - rewrite !existsb_app. intros Hno.
        apply orb_false_iff in Hno as [_ Hno].
        apply orb_false_iff in Hno as [Hno _].
        destruct Hverdict as [(_ & _ & Hyes)|Hstatus]; [congruence|].
        cbn [existsb inserts_url]. rewrite Hurl, String.eqb_refl.
        destruct Hstatus as [-> | ->]; simpl; by rewrite !orb_true_r. }
    destruct Htail as [[-> Hq] | (rec & r & Hu & Hacc & Hverdict & Htail)].
    + (* no record: the session or the store could not be opened *)
      assert (Hfree : all (λ e, negb (entity_stage e)) (ta ++ tv ++ [] ++ [Slept pause])).
      { rewrite !all_app. done. }
      split; [by apply guarded_by_free|]. split; [by apply guarded_by_free|].
      intros Hquery. rewrite !existsb_app in Hquery.
      rewrite (no_query_acquisition _ Hta), Hq in Hquery. done.
    + destruct Htail as [[-> Hr] | (r2 & children & -> & Hr & Hchildren)].
      * destruct (Hquiet rec r [] eq_refl Hverdict Hu) as [Hfree Hins].
        split; [by apply guarded_by_free|]. split; [by apply guarded_by_free|].
        auto.
      * destruct Hchildren as [-> | [Hone Hchildren]].
        -- destruct (Hquiet rec r [Called (DbGetUrlId u) r2] eq_refl Hverdict Hu)
             as [Hfree Hins].
           split; [by apply guarded_by_free|]. split; [by apply guarded_by_free|].
           auto.
        -- destruct Hverdict as [(_ & Hrec & Hyes)|[H0|H0]];
             [|rewrite Hone in H0; done..].
           set (before := ta ++ tv ++ [Called (DbInsertUrl rec) r]).
           set (after := Called (DbGetUrlId u) r2 :: children ++ [Slept pause]).
           assert (Heq : ta ++ tv
                         ++ (Called (DbInsertUrl rec) r :: Called (DbGetUrlId u) r2
                             :: children) ++ [Slept pause]
                         = before ++ after).
           { unfold before, after. by rewrite <- !app_assoc. }
           rewrite Heq.
           assert (Hbefore : all (λ e, negb (entity_stage e)) before).
           { unfold before. rewrite !all_app. done. }
           split; [|split].
           ++ apply guarded_by_after; [by apply guarded_by_free|].
              unfold before. rewrite !existsb_app, Hrec. by rewrite orb_true_r.
           ++ apply guarded_by_after; [by apply guarded_by_free|].
              unfold before. rewrite !existsb_app. cbn [existsb].
              unfold stored_as, inserts_url.
              rewrite Hu, String.eqb_refl, Hone, Hr. simpl.
              by rewrite !orb_true_r.
           ++ intros _ Hno. unfold before in Hno. rewrite !existsb_app in Hno.
              rewrite Hyes in Hno. by rewrite !orb_true_r in Hno.
Qed.

(** An article the model does not take for an incident report: the record
    goes in with [actual_incident = 0] and nothing else is asked or
    written. *)
Example no_incident_run :
  let t := emitted (process_url "https://example.org/a" MainSession
                      (world_keeping_store true) []) in
  existsb incident_query t = true
  ∧ existsb (answered_yes (world_keeping_store true)) t = false
  ∧ existsb (inserts_url "https://example.org/a" (Z.eqb 0)) t = true
  ∧ forallb (λ e, negb (entity_stage e)) t = true.
Proof. repeat split; vm_compute; reflexivity. Qed.

(** ** The order of the row inserts *)

Lemma stages_app t1 t2 : stages (t1 ++ t2) = stages t1 ++ stages t2.
Proof. apply omap_app. Qed.

Lemma stages_none (q : entry → bool) t :
  (∀ e, q e = true → stage e = None) → all q t → stages t = [].
Proof.
  intros Hq. induction t as [|e t IH]; [done|].
  unfold all; simpl. rewrite andb_true_iff. intros [He Ht].
  unfold stages in *. simpl. rewrite (Hq e He). by apply IH.
Qed.

Lemma stages_staged k t : all (staged k) t → Forall (eq k) (stages t).
Proof.
  induction t as [|e t IH]; [constructor|].
  unfold all; simpl. rewrite andb_true_iff. intros [He Ht].
  unfold stages in *. simpl. unfold staged in He.
  destruct (stage e) as [s|]; simpl; [|by apply IH].
  constructor; [|by apply IH]. symmetry. by apply Z.eqb_eq.
Qed.

Lemma sorted_constant k l : Forall (eq k) l → StronglySorted Z.le l.
Proof.
  induction 1 as [|x l <- Hl IH]; constructor; [done|].
  eapply Forall_impl; [exact Hl|]. intros y <-. done.
Qed.

(** The stages of the entity calls rise from 1 to 3. *)
Lemma entity_children_stages children :
  entity_children children →
  Forall (λ s : Z, (1 ≤ s ≤ 3)%Z) (stages children)
  ∧ StronglySorted Z.le (stages children).
Proof.
  intros (ci & cs & cv & -> & Hi & Hs & Hv & _).
  apply stages_staged in Hi, Hs, Hv. rewrite !stages_app.
  split.
  - rewrite !Forall_app. repeat split;
      (eapply Forall_impl; [eassumption|]); intros s <-; lia.
  - apply StronglySorted_app_2; [|by eapply sorted_constant|].
    + intros x1 x2 H1 H2. rewrite Forall_forall in Hi. rewrite <- (Hi x1 H1).
      apply elem_of_app in H2 as [H2|H2].
      * rewrite Forall_forall in Hs. rewrite <- (Hs x2 H2). lia.
      * rewrite Forall_forall in Hv. rewrite <- (Hv x2 H2). lia.
    + apply StronglySorted_app_2; [|by eapply sorted_constant..].
      intros x1 x2 H1 H2. rewrite Forall_forall in Hs, Hv.
      rewrite <- (Hs x1 H1), <- (Hv x2 H2). lia.
Qed.

Lemma row_of_stage e : stage e = None → row_of e = None.
Proof. destruct e as [X c r|]; [|done]. by destruct c. Qed.

(** The row inserts of the entity calls are in order after the record of the
    URL. *)
Lemma entity_children_rows children :
  entity_children children →
  ∃ p, run_rows Incidents (rows children) = Some p.
Proof.
  intros (ci & cs & cv & -> & _ & _ & _ & _ & _ & Hi & Hs & Hv).
  destruct (Hi Incidents eq_refl) as (p1 & Hrun1 & Hp1).
  assert (Hp1' : among_suspects p1 = true) by by destruct p1.
  destruct (Hs p1 Hp1') as (p2 & Hrun2 & Hp2).
  assert (Hp2' : among_victims p2 = true) by by destruct p2.
  destruct (Hv p2 Hp2') as (p3 & Hrun3 & _).
  exists p3.
  by rewrite rows_app, run_rows_app, Hrun1, rows_app, run_rows_app, Hrun2.
Qed.

Lemma all_not_child (q : entry → bool) t :
  (∀ e, q e = true → stage e = None) → all q t →
  all (λ e, negb (child_insert e)) t.
Proof.
  intros Hq. apply all_impl. intros e He. unfold child_insert.
  by rewrite (Hq e He).
Qed.

Lemma acquisition_follows {A} (m : M A) :
  always (λ _, all acquisition_entry) m → always (λ _, follows owner_insert) m.
Proof. apply always_follows_of_all, acquisition_no_form_insert. Qed.

Lemma verify_entry_no_form_insert u e :
  verify_entry u e = true → no_form_insert e = true.
Proof. destruct e as [X c r|]; [|done]. by destruct c. Qed.

Lemma process_url_follows u driver :
  always (λ _, follows owner_insert) (process_url u driver).
Proof.
  unfold process_url, process_text.
  always_with (follows_closed owner_insert)
    ltac:(first
            [ by apply follows_single
            | apply upload_suspects_follows
            | apply upload_victims_follows
            | apply acquisition_follows, is_url_accessible_acquisition
            | apply acquisition_follows, fetch_url_with_retries_acquisition
            | apply acquisition_follows, extract_main_text_acquisition
            | eapply always_follows_of_all;
                [apply (verify_entry_no_form_insert u)
                |apply verify_incident_entries] ]).
Qed.

(** C9 as stated fails twice.  Verification writes to the store before the
    record of the URL exists: [update_field] comes first.  And the forms do
    not wait for all suspects and victims: each confirmed person's form is
    inserted right after that person's row.  The first run is the file as it
    stands ([llm] unbound, so no name is confirmed); the second has [llm]
    bound and two suspects confirmed. *)
Lemma write_order_counterexample :
  claimed_order
    (writes (emitted (process_url "https://example.org/a" MainSession
                        (world_incident false ["John Doe"]) []))) = false
  ∧ claimed_order
      (row_inserts (emitted (process_url "https://example.org/a" MainSession
                               (world_incident true ["John Doe"; "Jane Roe"]) [])))
    = false.
Proof. split; vm_compute; reflexivity. Qed.

Example writes_of_confirmed_incident :
  writes (emitted (process_url "https://example.org/a" MainSession
                     (world_incident false ["John Doe"]) []))
  = [WUpdate; WUrl; WIncident]
  ∧ writes (emitted (process_url "https://example.org/a" MainSession
                       (world_incident true ["John Doe"; "Jane Roe"]) []))
    = [WUpdate; WUrl; WIncident; WPerson; WForm; WPerson; WForm].
Proof. split; vm_compute; reflexivity. Qed.

(** The two runs of the counterexample by their row inserts, and an order
    that the interleaving excludes: the forms of two suspects after both
    suspect rows. *)
Example rows_of_confirmed_incident :
  rows (emitted (process_url "https://example.org/a" MainSession
                   (world_incident true ["John Doe"; "Jane Roe"]) []))
  = [RUrl; RIncident; RSuspect "John Doe"; RSuspectForm "John Doe";
     RSuspect "Jane Roe"; RSuspectForm "Jane Roe"]
  ∧ interleaved_order
      [RUrl; RIncident; RSuspect "John Doe"; RSuspect "Jane Roe";
       RSuspectForm "Jane Roe"; RSuspectForm "John Doe"] = false
  ∧ interleaved_order
      [RUrl; RIncident; RSuspect "John Doe"; RSuspect "Jane Roe";
       RSuspectForm "John Doe"] = false
  ∧ interleaved_order
      [RUrl; RSuspect "John Doe"; RSuspectForm "John Doe"; RIncident] = false
  ∧ interleaved_order
      [RUrl; RVictim "Ann Poe"; RVictimForm "Ann Poe"; RSuspect "John Doe"]
    = false.
Proof. repeat split; vm_compute; reflexivity. Qed.

(** C9, amended: the row inserts of a URL are issued in the order: the record
    of the URL (at most one, and first), then the incident rows, then the
    suspects, then the victims; the form of a suspect or victim, if one is
    inserted, is the very next row insert after the row of that person, so
    forms are interleaved with the persons and never gathered after them.
    Every insert of a child row comes after the store accepted the record of
    the URL, and every form insert comes after the insert of the suspect or
    victim it belongs to. *)
Theorem row_inserts_in_order w u driver h :
  let t := emitted (process_url u driver w h) in
  (stages t = []
   ∨ ∃ rest, stages t = 0 :: rest
             ∧ Forall (λ s : Z, (1 ≤ s ≤ 3)%Z) rest ∧ StronglySorted Z.le rest)
  ∧ guarded_by (stored_as u (λ _, true)) child_insert t
  ∧ follows owner_insert t
  ∧ interleaved_order (rows t) = true.
Proof.
  intros t. subst t. split; [|split; [|split]]; [| |apply process_url_follows|];
    cycle 2.
  - destruct (process_url_shape u driver w h)
      as (ta & t' & -> & Hta & Ht').
    unfold interleaved_order.
    rewrite rows_app, (rows_none acquisition_entry ta); [|
      intros e He; apply row_of_stage;
        by destruct (acquisition_text_free e He) as (_ & _ & -> & _)
      | done].
    destruct Ht' as [-> | [[r ->] | Htext]]; [done|done|].
    destruct Htext as (tv & tail & pause & -> & Htv & Htail).
    rewrite !rows_app, (rows_none (verify_entry u) tv); [|
      intros e He; apply row_of_stage;
        by destruct (verify_entry_free u e He) as (_ & -> & _)
      | done].
    destruct Htail as [[-> _] | (rec & r & _ & _ & _ & Htail)]; [done|].
    destruct Htail as [[-> _] | (r2 & children & -> & _ & Hchildren)]; [done|].
    cbn. rewrite app_nil_r.
    destruct Hchildren as [-> | [_ Hchildren]]; [done|].
    apply entity_children_rows in Hchildren as (p & Hrun).
    change (omap row_of children) with (rows children). by rewrite Hrun.
  - destruct (process_url_shape u driver w h)
      as (ta & t' & -> & Hta & Ht').
    rewrite stages_app, (stages_none acquisition_entry ta); [|
      intros e He; by destruct (acquisition_text_free e He) as (_ & _ & -> & _)
      | done].
    destruct Ht' as [-> | [[r ->] | Htext]]; [by left| |].
    { right. exists []. repeat split; constructor. }
    destruct Htext as (tv & tail & pause & -> & Htv & Htail).
    rewrite !stages_app, (stages_none (verify_entry u) tv); [|
      intros e He; by destruct (verify_entry_free u e He) as (_ & -> & _)
      | done].
    destruct Htail as [[-> _] | (rec & r & _ & _ & _ & Htail)]; [by left|].
    destruct Htail as [[-> _] | (r2 & children & -> & _ & Hchildren)].
    { right. exists []. repeat split; constructor. }
    right. exists (stages children). cbn. rewrite app_nil_r.
    split; [done|].
    destruct Hchildren as [-> | [_ Hchildren]]; [by repeat constructor|].
    by apply entity_children_stages.
  - destruct (process_url_shape u driver w h)
      as (ta & t' & -> & Hta & Ht').
    pose proof (all_not_child acquisition_entry ta
                  (λ e He, proj1 (proj2 (proj2 (acquisition_text_free e He)))) Hta)
      as Hfa.
    destruct Ht' as [-> | [[r ->] | Htext]].
    { rewrite app_nil_r. by apply guarded_by_free. }
    { apply guarded_by_free. apply all_app. done. }
    destruct Htext as (tv & tail & pause & -> & Htv & Htail).
    pose proof (all_not_child (verify_entry u) tv
                  (λ e He, proj1 (proj2 (verify_entry_free u e He))) Htv) as Hfv.
    destruct Htail as [[-> _] | (rec & r & Hu & _ & _ & Htail)].
    { apply guarded_by_free. rewrite !all_app. done. }
    destruct Htail as [[-> _] | (r2 & children & -> & Hr & Hchildren)].
    { apply guarded_by_free. rewrite !all_app. done. }
    set (before := ta ++ tv ++ [Called (DbInsertUrl rec) r]).
    set (after := Called (DbGetUrlId u) r2 :: children ++ [Slept pause]).
    assert (Heq : ta ++ tv
                  ++ (Called (DbInsertUrl rec) r :: Called (DbGetUrlId u) r2
                      :: children) ++ [Slept pause]
                  = before ++ after).
    { unfold before, after. by rewrite <- !app_assoc. }
    rewrite Heq. apply guarded_by_after.
    + apply guarded_by_free. unfold before. rewrite !all_app. done.
    + unfold before. rewrite !existsb_app. cbn [existsb].
      unfold stored_as, inserts_url. rewrite Hu, String.eqb_refl, Hr. simpl.
      by rewrite !orb_true_r.
Qed.

(** ** The loop over the URLs *)

(** C7 as stated fails: the three negative exits of [process_url] call
    [insert_url] outside any handler, and [main] has none around
    [process_url].  Here both pages render without a title and the store is
    locked: the first URL's insert raises, the exception leaves [main], and
    the second URL is never probed. *)
Lemma store_failure_ends_batch :
  ¬ batch_completes world_store_down MainSession
      ["https://example.org/a"; "https://example.org/b"] []
  ∧ result_of (main world_store_down [])
    = Raised (DatabaseError "database is locked")
  ∧ probes (emitted (main world_store_down [])) = 1%nat.
Proof.
  split; [|split; vm_compute; reflexivity].
  unfold batch_completes. intros Heq.
  apply (f_equal result_of) in Heq. vm_compute in Heq. discriminate Heq.
Qed.

Lemma fetch_loop_returns w driver u delay attempts h :
  load_faults_are_driver_faults w driver →
  ∃ b, result_of (fetch_loop driver u delay attempts w h) = Returned b.
Proof.
  intros Hw. revert h. induction attempts as [|attempt rest IH]; intros h.
  - by exists false.
  - rewrite fetch_loop_cons; cbv zeta. specialize (Hw h u).
    destruct (respond w unit h (DriverGet driver u)) as [[]|e];
      [by exists true|].
    destruct e; try done; [|by exists false].
    match goal with |- context [fetch_loop driver u delay rest w ?hh] =>
      destruct (IH hh) as [b Hb];
      destruct (fetch_loop driver u delay rest w hh) as [r t] end.
    simpl in *. by exists b.
Qed.

(** Under the two assumptions [process_url] returns. *)
Lemma process_url_returns w driver u h :
  negative_inserts_accepted w → load_faults_are_driver_faults w driver →
  result_of (process_url u driver w h) = Returned tt.
Proof.
  intros Hstore Hload. rewrite process_url_run; cbv zeta.
  destruct (is_url_accessible_run u w h) as (b & Hb & _). rewrite Hb.
  destruct b; [|cbn; by rewrite Hstore].
  set (h1 := h ++ emitted (is_url_accessible u w h)).
  destruct (fetch_loop_returns w driver u 5 (seqZ 1 3) h1 Hload) as [b Hload1].
  change (fetch_loop driver u 5 (seqZ 1 3) w h1)
    with (fetch_url_with_retries driver u w h1) in Hload1.
  rewrite Hload1. destruct b; [|cbn; by rewrite Hstore].
  match goal with |- context [extract_main_text u w ?hh] =>
    destruct (extract_main_text_returns u w hh) as [s Hs] end.
  rewrite Hs. destruct (truthy s); [|cbn; by rewrite Hstore].
  match goal with |- context [process_text ?a ?b ?c ?d ?e] =>
    by destruct (process_text_shape a b c d e) as (t & -> & _) end.
Qed.

(** C7, amended: an exception raised inside the probe, the extraction tiers
    or the verification stage never leaves [process_url]; provided the store
    accepts the record of a negative exit and a page load fails only with a
    timeout or a driver fault, [process_url] returns for every URL and the
    loop runs each URL of the batch in turn. *)
Theorem batch_runs_every_url w driver urls h :
  negative_inserts_accepted w → load_faults_are_driver_faults w driver →
  batch_completes w driver urls h
  ∧ ∀ u h', result_of (process_url u driver w h') = Returned tt.
Proof.
  intros Hstore Hload. split; [|intros; by apply process_url_returns].
  unfold batch_completes. revert h.
  induction urls as [|u rest IH]; intros h; [done|].
  cbn [for_each batch_trace]. rewrite bind_run.
  pose proof (process_url_returns w driver u h Hstore Hload) as Hu.
  destruct (process_url u driver w h) as [r t]; simpl in Hu; subst r.
  rewrite IH. done.
Qed.

Lemma batch_runs_every_url_witness :
  batch_completes (world_keeping_store false) MainSession
    ["https://example.org/a"; "https://example.org/b"] []
  ∧ ∀ u h', result_of (process_url u MainSession (world_keeping_store false) h')
            = Returned tt.
Proof.
  apply (batch_runs_every_url (world_keeping_store false) MainSession
           ["https://example.org/a"; "https://example.org/b"] []).
  - intros h rec _. reflexivity.
  - intros h u. exact I.
Defined.

(** ** Runs against the store *)

Lemma inserted_app t1 t2 : inserted (t1 ++ t2) = inserted t1 ++ inserted t2.
Proof. apply omap_app. Qed.

Lemma urls_of_app t1 t2 : urls_of (t1 ++ t2) = urls_of t1 ++ urls_of t2.
Proof. apply omap_app. Qed.

Lemma probes_app t1 t2 : probes (t1 ++ t2) = (probes t1 + probes t2)%nat.
Proof. unfold probes. by rewrite List.filter_app, length_app. Qed.

Lemma inserted_none (q : entry → bool) t :
  (∀ e, q e = true → inserted_url e = None) → all q t → inserted t = [].
Proof.
  intros Hq. induction t as [|e t IH]; [done|].
  unfold all; simpl. rewrite andb_true_iff. intros [He Ht].
  unfold inserted in *. simpl. rewrite (Hq e He). by apply IH.
Qed.

Lemma urls_of_none (q : entry → bool) t :
  (∀ e, q e = true → url_of e = None) → all q t → urls_of t = [].
Proof.
  intros Hq. induction t as [|e t IH]; [done|].
  unfold all; simpl. rewrite andb_true_iff. intros [He Ht].
  unfold urls_of in *. simpl. rewrite (Hq e He). by apply IH.
Qed.

Lemma filter_none (q f : entry → bool) t :
  (∀ e, q e = true → f e = false) → all q t → List.filter f t = [].
Proof.
  intros Hq. unfold all. induction t as [|e t IH]; simpl; [done|].
  intros [He Ht]%andb_true_iff. by rewrite (Hq e He), IH.
Qed.

Lemma probes_none t : all no_probe_start t → probes t = 0%nat.
Proof.
  intros Ht. unfold probes. erewrite filter_none; [done| |exact Ht].
  intros e. destruct e as [X c r|]; [|done]. destruct c; try done.
  match goal with s : session |- _ => by destruct s end.
Qed.

Lemma inserted_url_of e u : inserted_url e = Some u → url_of e = Some u.
Proof.
  destruct e as [X c r|]; [|done]. destruct c; try done. simpl.
  by destruct (returned r).
Qed.

Lemma store_call_url_of e u : store_call_url e = Some u → url_of e = Some u.
Proof. destruct e as [X c r|]; [|done]. by destruct c. Qed.

Lemma inserted_store_call e u :
  inserted_url e = Some u → store_call_url e = Some u.
Proof.
  destruct e as [X c r|]; [|done]. destruct c; try done. simpl.
  by destruct (returned r).
Qed.

Lemma written_store_call e u :
  written_url e = Some u → store_call_url e = Some u.
Proof.
  destruct e as [X c r|]; [|done]. destruct c; try done; simpl;
    by destruct (returned r).
Qed.

Lemma inserted_urls_of t u : u ∈ inserted t → u ∈ urls_of t.
Proof.
  unfold inserted, urls_of. rewrite !list_elem_of_omap.
  intros (e & He & Hu). exists e. split; [done|]. by apply inserted_url_of.
Qed.

Lemma urls_of_about u t u' : all (about_only u) t → u' ∈ urls_of t → u' = u.
Proof.
  intros Ht. unfold urls_of. rewrite list_elem_of_omap.
  intros (e & He & Hu). unfold all in Ht. rewrite forallb_forall in Ht.
  apply list_elem_of_In in He. specialize (Ht e He).
  unfold about_only in Ht. rewrite Hu in Ht. by apply String.eqb_eq in Ht.
Qed.

Lemma acquisition_not_inserted e :
  acquisition_entry e = true → inserted_url e = None.
Proof. destruct e as [X c r|]; [|done]. by destruct c. Qed.

Lemma verify_entry_not_inserted u e :
  verify_entry u e = true → inserted_url e = None.
Proof. destruct e as [X c r|]; [|done]. by destruct c. Qed.

Lemma staged_not_inserted k e :
  k ≠ 0 → staged k e = true → inserted_url e = None.
Proof.
  intros Hk. destruct e as [X c r|]; [|done]. destruct c; try done.
  unfold staged. cbn [stage]. intros Heq%Z.eqb_eq. congruence.
Qed.

Lemma entity_children_not_inserted children :
  entity_children children → inserted children = [].
Proof.
  intros (ci & cs & cv & -> & Hi & Hs & Hv & _). rewrite !inserted_app.
  rewrite (inserted_none (staged 1) ci), (inserted_none (staged 2) cs),
    (inserted_none (staged 3) cv); try done;
    intros e; by apply staged_not_inserted.
Qed.

(** In a run of [process_url] the store accepts at most one record, that of
    its URL. *)
Lemma process_url_inserted u driver w h :
  inserted (emitted (process_url u driver w h)) = []
  ∨ inserted (emitted (process_url u driver w h)) = [u].
Proof.
  destruct (process_url_shape u driver w h) as (ta & t' & -> & Hta & Ht').
  rewrite inserted_app, (inserted_none acquisition_entry ta);
    [|apply acquisition_not_inserted|done].
  destruct Ht' as [-> | [[r ->] | Htext]]; [by left| |].
  { unfold inserted; simpl. destruct (returned r); auto. }
  destruct Htext as (tv & tail & pause & -> & Htv & Htail).
  rewrite !inserted_app, (inserted_none (verify_entry u) tv);
    [|apply verify_entry_not_inserted|done].
  destruct Htail as [[-> _] | (rec & r & Hu & _ & _ & Htail)]; [by left|].
  destruct Htail as [[-> _] | (r2 & children & -> & _ & Hchildren)].
  { unfold inserted; simpl. rewrite Hu. destruct (returned r); auto. }
  change (Called (DbInsertUrl rec) r :: Called (DbGetUrlId u) r2 :: children)
    with ([Called (DbInsertUrl rec) r; Called (DbGetUrlId u) r2] ++ children).
  rewrite inserted_app.
  replace (inserted children) with (@nil string).
  { unfold inserted; simpl. rewrite Hu. destruct (returned r); auto. }
  destruct Hchildren as [-> | [_ Hchildren]]; [done|].
  symmetry. by apply entity_children_not_inserted.
Qed.

(** *** What a run of [process_url] is about *)

Ltac about_facts :=
  unfold all, about_only; simpl; rewrite ?String.eqb_refl; done.

Lemma gvr_about u key p cls :
  always (λ _, all (about_only u)) (get_validated_response key p cls).
Proof.
  eapply always_impl; [|apply get_validated_response_chat].
  intros e. destruct e as [X c r|]; [|done]. by destruct c.
Qed.

Lemma suspects_loop_about u url_id suspects :
  always (λ _, all (about_only u)) (suspects_loop u url_id suspects).
Proof.
  induction suspects as [|name rest IH]; [apply always_ret, all_closed|].
  cbn [suspects_loop].
  unfold confirm_natural_name, except_database_error,
    populate_suspect_forms_table.
  always_with (all_closed (about_only u)) ltac:(first [about_facts|apply IH]).
Qed.

Lemma victims_loop_about u url_id victims :
  always (λ _, all (about_only u)) (victims_loop u url_id victims).
Proof.
  induction victims as [|name rest IH]; [apply always_ret, all_closed|].
  cbn [victims_loop].
  unfold confirm_natural_name, except_database_error,
    populate_victim_forms_table.
  always_with (all_closed (about_only u)) ltac:(first [about_facts|apply IH]).
Qed.

Lemma fetch_url_with_retries_about driver u :
  always (λ _, all (about_only u)) (fetch_url_with_retries driver u).
Proof.
  unfold fetch_url_with_retries. generalize (seqZ 1 3).
  intros attempts. induction attempts as [|attempt rest IH]; simpl.
  - apply always_ret, all_closed.
  - repeat always_step (all_closed (about_only u)); try done; about_facts.
Qed.

(** Every call of a run of [process_url] that is about a URL is about its
    own. *)
Lemma process_url_about u driver :
  always (λ _, all (about_only u)) (process_url u driver).
Proof.
  unfold process_url, process_text, is_url_accessible, extract_main_text,
    extract_with_newspaper, extract_with_readability, extract_with_selenium,
    or_empty, verify_incident, upload_suspects, upload_victims.
  always_with (all_closed (about_only u))
    ltac:(first
            [ about_facts
            | apply gvr_about
            | apply fetch_url_with_retries_about
            | apply suspects_loop_about
            | apply victims_loop_about ]).
Qed.

(** *** Probes and the long-lived browser *)

Lemma gvr_no_probe key p cls :
  always (λ _, all no_probe_start) (get_validated_response key p cls).
Proof.
  eapply always_impl; [|apply get_validated_response_chat].
  intros e. destruct e as [X c r|]; [|done]. by destruct c.
Qed.

Lemma suspects_loop_no_probe u url_id suspects :
  always (λ _, all no_probe_start) (suspects_loop u url_id suspects).
Proof.
  induction suspects as [|name rest IH]; [apply always_ret, all_closed|].
  cbn [suspects_loop].
  unfold confirm_natural_name, except_database_error,
    populate_suspect_forms_table.
  always_with (all_closed no_probe_start) ltac:(first [entry_facts|apply IH]).
Qed.

Lemma victims_loop_no_probe u url_id victims :
  always (λ _, all no_probe_start) (victims_loop u url_id victims).
Proof.
  induction victims as [|name rest IH]; [apply always_ret, all_closed|].
  cbn [victims_loop].
  unfold confirm_natural_name, except_database_error,
    populate_victim_forms_table.
  always_with (all_closed no_probe_start) ltac:(first [entry_facts|apply IH]).
Qed.

Lemma fetch_url_with_retries_no_probe driver u :
  always (λ _, all no_probe_start) (fetch_url_with_retries driver u).
Proof.
  unfold fetch_url_with_retries. generalize (seqZ 1 3).
  intros attempts. induction attempts as [|attempt rest IH]; simpl.
  - apply always_ret, all_closed.
  - repeat always_step (all_closed no_probe_start); done.
Qed.

Lemma is_url_accessible_probes u w h :
  probes (emitted (is_url_accessible u w h)) = 1%nat.
Proof.
  unfold is_url_accessible, emitted.
  rewrite try_except_run, !bind_run, perform_run.
  destruct (respond w unit h (ChromeNew ProbeSession)) as [[]|]; [|done].
  rewrite bind_run, perform_run.
  destruct (respond w unit _ (DriverGet ProbeSession u)) as [[]|]; [|done].
  rewrite bind_run, perform_run.
  destruct (respond w string _ (DriverTitle ProbeSession)); [|done].
  rewrite bind_run, perform_run.
  by destruct (respond w unit _ (DriverQuit ProbeSession)).
Qed.

(** A run of [process_url] starts exactly one probe. *)
Lemma process_url_probes u driver w h :
  probes (emitted (process_url u driver w h)) = 1%nat.
Proof.
  rewrite process_url_run; cbv zeta.
  pose proof (is_url_accessible_probes u w h) as Hp.
  destruct (is_url_accessible u w h) as [[[]|e] tp];
    cbn [result_of emitted fst snd] in *; [| |done]; cycle 1.
  { by rewrite probes_app, Hp. }
  pose proof (fetch_url_with_retries_no_probe driver u w (h ++ tp)) as Hl.
  apply probes_none in Hl.
  destruct (fetch_url_with_retries driver u w (h ++ tp)) as [[[]|e] tl];
    cbn [result_of emitted fst snd] in *;
    [| by rewrite !probes_app, Hp, Hl | by rewrite probes_app, Hp, Hl].
  assert (He : always (λ _, all no_probe_start) (extract_main_text u)).
  { unfold extract_main_text, extract_with_newspaper, extract_with_readability,
      extract_with_selenium, or_empty.
    always_with (all_closed no_probe_start) ltac:(entry_facts). }
  specialize (He w (h ++ tp ++ tl)). apply probes_none in He.
  destruct (extract_main_text u w (h ++ tp ++ tl)) as [[text|e] te];
    cbn [result_of emitted fst snd] in *;
    [|by rewrite !probes_app, Hp, Hl, He].
  destruct (truthy text); cbn [emitted snd];
    [|by rewrite !probes_app, Hp, Hl, He].
  assert (Ht : always (λ _, all no_probe_start)
                 (process_text u (tld_domain w u) text)).
  { unfold process_text, verify_incident, upload_suspects, upload_victims.
    always_with (all_closed no_probe_start)
      ltac:(first
              [ entry_facts
              | apply gvr_no_probe
              | apply suspects_loop_no_probe
              | apply victims_loop_no_probe ]). }
  specialize (Ht w (h ++ tp ++ tl ++ te)). apply probes_none in Ht.
  cbn [emitted snd]. by rewrite !probes_app, Hp, Hl, He, Ht.
Qed.

Lemma gvr_no_main_quit key p cls :
  always (λ _, all no_main_quit) (get_validated_response key p cls).
Proof.
  eapply always_impl; [|apply get_validated_response_chat].
  intros e. destruct e as [X c r|]; [|done]. by destruct c.
Qed.

Lemma suspects_loop_no_main_quit u url_id suspects :
  always (λ _, all no_main_quit) (suspects_loop u url_id suspects).
Proof.
  induction suspects as [|name rest IH]; [apply always_ret, all_closed|].
  cbn [suspects_loop].
  unfold confirm_natural_name, except_database_error,
    populate_suspect_forms_table.
  always_with (all_closed no_main_quit) ltac:(first [entry_facts|apply IH]).
Qed.

Lemma victims_loop_no_main_quit u url_id victims :
  always (λ _, all no_main_quit) (victims_loop u url_id victims).
Proof.
  induction victims as [|name rest IH]; [apply always_ret, all_closed|].
  cbn [victims_loop].
  unfold confirm_natural_name, except_database_error,
    populate_victim_forms_table.
  always_with (all_closed no_main_quit) ltac:(first [entry_facts|apply IH]).
Qed.

Lemma fetch_url_with_retries_no_main_quit driver u :
  always (λ _, all no_main_quit) (fetch_url_with_retries driver u).
Proof.
  unfold fetch_url_with_retries. generalize (seqZ 1 3).
  intros attempts. induction attempts as [|attempt rest IH]; simpl.
  - apply always_ret, all_closed.
  - repeat always_step (all_closed no_main_quit); done.
Qed.

Lemma process_url_no_main_quit u :
  always (λ _, all no_main_quit) (process_url u MainSession).
Proof.
  unfold process_url, process_text, is_url_accessible, extract_main_text,
    extract_with_newspaper, extract_with_readability, extract_with_selenium,
    or_empty, verify_incident, upload_suspects, upload_victims.
  always_with (all_closed no_main_quit)
    ltac:(first
            [ entry_facts
            | apply gvr_no_main_quit
            | apply fetch_url_with_retries_no_main_quit
            | apply suspects_loop_no_main_quit
            | apply victims_loop_no_main_quit ]).
Qed.

(** *** The loop over the selected URLs *)

(** The calls of the loop are about URLs of the batch. *)
Lemma batch_urls_of w driver urls h u :
  u ∈ urls_of (emitted (for_each urls (λ u, process_url u driver) w h)) →
  u ∈ urls.
Proof.
  revert h. induction urls as [|v rest IH]; intros h.
  - by intros ?%elem_of_nil.
  - cbn [for_each]. unfold emitted. rewrite bind_run.
    pose proof (process_url_about v driver w h) as Hv.
    destruct (process_url v driver w h) as [[[]|e] t]; simpl in Hv |- *.
    + specialize (IH (h ++ t)).
      destruct (for_each rest _ w (h ++ t)) as [r t']; simpl in IH |- *.
      rewrite urls_of_app. intros [Hu|Hu]%elem_of_app.
      * rewrite (urls_of_about v t u Hv Hu). by left.
      * right. by apply IH.
    + intros Hu. rewrite (urls_of_about v t u Hv Hu). by left.
Qed.

(** In the loop the store accepts no URL twice. *)
Lemma batch_inserted w driver urls h :
  NoDup urls →
  NoDup (inserted (emitted (for_each urls (λ u, process_url u driver) w h))).
Proof.
  revert h. induction urls as [|u rest IH]; intros h Hnodup; [constructor|].
  apply NoDup_cons in Hnodup as [Hfresh Hrest].
  cbn [for_each]. unfold emitted. rewrite bind_run.
  pose proof (process_url_inserted u driver w h) as Hone.
  destruct (process_url u driver w h) as [[[]|e] t]; simpl in Hone.
  - specialize (IH (h ++ t) Hrest).
    pose proof (batch_urls_of w driver rest (h ++ t) u) as Hin.
    destruct (for_each rest _ w (h ++ t)) as [r t']; simpl in IH, Hin |- *.
    rewrite inserted_app.
    destruct Hone as [-> | ->]; simpl; [done|].
    apply NoDup_cons. split; [|done].
    intros Hu%inserted_urls_of. by apply Hfresh, Hin.
  - simpl. destruct Hone as [-> | ->]; [constructor|apply NoDup_singleton].
Qed.

(** The loop starts one probe for each URL it comes to, and it comes to all
    of them when no exception leaves it. *)
Lemma batch_probes w driver urls h :
  let loop := for_each urls (λ u, process_url u driver) w h in
  (probes (emitted loop) ≤ length urls)%nat
  ∧ (returned (result_of loop) = true → probes (emitted loop) = length urls).
Proof.
  cbv zeta. revert h. induction urls as [|u rest IH]; intros h; [done|].
  cbn [for_each]. unfold emitted, result_of. rewrite bind_run.
  pose proof (process_url_probes u driver w h) as Hone.
  destruct (process_url u driver w h) as [[[]|e] t]; simpl in Hone.
  - specialize (IH (h ++ t)).
    destruct (for_each rest _ w (h ++ t)) as [r t']; simpl in IH |- *.
    rewrite probes_app, Hone. destruct IH as [IH1 IH2].
    split; [lia|]. intros Hr. by rewrite IH2.
  - simpl. rewrite Hone. split; [lia|done].
Qed.

(** A loop that no exception leaves is the runs of [process_url] for the
    URLs of the batch, one after the other. *)
Lemma batch_returned w driver urls h :
  returned (result_of (for_each urls (λ u, process_url u driver) w h)) = true →
  emitted (for_each urls (λ u, process_url u driver) w h)
  = batch_trace w driver urls h.
Proof.
  revert h. induction urls as [|u rest IH]; intros h; [done|].
  cbn [for_each batch_trace]. unfold emitted, result_of. rewrite bind_run.
  destruct (process_url u driver w h) as [[[]|e] t]; [|done].
  specialize (IH (h ++ t)). unfold emitted, result_of in IH.
  destruct (for_each rest _ w (h ++ t)) as [r t']; simpl in *.
  intros Hr. by rewrite (IH Hr).
Qed.

(** *** [main] stage by stage *)

Lemma main_urls_startup : always (λ _, all startup_entry) main_urls.
Proof.
  unfold main_urls.
  always_with (all_closed startup_entry) ltac:(entry_facts).
Qed.

Lemma initialize_selenium_startup :
  always (λ _, all startup_entry) initialize_selenium.
Proof.
  unfold initialize_selenium.
  always_with (all_closed startup_entry) ltac:(entry_facts).
Qed.

Lemma initialize_selenium_driver w h driver :
  result_of (initialize_selenium w h) = Returned (Some driver) →
  driver = MainSession.
Proof.
  unfold initialize_selenium.
  rewrite try_except_run, !bind_run, !perform_run.
  destruct (respond w unit h (ChromeNew MainSession)); simpl; [|done].
  rewrite bind_run, perform_run.
  destruct (respond w unit _ (SetPageLoadTimeout MainSession 30)); simpl;
    [|done].
  by intros [= <-].
Qed.

Lemma main_run w h :
  main w h =
  let selection := main_urls w h in
  match result_of selection with
  | Raised e => (Raised e, emitted selection)
  | Returned urls =>
      let start := initialize_selenium w (h ++ emitted selection) in
      let t := emitted selection ++ emitted start in
      match result_of start with
      | Raised e => (Raised e, t)
      | Returned None => (Returned tt, t)
      | Returned (Some driver) =>
          let loop := for_each urls (λ u, process_url u driver) w (h ++ t) in
          match result_of loop with
          | Raised e => (Raised e, t ++ emitted loop)
          | Returned _ =>
              let quit :=
                respond w unit (h ++ t ++ emitted loop) (DriverQuit driver) in
              (quit, t ++ emitted loop ++ [Called (DriverQuit driver) quit])
          end
      end
  end.
Proof.
  cbv zeta. unfold main. rewrite bind_run.
  destruct (main_urls w h) as [[urls|e] ts];
    cbn [result_of emitted fst snd]; [|done].
  rewrite bind_run.
  destruct (initialize_selenium w (h ++ ts)) as [[[driver|]|e] ti];
    cbn [result_of emitted fst snd]; [| |done].
  - rewrite bind_run, <- !app_assoc.
    destruct (for_each urls _ w (h ++ ts ++ ti)) as [[[]|e] tl];
      cbn [result_of emitted fst snd]; [|done].
    by rewrite perform_run, <- !app_assoc.
  - unfold ret. by rewrite app_nil_r.
Qed.

Lemma startup_no_url e : startup_entry e = true → url_of e = None.
Proof. destruct e as [X c r|]; [|done]. by destruct c. Qed.

Lemma startup_no_probe e : startup_entry e = true → no_probe_start e = true.
Proof.
  destruct e as [X c r|]; [|done]. destruct c; try done.
  match goal with s : session |- _ => by destruct s end.
Qed.

Lemma startup_no_main_quit e : startup_entry e = true → main_quit e = false.
Proof. destruct e as [X c r|]; [|done]. by destruct c. Qed.

Lemma startup_not_written t :
  all startup_entry t → Forall (λ e, store_call_url e = None) t.
Proof.
  unfold all. rewrite forallb_forall, Forall_forall.
  intros Ht e He%list_elem_of_In. specialize (Ht e He).
  destruct (store_call_url e) as [u|] eqn:Hw; [|done].
  apply store_call_url_of in Hw. by rewrite (startup_no_url e Ht) in Hw.
Qed.

(** The calls of [main] that are about a URL are about one it selected. *)
Lemma main_urls_of w h u :
  u ∈ urls_of (emitted (main w h)) →
  ∃ urls, result_of (main_urls w h) = Returned urls ∧ u ∈ urls.
Proof.
  rewrite main_run; cbv zeta.
  pose proof (main_urls_startup w h) as Hs.
  apply (urls_of_none _ _ startup_no_url) in Hs.
  destruct (main_urls w h) as [[urls|e] ts];
    cbn [result_of emitted fst snd] in *;
    [|rewrite Hs; by intros ?%elem_of_nil].
  pose proof (initialize_selenium_startup w (h ++ ts)) as Hi.
  apply (urls_of_none _ _ startup_no_url) in Hi.
  destruct (initialize_selenium w (h ++ ts)) as [[[driver|]|e] ti];
    cbn [result_of emitted fst snd] in *;
    [|rewrite urls_of_app, Hs, Hi; by intros ?%elem_of_nil..].
  pose proof (batch_urls_of w driver urls (h ++ ts ++ ti) u) as Hl.
  destruct (for_each urls _ w (h ++ ts ++ ti)) as [[[]|e] tl];
    cbn [result_of emitted fst snd] in *;
    rewrite !urls_of_app, Hs, Hi; simpl; rewrite ?app_nil_r;
    intros Hu; exists urls; by split; [|apply Hl].
Qed.

(** In a run of [main] the store accepts no URL twice. *)
Lemma main_inserted w h :
  (∀ urls, result_of (main_urls w h) = Returned urls → NoDup urls) →
  NoDup (inserted (emitted (main w h))).
Proof.
  rewrite main_run; cbv zeta.
  pose proof (main_urls_startup w h) as Hs.
  apply (urls_of_none _ _ startup_no_url) in Hs.
  assert (Hquiet : ∀ t, urls_of t = [] → inserted t = []).
  { intros t Ht. apply elem_of_nil_inv. intros u Hu%inserted_urls_of.
    rewrite Ht in Hu. by apply elem_of_nil in Hu. }
  apply Hquiet in Hs.
  destruct (main_urls w h) as [[urls|e] ts];
    cbn [result_of emitted fst snd] in *;
    [|intros _; rewrite Hs; constructor].
  intros Hnodup. specialize (Hnodup urls eq_refl).
  pose proof (initialize_selenium_startup w (h ++ ts)) as Hi.
  apply (urls_of_none _ _ startup_no_url), Hquiet in Hi.
  destruct (initialize_selenium w (h ++ ts)) as [[[driver|]|e] ti];
    cbn [result_of emitted fst snd] in *;
    [|rewrite inserted_app, Hs, Hi; constructor..].
  pose proof (batch_inserted w driver urls (h ++ ts ++ ti) Hnodup) as Hl.
  destruct (for_each urls _ w (h ++ ts ++ ti)) as [[[]|e] tl];
    cbn [result_of emitted fst snd] in *;
    rewrite !inserted_app, Hs, Hi; simpl; [|done].
  by rewrite app_nil_r.
Qed.

(** The probes of a run of [main]: none when the selection raises, at most
    one for each selected URL, and when [main] returns, one for each if the
    long-lived browser was quit and none otherwise. *)
Lemma main_probes w h :
  match result_of (main_urls w h) with
  | Returned urls =>
      (probes (emitted (main w h)) ≤ length urls)%nat
      ∧ (result_of (main w h) = Returned tt →
         probes (emitted (main w h))
         = if existsb main_quit (emitted (main w h)) then length urls
           else 0%nat)
  | Raised _ => probes (emitted (main w h)) = 0%nat
  end.
Proof.
  rewrite main_run; cbv zeta.
  pose proof (main_urls_startup w h) as Hs.
  pose proof (probes_none _ (all_impl _ _ _ startup_no_probe Hs)) as Hsp.
  pose proof (all_existsb_false _ _ _ startup_no_main_quit Hs) as Hsq.
  destruct (main_urls w h) as [[urls|e] ts];
    cbn [result_of emitted fst snd] in *; [|done].
  pose proof (initialize_selenium_startup w (h ++ ts)) as Hi.
  pose proof (probes_none _ (all_impl _ _ _ startup_no_probe Hi)) as Hip.
  pose proof (all_existsb_false _ _ _ startup_no_main_quit Hi) as Hiq.
  pose proof (initialize_selenium_driver w (h ++ ts)) as Hd.
  destruct (initialize_selenium w (h ++ ts)) as [[[driver|]|e] ti];
    cbn [result_of emitted fst snd] in *; cycle 1.
  { rewrite probes_app, existsb_app, Hsp, Hip, Hsq, Hiq. split; [lia|done]. }
  { rewrite probes_app, Hsp, Hip. split; [lia|done]. }
  specialize (Hd driver eq_refl). subst driver.
  destruct (batch_probes w MainSession urls (h ++ ts ++ ti)) as [Hle Heq].
  pose proof (always_for_each _ (all_closed no_main_quit) urls
                (λ u, process_url u MainSession) process_url_no_main_quit
                w (h ++ ts ++ ti)) as Hl.
  assert (Hlq : existsb main_quit
                  (emitted (for_each urls (λ u, process_url u MainSession)
                              w (h ++ ts ++ ti))) = false).
  { eapply all_existsb_false; [|exact Hl].
    intros e. unfold no_main_quit. by destruct (main_quit e). }
  destruct (for_each urls _ w (h ++ ts ++ ti)) as [[[]|e] tl];
    cbn [result_of emitted fst snd returned] in *.
  - assert (Hq : ∀ r, probes [Called (DriverQuit MainSession) r] = 0%nat)
      by done.
    rewrite !probes_app, !existsb_app, Hsp, Hip, Hq, (Heq eq_refl). simpl.
    rewrite !orb_true_r. split; [lia|]. intros _. lia.
  - rewrite !probes_app, Hsp, Hip. split; [lia|done].
Qed.

(** A run of [main] that returns after quitting the long-lived browser is
    the start-up calls, the runs of [process_url] for the selected URLs, one
    after the other, and the quit. *)
Lemma main_batch w h urls :
  result_of (main_urls w h) = Returned urls →
  result_of (main w h) = Returned tt →
  existsb main_quit (emitted (main w h)) = true →
  ∃ start,
    all startup_entry start
    ∧ emitted (main w h)
      = start ++ batch_trace w MainSession urls (h ++ start)
        ++ [Called (DriverQuit MainSession) (Returned tt)].
Proof.
  rewrite main_run; cbv zeta.
  pose proof (main_urls_startup w h) as Hs.
  pose proof (all_existsb_false _ _ _ startup_no_main_quit Hs) as Hsq.
  destruct (main_urls w h) as [[urls'|e] ts];
    cbn [result_of emitted fst snd] in *; [|done].
  intros [= ->].
  pose proof (initialize_selenium_startup w (h ++ ts)) as Hi.
  pose proof (all_existsb_false _ _ _ startup_no_main_quit Hi) as Hiq.
  pose proof (initialize_selenium_driver w (h ++ ts)) as Hd.
  destruct (initialize_selenium w (h ++ ts)) as [[[driver|]|e] ti];
    cbn [result_of emitted fst snd] in *; [| |done]; cycle 1.
  { intros _. by rewrite existsb_app, Hsq, Hiq. }
  specialize (Hd driver eq_refl). subst driver.
  pose proof (batch_returned w MainSession urls (h ++ ts ++ ti)) as Hl.
  destruct (for_each urls _ w (h ++ ts ++ ti)) as [[[]|e] tl];
    cbn [result_of emitted fst snd returned] in *; [|done].
  intros Hquit _. exists (ts ++ ti). split; [by apply all_app|].
  rewrite Hquit, (Hl eq_refl), <- !app_assoc. done.
Qed.

(** *** The store between the runs *)

Lemma held_extends w held h t u :
  keeps_records w held → u ∈ held h → u ∈ held (h ++ t).
Proof.
  intros K. induction t as [|e t IH] using rev_ind; [by rewrite app_nil_r|].
  intros Hu. rewrite app_assoc. by apply (records_kept _ _ K), IH.
Qed.

Lemma held_quiet w held h t u :
  keeps_records w held → Forall (λ e, store_call_url e = None) t →
  u ∈ held (h ++ t) → u ∈ held h.
Proof.
  intros K. induction t as [|e t IH] using rev_ind; [by rewrite app_nil_r|].
  rewrite Forall_app, Forall_singleton. intros [Ht He].
  rewrite app_assoc. intros Hu.
  apply (records_written _ _ K) in Hu as [Hu|Hw]; [by apply IH|congruence].
Qed.

Lemma held_prefix_size w held h h' :
  keeps_records w held → h `prefix_of` h' →
  (size (held h) ≤ size (held h'))%nat.
Proof.
  intros K [t ->]. apply subseteq_size. intros u. by apply (held_extends w).
Qed.

Lemma inserted_held w held h u :
  keeps_records w held → u ∈ inserted h → u ∈ held h.
Proof.
  intros K. induction h as [|e h IH] using rev_ind.
  - by intros ?%elem_of_nil.
  - rewrite inserted_app. intros [Hu|Hu]%elem_of_app.
    + by apply (records_kept _ _ K), IH.
    + apply (insert_kept _ _ K). unfold inserted in Hu. simpl in Hu.
      destruct (inserted_url e); simpl in Hu.
      * apply list_elem_of_singleton in Hu. by subst.
      * by apply elem_of_nil in Hu.
Qed.

Lemma elem_of_set_difference u new_urls db_urls :
  u ∈ set_difference new_urls db_urls ↔ u ∈ new_urls ∧ u ∉ db_urls.
Proof.
  unfold set_difference.
  rewrite elem_of_elements, elem_of_difference, !elem_of_list_to_set. done.
Qed.

Lemma NoDup_set_difference new_urls db_urls :
  NoDup (set_difference new_urls db_urls).
Proof. apply NoDup_elements. Qed.

(** What [main] selects: the URLs of the files of which the store holds no
    record. *)
Lemma main_urls_run w held files h :
  keeps_records w held → same_url_set w files →
  (∀ t0, t0 `prefix_of` emitted (main_urls w h) →
         (Z.of_nat (size (held (h ++ t0))) ≤ 1000000)%Z) →
  ∀ urls, result_of (main_urls w h) = Returned urls →
          NoDup urls ∧ ∀ u, u ∈ urls ↔ u ∈ files ∧ u ∉ held h.
Proof.
  intros K Hfiles.
  assert (Hsame : ∀ t u, all startup_entry t → u ∈ held (h ++ t) ↔ u ∈ held h).
  { intros t u Ht. split; [|by apply (held_extends w)].
    by apply (held_quiet w), startup_not_written. }
  remember (main_urls w h) as run eqn:Hrun. unfold main_urls in Hrun.
  rewrite bind_run, perform_run in Hrun.
  destruct (respond w unit h DbConnect) as [[]|e]; [|by subst run].
  rewrite bind_run, perform_run, !Hfiles in Hrun.
  rewrite bind_run, perform_run in Hrun.
  set (c := Called DbConnect (Returned ())) in Hrun.
  set (f := Called (GetUniqueUrlsFromCsvs "output" "url" 4 1000)
              (Returned files)) in Hrun.
  replace ((h ++ [c]) ++ [f]) with (h ++ [c; f]) in Hrun
    by by rewrite <- app_assoc.
  destruct (search_returns _ _ K (h ++ [c; f])) as (recs & Hs & Hrecs).
  rewrite !Hs in Hrun.
  set (s1 := Called (DbSearchUrls 1000000) (Returned recs)) in Hrun.
  destruct recs as [|rec recs'].
  - rewrite bind_run in Hrun. unfold ret in Hrun.
    cbn [fst snd app] in Hrun. subst run. cbn [emitted result_of fst snd].
    intros Hbound urls [= <-]. split; [apply NoDup_set_difference|].
    intros u. rewrite elem_of_set_difference.
    specialize (Hbound [c; f] ltac:(by eexists [s1])).
    rewrite <- (Hsame [c; f] u eq_refl), <- (Hrecs Hbound u). done.
  - rewrite !bind_run, perform_run in Hrun.
    replace ((h ++ [c; f]) ++ [s1]) with (h ++ [c; f; s1]) in Hrun
      by by rewrite <- app_assoc.
    destruct (search_returns _ _ K (h ++ [c; f; s1])) as (recs2 & Hs2 & Hrecs2).
    rewrite !Hs2 in Hrun.
    set (s2 := Called (DbSearchUrls 1000000) (Returned recs2)) in Hrun.
    destruct recs2 as [|rec2 recs2'].
    + subst run. by intros _ urls.
    + unfold ret in Hrun. cbn [fst snd app] in Hrun. subst run.
      cbn [emitted result_of fst snd].
      intros Hbound urls [= <-]. split; [apply NoDup_set_difference|].
      intros u. rewrite elem_of_set_difference.
      specialize (Hbound [c; f; s1] ltac:(by eexists [s2])).
      rewrite <- (Hsame [c; f; s1] u eq_refl), <- (Hrecs2 Hbound u). done.
Qed.

Lemma main_urls_prefix w h :
  emitted (main_urls w h) `prefix_of` emitted (main w h).
Proof.
  unfold main, emitted. rewrite bind_run.
  destruct (main_urls w h) as [[urls|e] ts]; [|done].
  destruct (bind initialize_selenium _ w (h ++ ts)) as [r t]. simpl.
  by apply prefix_app_r.
Qed.

Lemma world_keeping_store_keeps model_up :
  keeps_records (world_keeping_store model_up) (λ h, list_to_set (inserted h)).
Proof.
  split.
  - intros h. eexists. split; [reflexivity|]. intros _ u.
    rewrite <- list_fmap_compose.
    replace (url ∘ stored_record) with (@id string) by done.
    by rewrite list_fmap_id, elem_of_list_to_set.
  - intros h e u. rewrite !elem_of_list_to_set, inserted_app, elem_of_app.
    by left.
  - intros h e u He. rewrite elem_of_list_to_set, inserted_app, elem_of_app.
    right. unfold inserted. simpl. rewrite He. by left.
  - intros h e u. rewrite !elem_of_list_to_set, inserted_app, elem_of_app.
    intros [Hu|Hu]; [by left|right]. apply inserted_store_call.
    unfold inserted in Hu. simpl in Hu.
    destruct (inserted_url e); simpl in Hu.
    + apply list_elem_of_singleton in Hu. by subst.
    + by apply elem_of_nil in Hu.
Qed.

Lemma world_upsert_store_keeps :
  keeps_records world_upsert_store (λ h, list_to_set (written h)).
Proof.
  assert (Happ : ∀ t1 t2, written (t1 ++ t2) = written t1 ++ written t2)
    by (intros; apply omap_app).
  split.
  - intros h. eexists. split; [reflexivity|]. intros _ u.
    rewrite <- list_fmap_compose.
    replace (url ∘ stored_record) with (@id string) by done.
    by rewrite list_fmap_id, elem_of_list_to_set.
  - intros h e u. rewrite !elem_of_list_to_set, Happ, elem_of_app. by left.
  - intros h e u He. rewrite elem_of_list_to_set, Happ, elem_of_app.
    right. unfold written. simpl.
    destruct e as [X c r|]; [|done]. destruct c; try done.
    simpl in *. destruct (returned r); [|done].
    injection He as <-. by left.
  - intros h e u. rewrite !elem_of_list_to_set, Happ, elem_of_app.
    intros [Hu|Hu]; [by left|right]. apply written_store_call.
    unfold written in Hu. simpl in Hu.
    destruct (written_url e); simpl in Hu.
    + apply list_elem_of_singleton in Hu. by subst.
    + by apply elem_of_nil in Hu.
Qed.

(** C8 as stated fails: a URL is left out of the second run only when the
    store holds a record of it, and [process_text] leaves none when an
    exception is raised before the first write.  Here the chat engine cannot
    be opened: the first run processes the URL and writes nothing, and the
    second run, over the same files and a store that keeps what it accepted,
    processes the URL again. *)
Lemma rerun_reprocesses_unstored_url :
  keeps_records (world_keeping_store false) (λ h, list_to_set (inserted h))
  ∧ same_url_set (world_keeping_store false) ["https://example.org/a"]
  ∧ ¬ rerun_is_idle (world_keeping_store false) [].
Proof.
  split; [apply world_keeping_store_keeps|]. split; [done|].
  unfold rerun_is_idle. intros [Hprobes _].
  vm_compute in Hprobes. discriminate Hprobes.
Qed.

Example rerun_selection :
  result_of (main_urls (world_keeping_store false)
               (emitted (main (world_keeping_store false) [])))
  = Returned ["https://example.org/a"]
  ∧ probes (emitted (main (world_keeping_store false) [])) = 1%nat
  ∧ omap store_call_url (emitted (main (world_keeping_store false) [])) = []
  ∧ probes (emitted (main (world_keeping_store false)
                       (emitted (main (world_keeping_store false) []))))
    = 1%nat.
Proof. repeat split; vm_compute; reflexivity. Qed.

(** In a store that takes a field update for an upsert, the first run leaves
    a record of the URL by [update_field]; its [insert_url] is then
    rejected, and the second run still leaves the URL out. *)
Example rerun_after_upsert :
  let first := emitted (main world_upsert_store []) in
  written first = ["https://example.org/a"]
  ∧ inserted first = []
  ∧ existsb (λ e, match e with
                  | Called (DbInsertUrl _) (Raised (DatabaseError _)) => true
                  | _ => false
                  end) first = true
  ∧ result_of (main_urls world_upsert_store first) = Returned []
  ∧ probes (emitted (main world_upsert_store first)) = 0%nat.
Proof. repeat split; vm_compute; reflexivity. Qed.

(** C8, amended: the store returns the records it holds (no more than
    1000000), drops none, holds the record of every accepted [insert_url],
    and gets a record of a URL only after a store call that names this URL;
    the files yield the same URL set.  Then the second run of [main] selects
    exactly the URLs of the files of which the store holds no record; it
    starts at most as many probes as it selected URLs; when it returns
    after quitting the long-lived browser its trace is, between the start-up
    calls and the quit, the runs of [process_url] for the selected URLs, one
    after the other; and none of its calls is about a URL of which the store
    held a record, so a stored URL is never processed again.  When the
    store holds a record of every URL of the
    files after the first run, the second run selects none, probes none,
    makes no call about any URL and leaves the store as it was; and the
    store never accepts a record of the same URL twice. *)
Theorem rerun_skips_stored_urls w held files h :
  keeps_records w held → same_url_set w files →
  let h1 := h ++ emitted (main w h) in
  let rerun := main w h1 in
  let h2 := h1 ++ emitted rerun in
  (Z.of_nat (size (held h2)) ≤ 1000000)%Z →
  (∀ urls, result_of (main_urls w h1) = Returned urls →
           NoDup urls
           ∧ (∀ u, u ∈ urls ↔ u ∈ files ∧ u ∉ held h1)
           ∧ (probes (emitted rerun) ≤ length urls)%nat
           ∧ (result_of rerun = Returned tt →
              probes (emitted rerun)
              = if existsb main_quit (emitted rerun) then length urls
                else 0%nat)
           ∧ (result_of rerun = Returned tt →
              existsb main_quit (emitted rerun) = true →
              ∃ start,
                all startup_entry start
                ∧ emitted rerun
                  = start ++ batch_trace w MainSession urls (h1 ++ start)
                    ++ [Called (DriverQuit MainSession) (Returned tt)]))
  ∧ (∀ u, u ∈ urls_of (emitted rerun) → u ∈ files ∧ u ∉ held h1)
  ∧ ((∀ u, u ∈ files → u ∈ held h1) →
     (∀ urls, result_of (main_urls w h1) = Returned urls → urls = [])
     ∧ probes (emitted rerun) = 0%nat
     ∧ urls_of (emitted rerun) = []
     ∧ inserted h2 = inserted h1
     ∧ ∀ u, u ∈ held h2 ↔ u ∈ held h1)
  ∧ (NoDup (inserted h) → NoDup (inserted h2)).
Proof.
  intros K Hfiles h1 rerun h2 Hbound.
  assert (Hb1 : ∀ t0, t0 `prefix_of` emitted (main_urls w h1) →
                      (Z.of_nat (size (held (h1 ++ t0))) ≤ 1000000)%Z).
  { intros t0 Hp.
    assert (Hpre : h1 ++ t0 `prefix_of` h2).
    { apply prefix_app. etrans; [exact Hp|apply main_urls_prefix]. }
    pose proof (held_prefix_size w held _ _ K Hpre). lia. }
  assert (Hb0 : ∀ t0, t0 `prefix_of` emitted (main_urls w h) →
                      (Z.of_nat (size (held (h ++ t0))) ≤ 1000000)%Z).
  { intros t0 Hp.
    assert (Hpre : h ++ t0 `prefix_of` h2).
    { unfold h2. apply prefix_app_r. unfold h1. apply prefix_app.
      etrans; [exact Hp|apply main_urls_prefix]. }
    pose proof (held_prefix_size w held _ _ K Hpre). lia. }
  pose proof (main_urls_run w held files h K Hfiles Hb0) as Hsel0.
  pose proof (main_urls_run w held files h1 K Hfiles Hb1) as Hsel1.
  assert (Habout : ∀ u, u ∈ urls_of (emitted rerun) → u ∈ files ∧ u ∉ held h1).
  { intros u Hu. apply main_urls_of in Hu as (urls & Hr & Hu).
    by apply (Hsel1 urls Hr). }
  split; [|split; [exact Habout|split]].
  - intros urls Hr. destruct (Hsel1 urls Hr) as [Hnodup Hsel].
    pose proof (main_probes w h1) as Hp. rewrite Hr in Hp.
    destruct Hp as [Hle Heq].
    split; [done|]. split; [done|]. split; [done|]. split; [done|].
    by apply main_batch.
  - intros Hall.
    assert (Hnone : urls_of (emitted rerun) = []).
    { apply elem_of_nil_inv. intros u Hu.
      destruct (Habout u Hu) as [Hu1 Hu2]. by apply Hu2, Hall. }
    assert (Hempty : ∀ urls, result_of (main_urls w h1) = Returned urls →
                             urls = []).
    { intros urls Hr. apply elem_of_nil_inv. intros u Hu.
      apply (Hsel1 urls Hr) in Hu as [Hu Hfresh]. by apply Hfresh, Hall. }
    split; [exact Hempty|]. split; [|split; [exact Hnone|split]].
    + pose proof (main_probes w h1) as Hp.
      destruct (result_of (main_urls w h1)) as [urls|e] eqn:Hr; [|done].
      destruct Hp as [Hle _]. rewrite (Hempty urls eq_refl) in Hle.
      simpl in Hle. fold rerun in Hle. lia.
    + unfold h2. rewrite inserted_app.
      replace (inserted (emitted rerun)) with (@nil string);
        [by rewrite app_nil_r|].
      symmetry. apply elem_of_nil_inv. intros u Hu%inserted_urls_of.
      rewrite Hnone in Hu. by apply elem_of_nil in Hu.
    + intros u. split; [|by apply (held_extends w)].
      apply (held_quiet w); [done|].
      apply Forall_forall. intros e He.
      destruct (store_call_url e) as [u'|] eqn:Hw; [|done].
      apply store_call_url_of in Hw.
      assert (Hu' : u' ∈ urls_of (emitted rerun)).
      { unfold urls_of. rewrite list_elem_of_omap. by exists e. }
      rewrite Hnone in Hu'. by apply elem_of_nil in Hu'.
  - intros Hdup. unfold h2. rewrite inserted_app. apply NoDup_app.
    split; [|split].
    + unfold h1. rewrite inserted_app. apply NoDup_app.
      split; [done|split].
      * intros u Hu Hu0%inserted_urls_of.
        apply main_urls_of in Hu0 as (urls & Hr & Hu').
        apply (Hsel0 urls Hr) in Hu' as [_ Hfresh].
        by apply Hfresh, (inserted_held w).
      * apply main_inserted. intros urls Hr. by apply (Hsel0 urls Hr).
    + intros u Hu Hu1%inserted_urls_of.
      destruct (Habout u Hu1) as [_ Hfresh].
      by apply Hfresh, (inserted_held w).
    + apply main_inserted. intros urls Hr. by apply (Hsel1 urls Hr).
Qed.

Lemma rerun_skips_stored_urls_witness :
  let w := world_keeping_store true in
  let held := λ h, list_to_set (inserted h) : gset string in
  let files := ["https://example.org/a"] in
  let h1 := [] ++ emitted (main w []) in
  let rerun := main w h1 in
  let h2 := h1 ++ emitted rerun in
  (∀ urls, result_of (main_urls w h1) = Returned urls →
           NoDup urls
           ∧ (∀ u, u ∈ urls ↔ u ∈ files ∧ u ∉ held h1)
           ∧ (probes (emitted rerun) ≤ length urls)%nat
           ∧ (result_of rerun = Returned tt →
              probes (emitted rerun)
              = if existsb main_quit (emitted rerun) then length urls
                else 0%nat)
           ∧ (result_of rerun = Returned tt →
              existsb main_quit (emitted rerun) = true →
              ∃ start,
                all startup_entry start
                ∧ emitted rerun
                  = start ++ batch_trace w MainSession urls (h1 ++ start)
                    ++ [Called (DriverQuit MainSession) (Returned tt)]))
  ∧ (∀ u, u ∈ urls_of (emitted rerun) → u ∈ files ∧ u ∉ held h1)
  ∧ ((∀ u, u ∈ files → u ∈ held h1) →
     (∀ urls, result_of (main_urls w h1) = Returned urls → urls = [])
     ∧ probes (emitted rerun) = 0%nat
     ∧ urls_of (emitted rerun) = []
     ∧ inserted h2 = inserted h1
     ∧ ∀ u, u ∈ held h2 ↔ u ∈ held h1)
  ∧ (NoDup (inserted []) → NoDup (inserted h2)).
Proof.
  apply (rerun_skips_stored_urls (world_keeping_store true)
           (λ h, list_to_set (inserted h)) ["https://example.org/a"] []).
  - apply world_keeping_store_keeps.
  - intros h. reflexivity.
  - rewrite size_list_to_set; vm_compute; [discriminate|].
    apply NoDup_singleton.
Defined.

(** The run of the witness: the first run stores the URL, the second selects
    nothing and probes nothing. *)
Example rerun_after_storing :
  inserted (emitted (main (world_keeping_store true) []))
  = ["https://example.org/a"]
  ∧ result_of (main_urls (world_keeping_store true)
                 (emitted (main (world_keeping_store true) [])))
    = Returned []
  ∧ probes (emitted (main (world_keeping_store true)
                       (emitted (main (world_keeping_store true) [])))) = 0%nat.
Proof. repeat split; vm_compute; reflexivity. Qed.

(** * Further properties of the pipeline *)

(** ** The load with retries *)

Lemma fetch_loop_rounds w driver u delay attempts h :
  ∃ msgs : list string,
    let rounds := mjoin (timed_out_round driver u delay <$> msgs) in
    (length msgs = length attempts
     ∧ fetch_loop driver u delay attempts w h = (Returned false, rounds))
    ∨ ((length msgs < length attempts)%nat
       ∧ ∃ r, is_timeout r = false
              ∧ r = respond w unit (h ++ rounds) (DriverGet driver u)
              ∧ fetch_loop driver u delay attempts w h
                = (load_verdict r, rounds ++ [Called (DriverGet driver u) r])).
Proof.
  revert h. induction attempts as [|attempt rest IH]; intros h.
  { exists []. by left. }
  rewrite fetch_loop_cons; cbv zeta.
  destruct (respond w unit h (DriverGet driver u)) as [[]|e] eqn:Hr.
  { exists []. right. simpl. split; [lia|].
    exists (Returned tt). by rewrite app_nil_r, Hr. }
  assert (Hend : is_timeout (Raised (A:=unit) e) = false →
            ∃ msgs : list string,
              let rounds := mjoin (timed_out_round driver u delay <$> msgs) in
              (length msgs < length (attempt :: rest))%nat
              ∧ ∃ r, is_timeout r = false
                     ∧ r = respond w unit (h ++ rounds) (DriverGet driver u)
                     ∧ (load_verdict (Raised e),
                        [Called (DriverGet driver u) (Raised e)])
                       = (load_verdict r, rounds ++ [Called (DriverGet driver u) r])).
  { intros He. exists []. simpl. split; [lia|].
    exists (Raised e). by rewrite app_nil_r, Hr. }
  destruct e as [m|m|m|m|m|m];
    try (destruct Hend as [msgs Hend]; [done|]; exists msgs; right; exact Hend).
  destruct (IH (h ++ [Called (DriverGet driver u) (Raised (TimeoutException m));
                      Slept (inject_Z delay)])) as [msgs [[Hlen Hrun]|[Hlen Hrun]]];
    exists (m :: msgs); cbn zeta in *.
  - left. rewrite Hrun. simpl. by rewrite Hlen.
  - right. split; [simpl; lia|].
    destruct Hrun as (r & Ht & Hr' & Hrun). exists r.
    rewrite Hrun. simpl. rewrite <- app_assoc in Hr'. simpl in Hr'. done.
Qed.

(** X1: a run of [fetch_url_with_retries] is a number of timed-out loads,
    each followed by a sleep of five seconds, and then either nothing (three
    timeouts: [False], with a sleep after the last attempt too) or one last
    load that did not time out and decides the result: [True] when it
    returned, [False] on a driver fault, and any other exception is passed
    on. *)
Theorem fetch_url_with_retries_rounds w driver u h :
  ∃ msgs : list string,
    let rounds := mjoin (timed_out_round driver u 5 <$> msgs) in
    (length msgs = 3%nat
     ∧ fetch_url_with_retries driver u w h = (Returned false, rounds))
    ∨ ((length msgs < 3)%nat
       ∧ ∃ r, is_timeout r = false
              ∧ r = respond w unit (h ++ rounds) (DriverGet driver u)
              ∧ fetch_url_with_retries driver u w h
                = (load_verdict r, rounds ++ [Called (DriverGet driver u) r])).
Proof. apply (fetch_loop_rounds w driver u 5 (seqZ 1 3) h). Qed.

(** X2: an exception of the page load that is neither a timeout nor a driver
    fault is handled nowhere: [process_url] raises it right after the failed
    load, without inserting a record for the URL, and the loop of [main] ends
    there, leaving the URLs that follow unprocessed. *)
Theorem unexpected_load_error_escapes w u driver h e rest :
  let probe := is_url_accessible u w h in
  let failed := [Called (DriverGet driver u) (Raised e)] in
  result_of probe = Returned true →
  respond w unit (h ++ emitted probe) (DriverGet driver u) = Raised e →
  is_driver_fault e = false →
  process_url u driver w h = (Raised e, emitted probe ++ failed)
  ∧ for_each (u :: rest) (λ u, process_url u driver) w h
    = (Raised e, emitted probe ++ failed).
Proof.
  intros probe failed Hprobe Hload He.
  assert (Hrun : process_url u driver w h = (Raised e, emitted probe ++ failed)).
  { rewrite process_url_run; cbv zeta. fold probe. rewrite Hprobe.
    unfold fetch_url_with_retries. change (seqZ 1 3) with [1; 2; 3].
    rewrite fetch_loop_cons; cbv zeta. rewrite Hload.
    by destruct e. }
  split; [done|].
  cbn [for_each]. by rewrite bind_run, Hrun.
Qed.

Lemma unexpected_load_error_escapes_witness :
  let e := OtherException "Max retries exceeded: Connection refused" in
  let probe := is_url_accessible "https://example.org/a" world_driver_gone [] in
  let failed := [Called (DriverGet MainSession "https://example.org/a") (Raised e)] in
  process_url "https://example.org/a" MainSession world_driver_gone []
  = (Raised e, emitted probe ++ failed)
  ∧ for_each ["https://example.org/a"; "https://example.org/b"]
      (λ u, process_url u MainSession) world_driver_gone []
    = (Raised e, emitted probe ++ failed).
Proof.
  apply (unexpected_load_error_escapes world_driver_gone "https://example.org/a"
           MainSession [] _ ["https://example.org/b"]); reflexivity.
Defined.

(** ** The start and the end of [main] *)

(** X3: when the long-lived browser cannot be started, [main] returns
    normally after the start-up calls: no URL is probed, nothing is stored
    and no browser is quit, whatever URLs were selected. *)
Theorem main_without_driver w h urls :
  let selection := emitted (main_urls w h) in
  let start := initialize_selenium w (h ++ selection) in
  result_of (main_urls w h) = Returned urls →
  result_of start = Returned None →
  main w h = (Returned tt, selection ++ emitted start)
  ∧ existsb raised_entry (emitted start) = true
  ∧ all startup_entry (emitted (main w h))
  ∧ probes (emitted (main w h)) = 0%nat
  ∧ inserted (emitted (main w h)) = []
  ∧ existsb main_quit (emitted (main w h)) = false.
Proof.
  intros selection start Hsel Hstart.
  assert (Hrun : main w h = (Returned tt, selection ++ emitted start)).
  { unfold main. rewrite bind_run.
    subst selection start. destruct (main_urls w h) as [r ts]; simpl in *.
    subst r. rewrite bind_run.
    destruct (initialize_selenium w (h ++ ts)) as [r' ti]; simpl in *.
    subst r'. simpl. by rewrite app_nil_r. }
  assert (Hall : all startup_entry (emitted (main w h))).
  { rewrite Hrun. apply all_app. split;
      [apply main_urls_startup|apply initialize_selenium_startup]. }
  split; [done|]. split.
  { subst start. revert Hstart. generalize (h ++ selection). intros h'.
    unfold initialize_selenium.
    rewrite try_except_run, !bind_run, !perform_run.
    destruct (respond w unit h' (ChromeNew MainSession)); simpl; [|done].
    rewrite bind_run, perform_run.
    by destruct (respond w unit _ (SetPageLoadTimeout MainSession 30)). }
  split; [done|]. split; [|split].
  - unfold probes. erewrite filter_none; [done| |exact Hall].
    intros e. destruct e as [X c r|]; [|done].
    destruct c; try done.
    match goal with s : session |- _ => by destruct s end.
  - eapply inserted_none; [|exact Hall].
    intros e. destruct e as [X c r|]; [|done]. by destruct c.
  - eapply all_existsb_false; [|exact Hall].
    intros e. destruct e as [X c r|]; [|done]. by destruct c.
Qed.

Lemma main_without_driver_witness :
  let selection := emitted (main_urls world_no_browser []) in
  let start := initialize_selenium world_no_browser ([] ++ selection) in
  main world_no_browser [] = (Returned tt, selection ++ emitted start)
  ∧ existsb raised_entry (emitted start) = true
  ∧ all startup_entry (emitted (main world_no_browser []))
  ∧ probes (emitted (main world_no_browser [])) = 0%nat
  ∧ inserted (emitted (main world_no_browser [])) = []
  ∧ existsb main_quit (emitted (main world_no_browser [])) = false.
Proof.
  apply (main_without_driver world_no_browser [] ["https://example.org/a"]);
    reflexivity.
Defined.

(** The selection itself can raise: when the store answers the second
    [search_urls] with no record, [['url']] raises [KeyError], and [main]
    ends before any browser is started. *)
Example main_second_reading_empty :
  main world_vanishing_record []
  = (Raised (OtherException "KeyError: 'url'"),
     [Called DbConnect (Returned tt);
      Called (GetUniqueUrlsFromCsvs "output" "url" 4 1000)
        (Returned ["https://example.org/a"]);
      Called (DbSearchUrls 1000000)
        (Returned [negative_record "https://example.org/b" "example"]);
      Called (DbSearchUrls 1000000) (Returned [])]).
Proof. vm_compute. reflexivity. Qed.

(** X4: once the URLs are selected and the long-lived browser is started,
    [main] calls [driver.quit()] exactly when the loop over the URLs ran to
    its end: an exception that escapes [process_url] ends [main] with that
    exception and leaves the browser running. *)
Theorem main_quits_driver_after_whole_batch w h urls :
  let h1 := h ++ emitted (main_urls w h) in
  let h2 := h1 ++ emitted (initialize_selenium w h1) in
  let loop := for_each urls (λ u, process_url u MainSession) w h2 in
  result_of (main_urls w h) = Returned urls →
  result_of (initialize_selenium w h1) = Returned (Some MainSession) →
  existsb main_quit (emitted (main w h)) = returned (result_of loop)
  ∧ (∀ e, result_of loop = Raised e → result_of (main w h) = Raised e).
Proof.
  intros h1 h2 loop Hsel Hstart.
  pose proof (main_urls_startup w h) as Hs.
  pose proof (initialize_selenium_startup w h1) as Hi.
  pose proof (always_for_each _ (all_closed no_main_quit) urls
                (λ u, process_url u MainSession) process_url_no_main_quit w h2)
    as Hl.
  assert (Hquiet : ∀ t, all startup_entry t → existsb main_quit t = false).
  { intros t. apply all_existsb_false.
    intros e. destruct e as [X c r|]; [|done]. by destruct c. }
  assert (Hloop : existsb main_quit (emitted loop) = false).
  { eapply all_existsb_false; [|exact Hl].
    intros e. unfold no_main_quit. by destruct (main_quit e). }
  unfold main. rewrite bind_run.
  subst loop h2 h1. destruct (main_urls w h) as [r ts]; simpl in *. subst r.
  rewrite bind_run.
  destruct (initialize_selenium w (h ++ ts)) as [r' ti]; simpl in *. subst r'.
  rewrite bind_run.
  destruct (for_each urls _ w ((h ++ ts) ++ ti)) as [[[]|e] tl]; simpl in *.
  - split; [|done]. rewrite !existsb_app. simpl. by rewrite !orb_true_r.
  - split; [|by intros ? [= ->]].
    rewrite !existsb_app, (Hquiet _ Hs), (Hquiet _ Hi), Hloop. done.
Qed.

Lemma main_quits_driver_after_whole_batch_witness :
  let w := world_store_down in
  let h1 := [] ++ emitted (main_urls w []) in
  let h2 := h1 ++ emitted (initialize_selenium w h1) in
  let loop := for_each ["https://example.org/a"; "https://example.org/b"]
                (λ u, process_url u MainSession) w h2 in
  existsb main_quit (emitted (main w [])) = returned (result_of loop)
  ∧ (∀ e, result_of loop = Raised e → result_of (main w []) = Raised e).
Proof.
  apply (main_quits_driver_after_whole_batch world_store_down []
           ["https://example.org/a"; "https://example.org/b"]); reflexivity.
Defined.

(** ** Throwaway browsers *)

(** X5: the browser that [is_url_accessible] starts is quit exactly when
    [driver.title] was read, and the browser that [extract_with_selenium]
    starts exactly when [driver.page_source] was read.  So a browser whose
    [driver.get] raised is never quit: the handler only logs the error. *)
Theorem throwaway_browser_quit_after_read w u h :
  let probe := emitted (is_url_accessible u w h) in
  let tier := emitted (extract_with_selenium u w h) in
  existsb probe_quit probe = existsb title_read probe
  ∧ existsb tier_quit tier = existsb source_read tier
  ∧ (existsb load_raised probe = true →
     existsb started probe = true ∧ existsb probe_quit probe = false)
  ∧ (existsb load_raised tier = true →
     existsb started tier = true ∧ existsb tier_quit tier = false).
Proof.
  cbv zeta.
  assert (Hprobe :
    existsb probe_quit (emitted (is_url_accessible u w h))
    = existsb title_read (emitted (is_url_accessible u w h))
    ∧ (existsb load_raised (emitted (is_url_accessible u w h)) = true →
       existsb started (emitted (is_url_accessible u w h)) = true
       ∧ existsb probe_quit (emitted (is_url_accessible u w h)) = false)).
  { unfold is_url_accessible.
    rewrite try_except_run, !bind_run, perform_run.
    destruct (respond w unit h (ChromeNew ProbeSession)) as [[]|]; [|done].
    rewrite bind_run, perform_run.
    destruct (respond w unit _ (DriverGet ProbeSession u)) as [[]|]; [|done].
    rewrite bind_run, perform_run.
    destruct (respond w string _ (DriverTitle ProbeSession)); [|done].
    rewrite bind_run, perform_run.
    by destruct (respond w unit _ (DriverQuit ProbeSession)). }
  assert (Htier :
    existsb tier_quit (emitted (extract_with_selenium u w h))
    = existsb source_read (emitted (extract_with_selenium u w h))
    ∧ (existsb load_raised (emitted (extract_with_selenium u w h)) = true →
       existsb started (emitted (extract_with_selenium u w h)) = true
       ∧ existsb tier_quit (emitted (extract_with_selenium u w h)) = false)).
  { unfold extract_with_selenium, or_empty.
    rewrite bind_run, try_except_run, !bind_run, perform_run.
    destruct (respond w unit h (ChromeNew TierSession)) as [[]|]; [|done].
    rewrite bind_run, perform_run.
    destruct (respond w unit _ (DriverGet TierSession u)) as [[]|]; [|done].
    rewrite !bind_run. cbn [sleep]. rewrite bind_run, perform_run.
    destruct (respond w string _ (DriverPageSource TierSession)); [|done].
    rewrite bind_run, perform_run.
    destruct (respond w unit _ (DriverQuit TierSession)); [|done].
    rewrite bind_run. unfold lift.
    destruct (readability_text w _); [|done].
    by destruct (_ <=? _)%nat. }
  destruct Hprobe as [Hp1 Hp2], Htier as [Ht1 Ht2]. done.
Qed.

(** ** Selecting the new URLs *)

(** X6: [get_new_urls] returns, without duplicates, the new URLs that are
    not among those of the records [search_urls] returned.  When the store
    returns no record at all the frame has no [url] column and the function
    raises [KeyError] instead of returning the new URLs. *)
Theorem get_new_urls_selection w new_urls h :
  let opened := Called DbConnect (respond w unit h DbConnect) in
  let reply := respond w (list url_record) (h ++ [opened]) (DbSearchUrls 1000000) in
  let searched := Called (DbSearchUrls 1000000) reply in
  match respond w unit h DbConnect with
  | Raised e => get_new_urls new_urls w h = (Raised e, [opened])
  | Returned _ =>
      emitted (get_new_urls new_urls w h) = [opened; searched]
      ∧ match reply with
        | Raised e => result_of (get_new_urls new_urls w h) = Raised e
        | Returned [] =>
            result_of (get_new_urls new_urls w h)
            = Raised (OtherException "KeyError: 'url'")
        | Returned recs =>
            ∃ urls, result_of (get_new_urls new_urls w h) = Returned urls
                    ∧ NoDup urls
                    ∧ ∀ u, u ∈ urls ↔ u ∈ new_urls ∧ u ∉ url <$> recs
        end
  end.
Proof.
  cbv zeta. unfold get_new_urls. rewrite bind_run, perform_run.
  destruct (respond w unit h DbConnect) as [[]|e]; [|done].
  rewrite bind_run, perform_run.
  destruct (respond w (list url_record) _ (DbSearchUrls 1000000))
    as [[|rec recs]|e]; [done| |done].
  split; [done|]. eexists. split; [done|].
  split; [apply NoDup_set_difference|intros u'; apply elem_of_set_difference].
Qed.

(** ** The validated prompt call *)

Lemma failed_attempt_does_not_validate w cls reply e :
  attempt_outcome w cls reply = Raised e →
  validates w cls (λ _, true) reply = false.
Proof.
  unfold attempt_outcome, validates.
  destruct reply; [|done]. by intros ->.
Qed.

Lemma gvr_loop_attempts p cls base attempts w h :
  let run := gvr_loop p cls base attempts w h in
  (chat_attempts (emitted run) ≤ length attempts)%nat
  ∧ (attempts ≠ [] → (1 ≤ chat_attempts (emitted run))%nat)
  ∧ (length (sleeps (emitted run)) ≤ chat_attempts (emitted run))%nat
  ∧ match result_of run with
    | Returned (Some data) =>
        ∃ pre reply,
          emitted run = pre ++ [Called (Chat p) reply]
          ∧ attempt_outcome w cls reply = Returned data
          ∧ existsb (attempt_validates w cls) pre = false
    | Returned None => existsb (attempt_validates w cls) (emitted run) = false
    | Raised _ => False
    end.
Proof.
  cbv zeta. revert h. induction attempts as [|attempt rest IH]; intros h.
  { unfold chat_attempts, sleeps. cbn.
    split; [lia|]. split; [done|]. split; [lia|done]. }
  rewrite gvr_loop_cons; cbv zeta.
  set (reply := respond w string h (Chat p)).
  destruct (attempt_outcome w cls reply) as [data|e] eqn:Hv.
  { unfold chat_attempts, sleeps. cbn.
    split; [lia|]. split; [lia|]. split; [lia|]. by exists [], reply. }
  pose proof (failed_attempt_does_not_validate w cls reply e Hv) as Hf.
  destruct (is_terminal e).
  { unfold chat_attempts, sleeps. cbn. rewrite Hf.
    split; [lia|]. split; [lia|]. split; [lia|done]. }
  destruct (is_request_error e).
  - specialize (IH (h ++ [Called (Chat p) reply])).
    destruct (gvr_loop p cls base rest w _) as [r t].
    unfold chat_attempts in *. cbn [emitted snd result_of fst] in *.
    destruct IH as (Hle & _ & Hs & Hres). simpl.
    split; [lia|]. split; [lia|]. split; [lia|].
    destruct r as [[data|]|]; [|by rewrite Hf|done].
    destruct Hres as (pre & reply' & -> & Hok & Hpre).
    exists (Called (Chat p) reply :: pre), reply'.
    split; [done|]. split; [done|]. simpl. by rewrite Hf.
  - match goal with |- context [gvr_loop p cls base rest w ?hh] =>
      specialize (IH hh) end.
    destruct (gvr_loop p cls base rest w _) as [r t].
    unfold chat_attempts in *. cbn [emitted snd result_of fst] in *.
    destruct IH as (Hle & _ & Hs & Hres). simpl.
    split; [lia|]. split; [lia|]. split; [lia|].
    destruct r as [[data|]|]; [|by rewrite Hf|done].
    destruct Hres as (pre & reply' & -> & Hok & Hpre).
    eexists (Called (Chat p) reply :: Slept _ :: pre), reply'.
    split; [done|]. split; [done|]. simpl. by rewrite Hf.
Qed.

(** X7: in every run [get_validated_response] returns (it never raises),
    sends its prompt at least once and at most five times, and sleeps at most
    once per attempt.  The data it returns are those of its last attempt, and
    no earlier reply validated; when it returns [None], no reply
    validated. *)
Theorem get_validated_response_attempts w h key p cls :
  let run := get_validated_response key p cls w h in
  (1 ≤ chat_attempts (emitted run) ≤ 5)%nat
  ∧ (length (sleeps (emitted run)) ≤ chat_attempts (emitted run))%nat
  ∧ match result_of run with
    | Returned (Some data) =>
        ∃ pre reply,
          emitted run = pre ++ [Called (Chat p) reply]
          ∧ attempt_outcome w cls reply = Returned data
          ∧ existsb (attempt_validates w cls) pre = false
    | Returned None => existsb (attempt_validates w cls) (emitted run) = false
    | Raised _ => False
    end.
Proof.
  cbv zeta. unfold get_validated_response.
  destruct (gvr_loop_attempts p cls 5 (seqZ 0 5) w h) as (Hle & Hge & Hs & Hres).
  split; [split; [by apply Hge|exact Hle]|]. by split.
Qed.

(** ** Incident verification *)

Lemma chat_entries_no_update p t :
  all (chat_entry p) t →
  List.filter is_update t = [] ∧ ∀ u v, existsb (recorded_status u v) t = false.
Proof.
  intros Ht. split.
  - eapply filter_none; [|exact Ht].
    intros e. destruct e as [X c r|]; [|done]. by destruct c.
  - intros u v. eapply all_existsb_false; [|exact Ht].
    intros e. destruct e as [X c r|]; [|done]. by destruct c.
Qed.

(** X8: [verify_incident] raises only when the store cannot be opened.  The
    status it returns is 1, 0 or -2, and it is 1 (or 0) exactly when
    [update_field(url, "actual_incident", 1)] (or 0) went through: a yes or
    no of the model whose update fails counts as unresolved.  Incidents come
    only with status 1, and at most one update is issued. *)
Theorem verify_incident_status w u h :
  let run := verify_incident u w h in
  match result_of run with
  | Raised e => emitted run = [Called DbConnect (Raised e)]
  | Returned (status, incidents) =>
      (status = 1 ∨ status = 0 ∨ status = -2)
      ∧ (status = 1 ↔ existsb (recorded_status u 1) (emitted run) = true)
      ∧ (status = 0 ↔ existsb (recorded_status u 0) (emitted run) = true)
      ∧ (status ≠ 1 → incidents = [])
      ∧ (length (List.filter is_update (emitted run)) ≤ 1)%nat
  end.
Proof.
  cbv zeta. unfold verify_incident. rewrite bind_run, perform_run.
  destruct (respond w unit h DbConnect) as [[]|e]; [|done].
  rewrite try_except_run, bind_run.
  set (h1 := h ++ _).
  pose proof (get_validated_response_chat "incident_prompt"
                SHORT_PROMPTS.incident_prompt IncidentResponse w h1) as Hc.
  apply chat_entries_no_update in Hc as [Hnone Hrec].
  pose proof (gvr_loop_result SHORT_PROMPTS.incident_prompt IncidentResponse 5
                (seqZ 0 5) w h1) as Hg.
  unfold get_validated_response in *.
  destruct (gvr_loop _ _ _ _ w h1) as [[[data|]|e] tg];
    cbn [emitted snd result_of fst] in *; [| |done].
  - destruct (String.eqb (lower (answer data)) "no") eqn:Hno.
    + rewrite bind_run, perform_run.
      destruct (respond w unit _ (DbUpdateField u "actual_incident" 0));
        simpl; rewrite ?app_nil_r, ?existsb_app, ?List.filter_app, ?Hrec, ?Hnone;
        simpl; rewrite ?String.eqb_refl; simpl;
        (split; [auto|]); repeat split; try done; lia.
    + destruct (String.eqb (lower (answer data)) "yes") eqn:Hyes.
      * rewrite bind_run, perform_run.
        destruct (respond w unit _ (DbUpdateField u "actual_incident" 1));
          simpl; rewrite ?app_nil_r, ?existsb_app, ?List.filter_app, ?Hrec, ?Hnone;
          simpl; rewrite ?String.eqb_refl; simpl;
          (split; [auto|]); repeat split; try done; lia.
      * simpl. rewrite ?app_nil_r, ?existsb_app, ?List.filter_app, ?Hrec, ?Hnone.
        simpl. (split; [auto|]); repeat split; try done; lia.
  - simpl. rewrite ?app_nil_r, ?existsb_app, ?List.filter_app, ?Hrec, ?Hnone.
    simpl. (split; [auto|]); repeat split; try done; lia.
Qed.

(** ** Detail forms *)

(** X9: [populate_suspect_forms_table] raises only when the store cannot be
    opened.  It inserts a form only at the end of one run: the chat engine
    replied, the reply validated with the suspect's name put under [name],
    [get_url_id] returned an id and [get_suspect_id] was asked with that id;
    the form goes in under these two ids.  In particular nothing is inserted
    when the URL has no id. *)
Theorem populate_suspect_forms_table_insert w u suspect h :
  let run := populate_suspect_forms_table u suspect w h in
  match result_of run with
  | Raised e => emitted run = [Called DbConnect (Raised e)]
  | Returned _ =>
      existsb is_suspect_form_insert (emitted run) = true →
      ∃ reply fields url_id suspect_id stored,
        form_validate w SuspectFormResponse suspect reply = Returned fields
        ∧ emitted run
          = [Called DbConnect (Returned tt);
             Called (Chat (suspect_form_prompt suspect)) (Returned reply);
             Called (DbGetUrlId u) (Returned (Some url_id));
             Called (DbGetSuspectId (Some url_id) suspect) (Returned suspect_id);
             Called (DbInsertSuspectForm url_id
                       {| form_name := suspect; form_fields := fields |}
                       suspect_id) stored]
  end.
Proof.
  cbv zeta. remember (populate_suspect_forms_table u suspect w h) as run eqn:Hrun.
  unfold populate_suspect_forms_table in Hrun.
  rewrite bind_run, perform_run in Hrun.
  destruct (respond w unit h DbConnect) as [[]|e]; [|by subst run].
  rewrite try_except_run, bind_run, perform_run in Hrun.
  destruct (respond w string _ (Chat _)) as [reply|]; [|by subst run].
  rewrite bind_run in Hrun. unfold lift at 1 in Hrun.
  destruct (form_validate w SuspectFormResponse suspect reply) as [fields|] eqn:Hf;
    [|by subst run].
  rewrite bind_run, perform_run in Hrun.
  destruct (respond w (option Z) _ (DbGetUrlId u)) as [url_id|]; [|by subst run].
  rewrite bind_run, perform_run in Hrun.
  destruct (respond w (option Z) _ (DbGetSuspectId url_id suspect))
    as [suspect_id|]; [|by subst run].
  destruct url_id as [id|]; [|by subst run].
  rewrite perform_run in Hrun.
  destruct (respond w unit _ (DbInsertSuspectForm _ _ _)) as [[]|e'];
    subst run; intros _; by eexists reply, fields, id, suspect_id, _.
Qed.

(** X10: the same for [populate_victim_forms_table]: it raises only when the
    store cannot be opened, and a victim form is inserted only at the end of
    the one run in which the reply validated, [get_url_id] returned an id and
    [get_victim_id] was asked with that id. *)
Theorem populate_victim_forms_table_insert w u victim h :
  let run := populate_victim_forms_table u victim w h in
  match result_of run with
  | Raised e => emitted run = [Called DbConnect (Raised e)]
  | Returned _ =>
      existsb is_victim_form_insert (emitted run) = true →
      ∃ reply fields url_id victim_id stored,
        form_validate w VictimFormResponse victim reply = Returned fields
        ∧ emitted run
          = [Called DbConnect (Returned tt);
             Called (Chat (victim_form_prompt victim)) (Returned reply);
             Called (DbGetUrlId u) (Returned (Some url_id));
             Called (DbGetVictimId (Some url_id) victim) (Returned victim_id);
             Called (DbInsertVictimForm url_id
                       {| form_name := victim; form_fields := fields |}
                       victim_id) stored]
  end.
Proof.
  cbv zeta. remember (populate_victim_forms_table u victim w h) as run eqn:Hrun.
  unfold populate_victim_forms_table in Hrun.
  rewrite bind_run, perform_run in Hrun.
  destruct (respond w unit h DbConnect) as [[]|e]; [|by subst run].
  rewrite try_except_run, bind_run, perform_run in Hrun.
  destruct (respond w string _ (Chat _)) as [reply|]; [|by subst run].
  rewrite bind_run in Hrun. unfold lift at 1 in Hrun.
  destruct (form_validate w VictimFormResponse victim reply) as [fields|] eqn:Hf;
    [|by subst run].
  rewrite bind_run, perform_run in Hrun.
  destruct (respond w (option Z) _ (DbGetUrlId u)) as [url_id|]; [|by subst run].
  rewrite bind_run, perform_run in Hrun.
  destruct (respond w (option Z) _ (DbGetVictimId url_id victim))
    as [victim_id|]; [|by subst run].
  destruct url_id as [id|]; [|by subst run].
  rewrite perform_run in Hrun.
  destruct (respond w unit _ (DbInsertVictimForm _ _ _)) as [[]|e'];
    subst run; intros _; by eexists reply, fields, id, victim_id, _.
Qed.

(** ** The loops over the candidates *)

(** An insert under [except DatabaseError], then a computation under
    [except Exception]. *)
Lemma guarded_insert_run (ins : call unit) (m : M unit) w h :
  (except_database_error (perform ins);; try_except m (λ _, ret tt)) w h
  = let r := respond w unit h ins in
    let e := Called ins r in
    if insert_passes r then (Returned tt, e :: emitted (m w (h ++ [e])))
    else (r, [e]).
Proof.
  rewrite bind_run. unfold except_database_error.
  rewrite try_except_run, perform_run. cbv zeta.
  destruct (respond w unit h ins) as [[]|e]; simpl.
  - rewrite try_except_run. destruct (m w _) as [[[]|] t]; simpl; [done|].
    by rewrite app_nil_r.
  - destruct e; simpl; try done.
    rewrite try_except_run.
    destruct (m w _) as [[[]|] t]; simpl; [done|]. by rewrite app_nil_r.
Qed.

(** The pass of the suspects loop for a confirmed name. *)
Lemma suspects_loop_confirmed w u url_id name rest h :
  let c := Called (LlmComplete (confirm_prompt name))
             (respond w string h (LlmComplete (confirm_prompt name))) in
  let stored := respond w unit (h ++ [c]) (DbInsertSuspect url_id name) in
  let ins := Called (DbInsertSuspect url_id name) stored in
  confirms w name c = true →
  suspects_loop u url_id (name :: rest) w h
  = if insert_passes stored then
      let form := emitted (populate_suspect_forms_table u name w (h ++ [c; ins])) in
      let nap := Slept (uniform w (h ++ c :: ins :: form) 1 3) in
      let '(r, t) := suspects_loop u url_id rest w (h ++ c :: ins :: form ++ [nap]) in
      (r, c :: ins :: form ++ nap :: t)
    else (stored, [c; ins]).
Proof.
  intros c stored ins Hc. cbn [suspects_loop].
  rewrite bind_run, confirm_natural_name_run; cbv zeta. fold c. rewrite Hc.
  rewrite bind_run, guarded_insert_run; cbv zeta. fold stored. fold ins.
  destruct (insert_passes stored) eqn:Hp;
    [|subst ins; clearbody stored; by destruct stored].
  cbn [emitted snd]. rewrite bind_run. unfold random_uniform at 1.
  rewrite bind_run. cbn [sleep].
  rewrite <- ?app_assoc. simpl. rewrite <- ?app_assoc. simpl.
  by destruct (suspects_loop u url_id rest w _) as [r t].
Qed.

(** X11: what happens to a suspect whose name was confirmed.  When
    [insert_suspect] returns, or fails with a [DatabaseError], the form is
    filled, the loop pauses and goes on to the next candidate.  Any other
    exception of the insert ends the loop at once: no form, no pause, and the
    candidates that follow are never examined. *)
Theorem confirmed_suspect_run w u url_id name rest h :
  let c := Called (LlmComplete (confirm_prompt name))
             (respond w string h (LlmComplete (confirm_prompt name))) in
  let stored := respond w unit (h ++ [c]) (DbInsertSuspect url_id name) in
  let ins := Called (DbInsertSuspect url_id name) stored in
  confirms w name c = true →
  suspects_loop u url_id (name :: rest) w h
  = if insert_passes stored then
      let form := emitted (populate_suspect_forms_table u name w (h ++ [c; ins])) in
      let nap := Slept (uniform w (h ++ c :: ins :: form) 1 3) in
      let '(r, t) := suspects_loop u url_id rest w (h ++ c :: ins :: form ++ [nap]) in
      (r, c :: ins :: form ++ nap :: t)
    else (stored, [c; ins]).
Proof. apply suspects_loop_confirmed. Qed.

Lemma confirmed_suspect_run_witness :
  let w := world_insert_fault (OtherException "Error binding parameter 0") in
  let c := Called (LlmComplete (confirm_prompt "John Doe")) (Returned "{...}") in
  let ins := Called (DbInsertSuspect (Some 1) "John Doe")
               (Raised (OtherException "Error binding parameter 0")) in
  suspects_loop "https://example.org/a" (Some 1) ["John Doe"; "Jane Roe"] w []
  = (Raised (OtherException "Error binding parameter 0"), [c; ins]).
Proof.
  apply (confirmed_suspect_run
           (world_insert_fault (OtherException "Error binding parameter 0"))
           "https://example.org/a" (Some 1) "John Doe" ["Jane Roe"] []).
  reflexivity.
Defined.

(** The pass of the victims loop for a confirmed name. *)
Lemma victims_loop_confirmed w u url_id name rest h :
  let c := Called (LlmComplete (confirm_prompt name))
             (respond w string h (LlmComplete (confirm_prompt name))) in
  let stored := respond w unit (h ++ [c]) (DbInsertVictim url_id name) in
  let ins := Called (DbInsertVictim url_id name) stored in
  confirms w name c = true →
  victims_loop u url_id (name :: rest) w h
  = if insert_passes stored then
      let form := emitted (populate_victim_forms_table u name w (h ++ [c; ins])) in
      let '(r, t) := victims_loop u url_id rest w (h ++ c :: ins :: form) in
      (r, c :: ins :: form ++ t)
    else (stored, [c; ins]).
Proof.
  intros c stored ins Hc. cbn [victims_loop].
  rewrite bind_run, confirm_natural_name_run; cbv zeta. fold c. rewrite Hc.
  rewrite bind_run, guarded_insert_run; cbv zeta. fold stored. fold ins.
  destruct (insert_passes stored) eqn:Hp;
    [|subst ins; clearbody stored; by destruct stored].
  cbn [emitted snd].
  rewrite <- !app_assoc. simpl.
  destruct (victims_loop u url_id rest w _) as [r t]. simpl. done.
Qed.

(** X12: the same for a victim whose name was confirmed, but for the pause:
    the victims loop has none. *)
Theorem confirmed_victim_run w u url_id name rest h :
  let c := Called (LlmComplete (confirm_prompt name))
             (respond w string h (LlmComplete (confirm_prompt name))) in
  let stored := respond w unit (h ++ [c]) (DbInsertVictim url_id name) in
  let ins := Called (DbInsertVictim url_id name) stored in
  confirms w name c = true →
  victims_loop u url_id (name :: rest) w h
  = if insert_passes stored then
      let form := emitted (populate_victim_forms_table u name w (h ++ [c; ins])) in
      let '(r, t) := victims_loop u url_id rest w (h ++ c :: ins :: form) in
      (r, c :: ins :: form ++ t)
    else (stored, [c; ins]).
Proof. apply victims_loop_confirmed. Qed.

Lemma confirmed_victim_run_witness :
  let w := world_insert_fault (DatabaseError "database is locked") in
  let c := Called (LlmComplete (confirm_prompt "Jane Roe")) (Returned "{...}") in
  let ins := Called (DbInsertVictim (Some 1) "Jane Roe")
               (Raised (DatabaseError "database is locked")) in
  let form := emitted (populate_victim_forms_table "https://example.org/a"
                         "Jane Roe" w [c; ins]) in
  victims_loop "https://example.org/a" (Some 1) ["Jane Roe"] w []
  = (Returned tt, c :: ins :: form)
  ∧ existsb is_victim_form_insert form = true.
Proof.
  split; [|reflexivity].
  apply (confirmed_victim_run
           (world_insert_fault (DatabaseError "database is locked"))
           "https://example.org/a" (Some 1) "Jane Roe" [] []).
  reflexivity.
Defined.

Lemma sleeps_app t1 t2 : sleeps (t1 ++ t2) = sleeps t1 ++ sleeps t2.
Proof. apply omap_app. Qed.

Lemma sleeps_none (q : entry → bool) t :
  (∀ e, q e = true → is_sleep e = false) → all q t → sleeps t = [].
Proof.
  intros Hq. unfold all. induction t as [|e t IH]; simpl; [done|].
  intros [He Ht]%andb_true_iff. specialize (Hq e He).
  unfold sleeps in *. simpl. destruct e; [|done]. by apply IH.
Qed.

Lemma victims_loop_no_sleep u url_id victims :
  always (λ _, all no_sleep) (victims_loop u url_id victims).
Proof.
  induction victims as [|name rest IH]; [apply always_ret, all_closed|].
  cbn [victims_loop].
  unfold confirm_natural_name, except_database_error,
    populate_victim_forms_table.
  always_with (all_closed no_sleep) ltac:(first [entry_facts|apply IH]).
Qed.

(** X13: the suspects loop pauses once after every candidate it examined,
    confirmed or not: a loop that returns slept as many times as there are
    candidates, one that raised fewer times.  The victims loop never
    sleeps. *)
Theorem pause_after_each_suspect w u url_id names h :
  let run := suspects_loop u url_id names w h in
  match result_of run with
  | Returned _ => length (sleeps (emitted run)) = length names
  | Raised _ => (length (sleeps (emitted run)) < length names)%nat
  end
  ∧ sleeps (emitted (victims_loop u url_id names w h)) = [].
Proof.
  cbv zeta. split.
  - revert h. induction names as [|name rest IH]; intros h; [done|].
    set (c := Called (LlmComplete (confirm_prompt name))
                (respond w string h (LlmComplete (confirm_prompt name)))).
    destruct (confirms w name c) eqn:Hc.
    + rewrite (suspects_loop_confirmed w u url_id name rest h Hc); cbv zeta.
      fold c. destruct (insert_passes _) eqn:Hp.
      * pose proof (populate_suspect_forms_table_entries u name w
                      (h ++ [c; Called (DbInsertSuspect url_id name)
                                  (respond w unit (h ++ [c])
                                     (DbInsertSuspect url_id name))])) as Hform.
        apply sleeps_none in Hform; [|by intros [X c' r'|]].
        match goal with |- context [suspects_loop u url_id rest w ?hh] =>
          specialize (IH hh) end.
        destruct (suspects_loop u url_id rest w _) as [r t].
        cbn [result_of emitted fst snd] in *.
        change (c :: ?i :: ?f ++ ?n :: t) with ([c; i] ++ f ++ [n] ++ t).
        rewrite !sleeps_app, Hform. simpl.
        destruct r; simpl; lia.
      * destruct (respond w unit _ _) as [[]|e']; [done|].
        unfold sleeps. simpl. lia.
    + rewrite (refused_suspect_skipped u url_id name rest w h Hc); cbv zeta.
      fold c.
      match goal with |- context [suspects_loop u url_id rest w ?hh] =>
        specialize (IH hh) end.
      destruct (suspects_loop u url_id rest w _) as [r t].
      cbn [result_of emitted fst snd] in *. simpl.
      destruct r; simpl; lia.
  - eapply sleeps_none; [|apply victims_loop_no_sleep].
    intros e. unfold no_sleep. by destruct (is_sleep e).
Qed.

Lemma chat_entries_no_confirmation p t :
  all (chat_entry p) t → existsb is_llm_complete t = false.
Proof.
  apply all_existsb_false.
  intros e. destruct e as [X c r|]; [|done]. by destruct c.
Qed.

Lemma chat_entry_quiet p e :
  chat_entry p e = true → negb (examines_or_writes e) = true.
Proof. destruct e as [X c r|]; [|done]. by destruct c. Qed.

(** A run of [upload_suspects]: calls that examine no name and write
    nothing, and then, if anything at all, the loop over the names, which
    starts only once the model gave names and the id of the URL was read. *)
Lemma upload_suspects_names w u h :
  let run := upload_suspects u w h in
  (∀ e, result_of run = Raised e → emitted run = [Called DbConnect (Raised e)])
  ∧ ∃ t1 t2,
      emitted run = t1 ++ t2
      ∧ all (λ e, negb (examines_or_writes e)) t1
      ∧ (t2 = []
         ∨ existsb (chat_reply w SuspectResponse SHORT_PROMPTS.suspect_prompt
                      names_given) t1 = true
           ∧ existsb (url_id_read u) t1 = true).
Proof.
  cbv zeta. remember (upload_suspects u w h) as run eqn:Hrun.
  unfold upload_suspects in Hrun. rewrite bind_run, perform_run in Hrun.
  destruct (respond w unit h DbConnect) as [[]|e].
  2: { subst run. split; [by intros ? [= ->]|]. eexists _, [].
       split; [by rewrite app_nil_r|]. by split; [|left]. }
  rewrite try_except_run, bind_run in Hrun.
  set (h1 := h ++ _) in Hrun.
  pose proof (get_validated_response_chat "suspect_prompt"
                SHORT_PROMPTS.suspect_prompt SuspectResponse w h1) as Hc.
  apply (all_impl _ _ _ (chat_entry_quiet _)) in Hc.
  pose proof (gvr_loop_result SHORT_PROMPTS.suspect_prompt SuspectResponse 5
                (seqZ 0 5) w h1) as Hg.
  unfold get_validated_response in *.
  destruct (gvr_loop _ _ _ _ w h1) as [[[data|]|e] tg];
    cbn [emitted snd result_of fst] in *; [| |done].
  2: { subst run. split; [done|]. eexists _, [].
       split; [by rewrite app_nil_r|]. split; [|by left].
       simpl. rewrite ?app_nil_r. by apply (all_app _ [_]). }
  destruct (String.eqb (lower (answer data)) "yes") eqn:Hyes.
  2: { subst run. split; [done|]. eexists _, [].
       split; [by rewrite app_nil_r|]. split; [|by left].
       simpl. rewrite ?app_nil_r. by apply (all_app _ [_]). }
  rewrite bind_run, perform_run in Hrun.
  destruct (respond w (option Z) _ (DbGetUrlId u)) as [url_id|e].
  2: { subst run. split; [done|]. eexists _, [].
       split; [by rewrite app_nil_r|]. split; [|by left].
       simpl. rewrite ?app_nil_r.
       apply (all_app _ [_]). split; [done|]. apply all_app. by split. }
  destruct (evidence_or_empty data) as [|name rest] eqn:Hev.
  { subst run. split; [done|]. eexists _, [].
    split; [by rewrite app_nil_r|]. split; [|by left].
    simpl. rewrite ?app_nil_r.
    apply (all_app _ [_]). split; [done|]. apply all_app. by split. }
  assert (Hn : names_given data = true)
    by (unfold names_given, says_yes; by rewrite Hyes, Hev).
  specialize (Hg names_given Hn).
  set (t1 := [Called DbConnect (Returned ())] ++ tg
             ++ [Called (DbGetUrlId u) (Returned url_id)]).
  assert (Ht1 : all (λ e, negb (examines_or_writes e)) t1).
  { apply (all_app _ [_]). split; [done|]. apply all_app. by split. }
  assert (Hg1 : existsb (chat_reply w SuspectResponse
                           SHORT_PROMPTS.suspect_prompt names_given) t1 = true).
  { unfold t1. rewrite !existsb_app, Hg. by rewrite orb_true_r. }
  assert (Hg2 : existsb (url_id_read u) t1 = true).
  { unfold t1. rewrite !existsb_app. simpl. rewrite String.eqb_refl.
    by rewrite !orb_true_r. }
  destruct (suspects_loop u url_id (name :: rest) w _) as [[[]|e] tl];
    subst run; (split; [done|]); exists t1, tl;
    (split; [unfold t1; simpl; by rewrite ?app_nil_r, <- ?app_assoc|]);
    split; [done|by right|done|by right].
Qed.

Lemma upload_victims_names w u h :
  let run := upload_victims u w h in
  (∀ e, result_of run = Raised e → emitted run = [Called DbConnect (Raised e)])
  ∧ ∃ t1 t2,
      emitted run = t1 ++ t2
      ∧ all (λ e, negb (examines_or_writes e)) t1
      ∧ (t2 = []
         ∨ existsb (chat_reply w VictimResponse SHORT_PROMPTS.victim_prompt
                      names_given) t1 = true
           ∧ existsb (url_id_read u) t1 = true).
Proof.
  cbv zeta. remember (upload_victims u w h) as run eqn:Hrun.
  unfold upload_victims in Hrun. rewrite bind_run, perform_run in Hrun.
  destruct (respond w unit h DbConnect) as [[]|e].
  2: { subst run. split; [by intros ? [= ->]|]. eexists _, [].
       split; [by rewrite app_nil_r|]. by split; [|left]. }
  rewrite try_except_run, bind_run in Hrun.
  set (h1 := h ++ _) in Hrun.
  pose proof (get_validated_response_chat "victim_prompt"
                SHORT_PROMPTS.victim_prompt VictimResponse w h1) as Hc.
  apply (all_impl _ _ _ (chat_entry_quiet _)) in Hc.
  pose proof (gvr_loop_result SHORT_PROMPTS.victim_prompt VictimResponse 5
                (seqZ 0 5) w h1) as Hg.
  unfold get_validated_response in *.
  destruct (gvr_loop _ _ _ _ w h1) as [[[data|]|e] tg];
    cbn [emitted snd result_of fst] in *; [| |done].
  2: { subst run. split; [done|]. eexists _, [].
       split; [by rewrite app_nil_r|]. split; [|by left].
       simpl. rewrite ?app_nil_r. by apply (all_app _ [_]). }
  destruct (String.eqb (lower (answer data)) "yes") eqn:Hyes.
  2: { subst run. split; [done|]. eexists _, [].
       split; [by rewrite app_nil_r|]. split; [|by left].
       simpl. rewrite ?app_nil_r. by apply (all_app _ [_]). }
  rewrite bind_run, perform_run in Hrun.
  destruct (respond w (option Z) _ (DbGetUrlId u)) as [url_id|e].
  2: { subst run. split; [done|]. eexists _, [].
       split; [by rewrite app_nil_r|]. split; [|by left].
       simpl. rewrite ?app_nil_r.
       apply (all_app _ [_]). split; [done|]. apply all_app. by split. }
  destruct (evidence_or_empty data) as [|name rest] eqn:Hev.
  { subst run. split; [done|]. eexists _, [].
    split; [by rewrite app_nil_r|]. split; [|by left].
    simpl. rewrite ?app_nil_r.
    apply (all_app _ [_]). split; [done|]. apply all_app. by split. }
  assert (Hn : names_given data = true)
    by (unfold names_given, says_yes; by rewrite Hyes, Hev).
  specialize (Hg names_given Hn).
  set (t1 := [Called DbConnect (Returned ())] ++ tg
             ++ [Called (DbGetUrlId u) (Returned url_id)]).
  assert (Ht1 : all (λ e, negb (examines_or_writes e)) t1).
  { apply (all_app _ [_]). split; [done|]. apply all_app. by split. }
  assert (Hg1 : existsb (chat_reply w VictimResponse
                           SHORT_PROMPTS.victim_prompt names_given) t1 = true).
  { unfold t1. rewrite !existsb_app, Hg. by rewrite orb_true_r. }
  assert (Hg2 : existsb (url_id_read u) t1 = true).
  { unfold t1. rewrite !existsb_app. simpl. rewrite String.eqb_refl.
    by rewrite !orb_true_r. }
  destruct (victims_loop u url_id (name :: rest) w _) as [[[]|e] tl];
    subst run; (split; [done|]); exists t1, tl;
    (split; [unfold t1; simpl; by rewrite ?app_nil_r, <- ?app_assoc|]);
    split; [done|by right|done|by right].
Qed.

(** What follows for a trace that is quiet until its guards occurred. *)
Lemma guarded_after_quiet (g p : entry → bool) t1 t2 :
  all (λ e, negb (p e)) t1 → (t2 = [] ∨ existsb g t1 = true) →
  guarded_by g p (t1 ++ t2)
  ∧ (existsb p (t1 ++ t2) = true → existsb g (t1 ++ t2) = true).
Proof.
  intros Hq [-> | Hg].
  - rewrite app_nil_r. split; [by apply guarded_by_free|].
    erewrite all_existsb_false; [done| |exact Hq].
    intros e. simpl. by destruct (p e).
  - split; [apply guarded_by_after; [by apply guarded_by_free|done]|].
    intros _. by rewrite existsb_app, Hg.
Qed.

(** X14: [upload_suspects] and [upload_victims] raise only when the store
    cannot be opened; every later failure is logged.  A name is put to the
    confirmation query, and a row about a person is written, only after the
    model answered the suspect (victim) query with yes and at least one name
    and only after [get_url_id] returned: each such step has both events
    before it in the trace.  With a no, with no names, or with a failing
    look-up of the id, no name is examined and nothing is written. *)
Theorem upload_examines_names_after_yes w u h :
  let suspects := upload_suspects u w h in
  let victims := upload_victims u w h in
  let named cls p := chat_reply w cls p names_given in
  ((∀ e, result_of suspects = Raised e →
         emitted suspects = [Called DbConnect (Raised e)])
   ∧ guarded_by (named SuspectResponse SHORT_PROMPTS.suspect_prompt)
       examines_or_writes (emitted suspects)
   ∧ guarded_by (url_id_read u) examines_or_writes (emitted suspects)
   ∧ (existsb examines_or_writes (emitted suspects) = true →
      existsb (named SuspectResponse SHORT_PROMPTS.suspect_prompt)
        (emitted suspects) = true
      ∧ existsb (url_id_read u) (emitted suspects) = true))
  ∧ ((∀ e, result_of victims = Raised e →
           emitted victims = [Called DbConnect (Raised e)])
     ∧ guarded_by (named VictimResponse SHORT_PROMPTS.victim_prompt)
         examines_or_writes (emitted victims)
     ∧ guarded_by (url_id_read u) examines_or_writes (emitted victims)
     ∧ (existsb examines_or_writes (emitted victims) = true →
        existsb (named VictimResponse SHORT_PROMPTS.victim_prompt)
          (emitted victims) = true
        ∧ existsb (url_id_read u) (emitted victims) = true)).
Proof.
  cbv zeta. split.
  - destruct (upload_suspects_names w u h) as (Hraise & t1 & t2 & Heq & Hq & Hg).
    split; [exact Hraise|]. rewrite Heq.
    destruct (guarded_after_quiet
                (chat_reply w SuspectResponse SHORT_PROMPTS.suspect_prompt
                   names_given) examines_or_writes t1 t2 Hq) as [G1 E1];
      [destruct Hg as [?|[? ?]]; auto|].
    destruct (guarded_after_quiet (url_id_read u) examines_or_writes t1 t2 Hq)
      as [G2 E2]; [destruct Hg as [?|[? ?]]; auto|].
    split; [exact G1|]. split; [exact G2|]. intros He. split; auto.
  - destruct (upload_victims_names w u h) as (Hraise & t1 & t2 & Heq & Hq & Hg).
    split; [exact Hraise|]. rewrite Heq.
    destruct (guarded_after_quiet
                (chat_reply w VictimResponse SHORT_PROMPTS.victim_prompt
                   names_given) examines_or_writes t1 t2 Hq) as [G1 E1];
      [destruct Hg as [?|[? ?]]; auto|].
    destruct (guarded_after_quiet (url_id_read u) examines_or_writes t1 t2 Hq)
      as [G2 E2]; [destruct Hg as [?|[? ?]]; auto|].
    split; [exact G1|]. split; [exact G2|]. intros He. split; auto.
Qed.

(** A confirmed suspect: the confirmation query and the writes come after
    the suspect query and the look-up of the id. *)
Example upload_suspects_order :
  (λ e, match e with
        | Called c _ =>
            match c with
            | DbConnect => "connect" | Chat _ => "chat"
            | DbGetUrlId _ => "get_url_id" | LlmComplete _ => "confirm"
            | DbInsertSuspect _ _ => "insert_suspect"
            | DbGetSuspectId _ _ => "get_suspect_id"
            | DbInsertSuspectForm _ _ _ => "insert_suspect_form"
            | _ => "other"
            end
        | Slept _ => "sleep"
        end)
  <$> emitted (upload_suspects "https://example.org/a"
                 (world_incident true ["John Doe"]) [])
  = ["connect"; "chat"; "get_url_id"; "confirm"; "insert_suspect"; "connect";
     "chat"; "get_url_id"; "get_suspect_id"; "insert_suspect_form"; "sleep"].
Proof. vm_compute. reflexivity. Qed.

(** ** The records of [process_url] *)

Lemma extract_main_text_tier_output u w h text :
  result_of (extract_main_text u w h) = Returned text → tier_output text.
Proof.
  destruct (extract_main_text_run w u h) as (s3 & _ & Hs3 & _ & ->).
  pose proof (accepted_tier_output (respond w string h (NewspaperText u))) as H1.
  set (reply2 := respond w (Z * string)%type _ (RequestsGet u 10)).
  pose proof (accepted_tier_output (readability_raw w reply2)) as H2.
  repeat case_match; by intros [= <-].
Qed.

Lemma record_ok_of (q : entry → bool) u domain t :
  (∀ e, q e = true → stage e ≠ Some 0) → all q t → all (record_ok u domain) t.
Proof.
  intros Hq. apply all_impl. intros e He. specialize (Hq e He).
  destruct e as [X c r|]; [|done]. by destruct c.
Qed.

Lemma staged_not_url k e : k ≠ 0 → staged k e = true → stage e ≠ Some 0.
Proof.
  intros Hk. unfold staged. destruct (stage e) as [s|]; [|done].
  intros Hs%Z.eqb_eq [= ->]. done.
Qed.

(** What [process_text] does once verification gave a status. *)
Lemma record_tail_ok u domain text status incidents :
  meets_threshold text = true →
  status = 1 ∨ status = 0 ∨ status = -2 →
  always (λ _, all (record_ok u domain))
    (let result :=
       {| url := u; domain_name := domain; source := "google_search";
          content := text; actual_incident := status; accessible := 1 |} in
     perform (DbInsertUrl result);;
     url_id ← perform (DbGetUrlId u);
     if (actual_incident result =? 1)%Z then
       for_each incidents (λ incident, perform (DbInsertIncident url_id incident));;
       upload_suspects u;;
       upload_victims u
     else ret tt).
Proof.
  intros Htext Hstatus. cbv zeta.
  pose proof (all_closed (record_ok u domain)) as HP.
  apply (always_bind _ HP).
  { apply always_perform. intros _ r. unfold all. simpl.
    unfold consistent_record. simpl. rewrite !String.eqb_refl, Htext.
    by destruct Hstatus as [->|[->| ->]]. }
  intros _. apply (always_bind _ HP); [by apply always_perform|].
  intros url_id. cbn [actual_incident]. destruct (status =? 1)%Z.
  - apply (always_bind _ HP).
    { eapply always_impl; [|apply for_each_incidents_staged].
      intros e He. apply (staged_not_url 1) in He; [|done].
      destruct e as [X c r|]; [|done]. by destruct c. }
    intros _. apply (always_bind _ HP).
    { eapply always_impl; [|apply upload_suspects_staged].
      intros e He. apply (staged_not_url 2) in He; [|done].
      destruct e as [X c r|]; [|done]. by destruct c. }
    intros _.
    eapply always_impl; [|apply upload_victims_staged].
    intros e He. apply (staged_not_url 3) in He; [|done].
    destruct e as [X c r|]; [|done]. by destruct c.
  - apply always_ret, HP.
Qed.

Lemma all_cons (q : entry → bool) e t : q e = true → all q t → all q (e :: t).
Proof. unfold all. simpl. by intros -> ->. Qed.

Lemma process_text_records u domain text w h :
  meets_threshold text = true →
  all (record_ok u domain) (emitted (process_text u domain text w h)).
Proof.
  intros Htext. unfold process_text.
  rewrite bind_run, try_except_run, bind_run, perform_run.
  assert (Hpause : ∀ t h',
            all (record_ok u domain) t →
            all (record_ok u domain)
              (emitted (let '(r, t') := (pause ← random_uniform 1 3; sleep pause) w h'
                        in (r, t ++ t')))).
  { intros t h' Ht. rewrite pause_run. simpl. apply all_app. by split. }
  assert (Hverify : ∀ t, all (verify_entry u) t → all (record_ok u domain) t).
  { intros t. apply record_ok_of.
    intros e' He'. destruct e' as [X c r|]; [|done]. by destruct c. }
  destruct (respond w unit h (OpenChatEngine text)) as [[]|e].
  2: { simpl. done. }
  rewrite bind_run.
  set (h1 := h ++ _).
  pose proof (verify_incident_verdict u w h1) as Hv.
  pose proof (verify_incident_entries u w h1) as He.
  destruct (verify_incident u w h1) as [[[status incidents]|e] tv];
    cbn [emitted snd result_of fst] in *.
  2: { simpl. apply (Hpause (_ :: _)).
       rewrite app_nil_r. apply all_cons; [done|]. by apply Hverify. }
  assert (Hstatus : status = 1 ∨ status = 0 ∨ status = -2).
  { destruct Hv as [[(-> & _)|[->| ->]] _]; auto. }
  pose proof (record_tail_ok u domain text status incidents Htext Hstatus w
                (h1 ++ tv)) as Htail.
  cbv zeta in Htail.
  destruct (bind (perform (DbInsertUrl _)) _ w (h1 ++ tv)) as [[[]|e] tt].
  - simpl. apply (Hpause (_ :: _ ++ _)). apply all_cons; [done|].
    apply all_app. split; [by apply Hverify|done].
  - simpl. apply (Hpause (_ :: (_ ++ _) ++ _)). apply all_cons; [done|].
    rewrite app_nil_r. apply all_app. split; [by apply Hverify|done].
Qed.

(** X15: every record that [process_url] hands to [insert_url] is a record
    of that URL, with the domain [tldextract] gave and the source
    [google_search]; it is either the negative record (not accessible, no
    content, status -1) or an accessible one whose content has at least
    [MIN_TEXT_LENGTH] characters and whose status is 1, 0 or -2.  So status
    -1 never goes with a text, and an accessible record never has an empty or
    short content. *)
Theorem inserted_records_are_consistent w u driver h :
  all (record_ok u (tld_domain w u)) (emitted (process_url u driver w h)).
Proof.
  rewrite process_url_run; cbv zeta.
  pose proof (is_url_accessible_acquisition u w h) as Hprobe.
  assert (Hacq : ∀ t, all acquisition_entry t →
                      all (record_ok u (tld_domain w u)) t).
  { intros t. apply record_ok_of.
    intros e He. destruct e as [X c r|]; [|done]. by destruct c. }
  assert (Hneg : ∀ r, all (record_ok u (tld_domain w u))
                        [Called (DbInsertUrl (negative_record u (tld_domain w u))) r]).
  { intros r. unfold all. simpl. unfold consistent_record. simpl.
    by rewrite !String.eqb_refl. }
  destruct (result_of (is_url_accessible u w h)) as [[]|e];
    cbn [emitted snd]; [| |by apply Hacq].
  2: { apply all_app. split; [by apply Hacq|apply Hneg]. }
  set (h1 := h ++ _).
  pose proof (fetch_url_with_retries_acquisition driver u w h1) as Hload.
  destruct (result_of (fetch_url_with_retries driver u w h1)) as [[]|e];
    cbn [emitted snd].
  2: { rewrite !all_app. split; [split; by apply Hacq|apply Hneg]. }
  2: { rewrite !all_app. split; by apply Hacq. }
  set (h2 := h ++ _ ++ _).
  pose proof (extract_main_text_acquisition u w h2) as Htext.
  pose proof (extract_main_text_tier_output u w h2) as Hout.
  destruct (result_of (extract_main_text u w h2)) as [text|e];
    cbn [emitted snd].
  2: { rewrite !all_app. repeat split; by apply Hacq. }
  specialize (Hout text eq_refl). apply tier_output_truthy in Hout.
  destruct (truthy text); cbn [emitted snd].
  - rewrite !all_app. repeat split; try by apply Hacq.
    apply process_text_records. by rewrite <- Hout.
  - rewrite !all_app. repeat split; try by apply Hacq. apply Hneg.
Qed.

(** * The search functions *)

Lemma google_search_run {item} (api : search_api item) query api_key cse_id
    start num h :
  let run := google_search api query api_key cse_id start num h in
  match run.1 with
  | Raised e =>
      run.2 = [Built api_key (Raised e)]
      ∨ run.2 = [Built api_key (Returned tt);
                 Executed query cse_id num start (HttpError (Raised e))]
  | Returned items =>
      requests run.2 = [(query, cse_id, num, start)]
      ∧ result_pages run.2 = [items]
      ∧ pauses run.2 = []
      ∧ existsb escaped run.2 = false
  end.
Proof.
  cbv zeta. unfold google_search.
  destruct (build api h api_key) as [[]|e]; [|by left].
  destruct (execute api _ query cse_id num start) as [[items|]|[content|e]|e];
    try done.
  by right.
Qed.

Lemma requests_app {item} (t1 t2 : list (search_entry item)) :
  requests (t1 ++ t2) = requests t1 ++ requests t2.
Proof. apply omap_app. Qed.

Lemma result_pages_app {item} (t1 t2 : list (search_entry item)) :
  result_pages (t1 ++ t2) = result_pages t1 ++ result_pages t2.
Proof. apply omap_app. Qed.

Lemma pauses_app {item} (t1 t2 : list (search_entry item)) :
  pauses (t1 ++ t2) = pauses t1 ++ pauses t2.
Proof. apply omap_app. Qed.

(** The loop over the pages: the requests go through a prefix of the pages,
    every page but the last one requested has items, a second is slept after
    each of these, and the results are the pages put together. *)
Lemma fetch_pages_run {item} (api : search_api item) query api_key cse_id
    num pages results h :
  let run := fetch_pages api query api_key cse_id num pages results h in
  ∃ n,
    (n ≤ length pages)%nat
    ∧ requests run.2
      = (λ page, (query, cse_id, num, 1 + page * num)) <$> take n pages
    ∧ match run.1 with
      | Raised e =>
          ∃ pre last, run.2 = pre ++ [last]
                      ∧ escapes last = Some e
                      ∧ existsb escaped pre = false
      | Returned out =>
          out = results ++ mjoin (result_pages run.2)
          ∧ existsb escaped run.2 = false
          ∧ ∃ full,
              Forall (λ page, page ≠ []) full
              ∧ pauses run.2 = (λ _, 1%Q) <$> full
              ∧ (result_pages run.2 = full
                 ∨ (result_pages run.2 = full ++ [[]]
                    ∧ (length full < length pages)%nat))
      end.
Proof.
  cbv zeta. revert results h.
  induction pages as [|page rest IH]; intros results h.
  { exists 0%nat. simpl. split; [done|]. split; [done|].
    rewrite app_nil_r. split; [done|]. split; [done|]. exists []. auto. }
  cbn [fetch_pages]; cbv zeta.
  pose proof (google_search_run api query api_key cse_id (1 + page * num) num h)
    as Hg. cbv zeta in Hg.
  destruct (google_search api query api_key cse_id (1 + page * num) num h)
    as [[items|e] t]; cbn [fst snd] in *.
  2: { destruct Hg as [->| ->].
       - exists 0%nat. split; [simpl; lia|]. split; [done|].
         by exists [], (Built api_key (Raised e)).
       - exists 1%nat. split; [simpl; lia|]. split; [done|].
         by eexists [Built api_key (Returned tt)], _. }
  destruct Hg as (Hreq & Hpages & Hpauses & Hbuilt).
  destruct items as [|item1 items].
  { exists 1%nat. cbn [fst snd]. rewrite Hreq, Hpages. simpl.
    split; [lia|]. split; [done|]. rewrite app_nil_r.
    split; [done|]. split; [done|]. exists []. rewrite Hpauses.
    split; [done|]. split; [done|]. right. split; [done|]. simpl. lia. }
  specialize (IH (results ++ item1 :: items) (h ++ t ++ [Paused 1%Q])).
  destruct IH as (n & Hn & Hreqs & Hres).
  destruct (fetch_pages _ _ _ _ _ _ _ _) as [r t']; cbn [fst snd] in *.
  exists (S n). split; [simpl; lia|]. split.
  { change (t ++ Paused 1%Q :: t') with (t ++ [Paused 1%Q] ++ t').
    rewrite !requests_app, Hreq, Hreqs. done. }
  destruct r as [out|e].
  - destruct Hres as (-> & Hb & full & Hfull & Hp & Hshape).
    change (t ++ Paused 1%Q :: t') with (t ++ [Paused 1%Q] ++ t').
    rewrite !result_pages_app, !pauses_app, !existsb_app, Hpages, Hpauses, Hb, Hbuilt.
    simpl. rewrite <- app_assoc. split; [done|]. split; [done|].
    exists ((item1 :: items) :: full). split; [by constructor|].
    split; [by rewrite Hp|].
    destruct Hshape as [->|[-> Hlen]]; [by left|right].
    split; [done|]. simpl. lia.
  - destruct Hres as (pre & last & -> & Hlast & Hpre).
    exists (t ++ Paused 1%Q :: pre), last. split; [by rewrite <- app_assoc|].
    split; [done|].
    change (t ++ Paused 1%Q :: pre) with (t ++ [Paused 1%Q] ++ pre).
    by rewrite !existsb_app, Hbuilt, Hpre.
Qed.

Lemma result_pages_length {item} (t : list (search_entry item)) :
  length (result_pages t) = length (requests t).
Proof.
  unfold result_pages, requests.
  induction t as [|e t IH]; [done|]. destruct e; simpl; auto.
Qed.

Lemma slice_to_length {A} (n : Z) (l : list A) :
  (0 ≤ n)%Z → (length (slice_to n l) ≤ Z.to_nat n)%nat.
Proof.
  intros Hn. unfold slice_to.
  destruct (0 <=? n)%Z eqn:H0; [|lia]. rewrite length_take. lia.
Qed.

(** ** The page count

    [math.ceil(max_results / 10)] goes through a float: the quotient is
    rounded to the nearest double before the ceiling is taken. *)

Section PageCount.

Local Open Scope Z_scope.

Lemma round_half_even_le (n d N : Z) :
  (0 < d → n ≤ N * d → round_half_even n d ≤ N)%Z.
Proof.
  intros Hd Hn. unfold round_half_even. cbv zeta.
  pose proof (Z.div_mod n d ltac:(lia)) as Hdm.
  pose proof (Z.mod_pos_bound n d Hd) as Hm.
  destruct (2 * (n mod d) <? d) eqn:H1; [nia|].
  apply Z.ltb_ge in H1.
  assert (n / d < N) by nia.
  destruct (d <? 2 * (n mod d)); [lia|]. destruct (Z.even (n / d)); lia.
Qed.

Lemma round_half_even_gt (n d N : Z) :
  (0 < d → (2 * N + 1) * d < 2 * n → N + 1 ≤ round_half_even n d)%Z.
Proof.
  intros Hd Hn. unfold round_half_even. cbv zeta.
  pose proof (Z.div_mod n d ltac:(lia)) as Hdm.
  pose proof (Z.mod_pos_bound n d Hd) as Hm.
  assert (HN : N ≤ n / d).
  { destruct (Z_le_gt_dec N (n / d)) as [|Hlt]; [done|].
    assert (d * (n / d) ≤ d * (N - 1)) by (apply Z.mul_le_mono_nonneg_l; lia).
    lia. }
  assert (HN' : d * N ≤ d * (n / d)) by (apply Z.mul_le_mono_nonneg_l; lia).
  destruct (2 * (n mod d) <? d) eqn:H1.
  { apply Z.ltb_lt in H1.
    destruct (Z_le_gt_dec (N + 1) (n / d)) as [|Hlt]; [done|].
    assert (n / d = N) by lia. nia. }
  destruct (d <? 2 * (n mod d)) eqn:H2; [lia|].
  apply Z.ltb_ge in H1, H2.
  destruct (Z_le_gt_dec (N + 1) (n / d)) as [|Hlt];
    [destruct (Z.even _); lia|].
  assert (n / d = N) by lia. nia.
Qed.

Lemma round_half_even_nonneg (n d : Z) :
  (0 < d → 0 ≤ n → 0 ≤ round_half_even n d)%Z.
Proof.
  intros Hd Hn. unfold round_half_even. cbv zeta.
  pose proof (Z.div_pos n d Hn Hd).
  destruct (_ <? _); [lia|]. destruct (_ <? _); [lia|].
  destruct (Z.even _); lia.
Qed.

Lemma binary_exponent_le (a : Z) :
  (0 < a < 2 ^ 53 → binary_exponent a 10 ≤ 49)%Z.
Proof.
  intros [H0 H1]. unfold binary_exponent. cbv zeta.
  change (Z.log2 10) with 3.
  assert (Z.log2 a < 53) by (apply Z.log2_lt_pow2; lia).
  destruct (if 0 <=? _ then _ else _); lia.
Qed.

Lemma page_count_exact (a : Z) :
  (0 ≤ a < 2 ^ 53)%Z → page_count a 10 = Returned (exact_ceiling a 10).
Proof.
  intros [H0 H1]. unfold page_count, int_true_div.
  change (10 =? 0) with false. cbv iota.
  change (Z.sgn 10) with 1. change (Z.abs 10) with 10. rewrite Z.mul_1_r.
  destruct (decide (a = 0)) as [->|Ha]; [done|].
  unfold nearest_float. cbv zeta.
  destruct (a =? 0) eqn:E; [apply Z.eqb_eq in E; lia|].
  rewrite (Z.abs_eq a) by lia. rewrite (Z.sgn_pos a) by lia.
  pose proof (binary_exponent_le a ltac:(lia)) as He.
  set (k := Z.max (binary_exponent a 10) (-1022) - 52).
  assert (Hk : -1074 ≤ k ≤ -3) by (unfold k; lia).
  destruct (0 <=? k) eqn:E0; [apply Z.leb_le in E0; lia|].
  set (P := 2 ^ (- k)).
  assert (HP : 8 ≤ P).
  { unfold P. change 8 with (2 ^ 3). apply Z.pow_le_mono_r; lia. }
  set (m := round_half_even (a * P) 10).
  set (q := exact_ceiling a 10).
  assert (Hq : 10 * (q - 1) < a ≤ 10 * q).
  { unfold q, exact_ceiling.
    pose proof (Z.div_mod (- a) 10 ltac:(lia)).
    pose proof (Z.mod_pos_bound (- a) 10 ltac:(lia)). lia. }
  assert (Hle : m ≤ q * P).
  { unfold m. apply round_half_even_le; [lia|].
    assert (a * P ≤ 10 * q * P) by (apply Z.mul_le_mono_nonneg_r; lia).
    lia. }
  assert (Hgt : (q - 1) * P + 1 ≤ m).
  { unfold m. apply round_half_even_gt; [lia|].
    assert ((10 * (q - 1) + 1) * P ≤ a * P)
      by (apply Z.mul_le_mono_nonneg_r; lia).
    lia. }
  rewrite Z.mul_1_l. unfold too_large. rewrite E0.
  fold P.
  assert (Hsmall : (2 ^ 1024 * P <=? Z.abs m) = false).
  { assert (0 ≤ (q - 1) * P) by (apply Z.mul_nonneg_nonneg; lia).
    assert (Hbig : 2 ^ 53 < 2 ^ 1024) by (apply Z.pow_lt_mono_r; lia).
    apply Z.leb_gt. rewrite Z.abs_eq by lia.
    set (B := 2 ^ 1024) in *.
    assert (q * P < B * P) by (apply Z.mul_lt_mono_pos_r; lia).
    lia. }
  rewrite Hsmall. f_equal. unfold math_ceil. rewrite E0. fold P.
  apply Z.opp_inj. rewrite Z.opp_involutive.
  symmetry. apply Z.div_unique with (r := q * P - m); lia.
Qed.

Lemma page_count_nonpositive (a n : Z) :
  (a ≤ 0)%Z → page_count a 10 = Returned n → (n ≤ 0)%Z.
Proof.
  intros Ha. unfold page_count, int_true_div.
  change (10 =? 0) with false. cbv iota.
  change (Z.sgn 10) with 1. change (Z.abs 10) with 10. rewrite Z.mul_1_r.
  destruct (too_large _); [done|]. intros [= <-].
  unfold nearest_float. cbv zeta.
  destruct (a =? 0) eqn:E; [done|]. apply Z.eqb_neq in E.
  rewrite (Z.sgn_neg a) by lia.
  set (k := Z.max _ _ - 52). unfold math_ceil.
  destruct (0 <=? k) eqn:E0.
  - apply Z.leb_le in E0.
    pose proof (round_half_even_nonneg (Z.abs a) (10 * 2 ^ k)
                  ltac:(pose proof (Z.pow_pos_nonneg 2 k); lia) ltac:(lia)).
    pose proof (Z.pow_pos_nonneg 2 k ltac:(lia) E0). nia.
  - apply Z.leb_gt in E0.
    pose proof (Z.pow_pos_nonneg 2 (- k) ltac:(lia) ltac:(lia)) as HP.
    pose proof (round_half_even_nonneg (Z.abs a * 2 ^ (- k)) 10
                  ltac:(lia) ltac:(nia)) as Hm.
    set (m := round_half_even _ _) in *.
    replace (- (-1 * m)) with m by lia.
    pose proof (Z.div_pos _ _ Hm HP). lia.
Qed.

Lemma page_count_raises (a : Z) e :
  page_count a 10 = Raised e →
  e = OtherException "OverflowError: integer division result too large for a float".
Proof.
  unfold page_count, int_true_div. change (10 =? 0) with false. cbv iota.
  destruct (too_large _); [|done]. by intros [= <-].
Qed.

End PageCount.

(** X16: [fetch_all_results] asks for at most [math.ceil(max_results / 10)]
    pages, the ceiling of the float quotient: this is the exact ceiling for
    [0 <= max_results < 2^53]; when the quotient is too large for a float the
    function raises [OverflowError] before any request.  It always asks for
    ten results a page, page [i] (from 0) starting at index [1 + 10 i]; it
    returns at most [max_results] results; and when [max_results] is not
    positive it makes no request and what it returns is the empty list. *)
Theorem fetch_all_results_requests {item} (api : search_api item)
    query api_key cse_id max_results h :
  let run := fetch_all_results api query api_key cse_id max_results h in
  match page_count max_results 10 with
  | Raised e =>
      run = (Raised e, [])
      ∧ e = OtherException
              "OverflowError: integer division result too large for a float"
  | Returned total_pages =>
      (length (requests run.2) ≤ Z.to_nat total_pages)%nat
      ∧ ((max_results ≤ 0)%Z → (total_pages ≤ 0)%Z)
  end
  ∧ ((0 ≤ max_results < 2 ^ 53)%Z →
     page_count max_results 10 = Returned (exact_ceiling max_results 10))
  ∧ (∀ i request,
       requests run.2 !! i = Some request →
       request = (query, cse_id, 10, 1 + Z.of_nat i * 10))
  ∧ ((max_results ≤ 0)%Z → run.2 = [])
  ∧ match run.1 with
    | Returned results =>
        (length results ≤ Z.to_nat max_results)%nat
        ∧ ((max_results ≤ 0)%Z → results = [])
    | Raised _ => True
    end.
Proof.
  cbv zeta. unfold fetch_all_results.
  pose proof (page_count_nonpositive max_results) as Hnonpos.
  pose proof (page_count_raises max_results) as Hraises.
  split; [|split; [apply page_count_exact|]];
    destruct (page_count max_results 10) as [total_pages|e];
    [|split; [done|by apply Hraises]| |by repeat split].
  - destruct (fetch_pages_run api query api_key cse_id 10
                (seqZ 0 total_pages) [] h) as (n & Hn & Hreq & Hres).
    destruct (fetch_pages _ _ _ _ _ _ _ _) as [r t]; cbn [fst snd] in *.
    split; [|intros Hmax; by apply Hnonpos].
    rewrite Hreq, length_fmap, length_take, length_seqZ. apply Nat.le_min_r.
  - destruct (fetch_pages_run api query api_key cse_id 10
                (seqZ 0 total_pages) [] h) as (n & Hn & Hreq & Hres).
    assert (Hnil : (max_results ≤ 0)%Z → seqZ 0 total_pages = []).
    { intros Hmax. apply seqZ_nil. by apply Hnonpos. }
    destruct (fetch_pages _ _ _ _ _ _ _ _) as [r t] eqn:Hrun;
      cbn [fst snd] in *.
    split.
    { intros i request. rewrite Hreq, list_lookup_fmap.
      destruct (take n _ !! i) as [page|] eqn:Hpage; [|done].
      apply lookup_take_Some in Hpage as [Hpage _].
      apply lookup_seqZ in Hpage as [-> _]. by intros [= <-]. }
    split.
    { intros Hmax. rewrite (Hnil Hmax) in Hrun. by injection Hrun as <- <-. }
    destruct r as [results|e]; [|done].
    split.
    + destruct (decide (0 ≤ max_results)%Z) as [Hmax|Hmax];
        [by apply slice_to_length|].
      rewrite Hnil in Hrun by lia. injection Hrun as <- <-.
      unfold slice_to. destruct (0 <=? max_results)%Z; rewrite take_nil; simpl; lia.
    + intros Hmax. rewrite (Hnil Hmax) in Hrun. injection Hrun as <- <-.
      unfold slice_to. by destruct (0 <=? max_results)%Z; rewrite take_nil.
Qed.

(** X17: the results of [fetch_all_results] are the result pages in the order
    they were requested, cut to [max_results].  Every page requested but the
    last has items, and the function sleeps one second after each page that
    has items; an empty page ends the search, and so does a request that
    failed, which counts as an empty page. *)
Theorem fetch_all_results_pages {item} (api : search_api item)
    query api_key cse_id max_results h :
  let run := fetch_all_results api query api_key cse_id max_results h in
  match run.1 with
  | Returned results =>
      results = slice_to max_results (mjoin (result_pages run.2))
      ∧ ∃ full,
          Forall (λ page, page ≠ []) full
          ∧ pauses run.2 = (λ _, 1%Q) <$> full
          ∧ (result_pages run.2 = full ∨ result_pages run.2 = full ++ [[]])
  | Raised _ => True
  end.
Proof.
  cbv zeta. unfold fetch_all_results.
  destruct (page_count max_results 10) as [total_pages|e]; [|done].
  destruct (fetch_pages_run api query api_key cse_id 10
              (seqZ 0 total_pages) [] h) as (n & Hn & Hreq & Hres).
  destruct (fetch_pages _ _ _ _ _ _ _ _) as [[results|e] t];
    cbn [fst snd] in *; [|done].
  destruct Hres as (-> & _ & full & Hfull & Hp & Hshape).
  split; [done|]. exists full. split; [done|]. split; [done|].
  destruct Hshape as [->|[-> _]]; auto.
Qed.

(** X18: [fetch_all_results] raises in three cases only.  The page count
    raises [OverflowError] when the quotient is too large for a float, before
    anything is built or requested.  And of the failures of the search API
    two escape [google_search]: that of [build], which is outside the [try],
    and that of decoding the content of an [HttpError] inside its handler;
    every other failure of a request counts as an empty page.  In these two
    cases the function ends with that exception as its last step, and what
    the earlier pages gave is lost.  When it returns, none of the three
    happened. *)
Theorem fetch_all_results_failure {item} (api : search_api item)
    query api_key cse_id max_results h :
  let run := fetch_all_results api query api_key cse_id max_results h in
  match run.1 with
  | Returned _ =>
      existsb escaped run.2 = false
      ∧ ∃ total_pages, page_count max_results 10 = Returned total_pages
  | Raised e =>
      (page_count max_results 10 = Raised e
       ∧ e = OtherException
               "OverflowError: integer division result too large for a float"
       ∧ run.2 = [])
      ∨ ((∃ total_pages, page_count max_results 10 = Returned total_pages)
         ∧ ∃ pre last, run.2 = pre ++ [last]
                       ∧ escapes last = Some e
                       ∧ existsb escaped pre = false)
  end.
Proof.
  cbv zeta. unfold fetch_all_results.
  pose proof (page_count_raises max_results) as Hraises.
  destruct (page_count max_results 10) as [total_pages|e];
    [|left; split; [done|split; [by apply Hraises|done]]].
  destruct (fetch_pages_run api query api_key cse_id 10
              (seqZ 0 total_pages) [] h) as (n & Hn & Hreq & Hres).
  destruct (fetch_pages _ _ _ _ _ _ _ _) as [[results|e] t];
    cbn [fst snd] in *.
  - destruct Hres as (_ & Hb & _). split; [done|by eexists].
  - right. split; [by eexists|done].
Qed.

(** Twenty-five items are served in three pages; asked for twelve results
    the function reads two pages and cuts the second.  With a service that
    cannot be built for the third page the two pages read are lost, and so is
    the first page when the error that follows it cannot be decoded.  Beyond
    [2^53] the page count can exceed the exact ceiling, and a quotient that
    no float holds ends the function before any request. *)
Example fetch_all_results_runs :
  (fetch_all_results (numbered_api 25) "q" "key" "cx" 30 []).1
  = Returned (seqZ 1 25)
  ∧ requests (fetch_all_results (numbered_api 25) "q" "key" "cx" 30 []).2
    = [("q", "cx", 10, 1); ("q", "cx", 10, 11); ("q", "cx", 10, 21)]
  ∧ (fetch_all_results (numbered_api 25) "q" "key" "cx" 12 []).1
    = Returned (seqZ 1 12)
  ∧ (fetch_all_results expiring_api "q" "key" "cx" 30 []).1
    = Raised (OtherException "invalid_grant: token expired")
  ∧ length (result_pages (fetch_all_results expiring_api "q" "key" "cx" 30 []).2)
    = 2%nat
  ∧ (fetch_all_results garbled_api "q" "key" "cx" 30 []).1
    = Raised (OtherException "'utf-8' codec can't decode byte 0xff")
  ∧ page_count 25 10 = Returned 3
  ∧ page_count (-25) 10 = Returned (-2)
  ∧ page_count 90071992547409950 10 = Returned 9007199254740996
  ∧ exact_ceiling 90071992547409950 10 = 9007199254740995
  ∧ fetch_all_results (numbered_api 25) "q" "key" "cx" (10 ^ 400) []
    = (Raised (OtherException
                 "OverflowError: integer division result too large for a float"),
       [])
  ∧ fetch_all_results (numbered_api 25) "q" "key" "cx" (- 10 ^ 400) []
    = (Raised (OtherException
                 "OverflowError: integer division result too large for a float"),
       []).
Proof. repeat split; vm_compute; reflexivity. Qed.

(** * The search front end *)

(** ** Lower case and substrings *)

Lemma lower_char_idemp c : lower_char (lower_char c) = lower_char c.
Proof.
  destruct c as [b0 b1 b2 b3 b4 b5 b6 b7].
  destruct b0, b1, b2, b3, b4, b5, b6, b7; reflexivity.
Qed.

Lemma lower_idemp s : lower (lower s) = lower s.
Proof.
  induction s as [|c s IH]; [done|]. simpl. by rewrite lower_char_idemp, IH.
Qed.

Lemma prefix_lowered needle hay :
  String.prefix needle hay = true → lower hay = hay → lower needle = needle.
Proof.
  revert hay. induction needle as [|a needle IH]; intros hay; [done|].
  destruct hay as [|b hay]; [done|]. simpl.
  destruct (ascii_dec a b) as [->|]; [|done].
  intros Hp [= Hb Hhay]. by rewrite Hb, (IH hay).
Qed.

Lemma contains_lowered needle hay :
  contains needle hay = true → lower hay = hay → lower needle = needle.
Proof.
  induction hay as [|b hay IH].
  - simpl. rewrite orb_false_r. intros Hp _. by apply (prefix_lowered _ EmptyString).
  - cbn [contains]. intros [Hp|Hc]%orb_true_iff Hhay.
    + by apply (prefix_lowered _ (String b hay)).
    + simpl in Hhay. injection Hhay as _ Hhay. by apply IH.
Qed.

(** X19: [is_valid_news_domain] rejects a URL exactly when its host cannot
    be parsed, or some entry of [excluded_domains] occurs in the lower-cased
    host; and an entry that occurs there is itself in lower case.  So an
    exclusion written with a capital letter never excludes anything. *)
Theorem is_valid_news_domain_rejects self lib u :
  web_crawler.is_valid_news_domain self lib u = false ↔
  (∃ e, web_crawler.urlparse_netloc lib u = Raised e)
  ∨ (∃ netloc excluded,
       web_crawler.urlparse_netloc lib u = Returned netloc
       ∧ excluded ∈ web_crawler.excluded_domains self
       ∧ lower excluded = excluded
       ∧ contains excluded (lower netloc) = true).
Proof.
  unfold web_crawler.is_valid_news_domain.
  destruct (web_crawler.urlparse_netloc lib u) as [netloc|e]; cbv zeta.
  2: { split; [intros _; left; by exists e|done]. }
  destruct (existsb _ _) eqn:Hex.
  - split; [intros _; right|done].
    apply existsb_exists in Hex as (excluded & Hin & Hc).
    exists netloc, excluded. split; [done|].
    split; [by apply list_elem_of_In|]. split; [|done].
    apply (contains_lowered _ _ Hc), lower_idemp.
  - split; [done|]. intros [[e [=]]|(n & excluded & [= <-] & Hin & _ & Hc)].
    apply not_true_iff_false in Hex. destruct Hex.
    apply existsb_exists. exists excluded. split; [by apply list_elem_of_In|done].
Qed.

(** ** The article fetch *)

Lemma fetch_articles_loop_run self lib g articles :
  web_crawler.fetch_articles_loop self lib g articles
  = match failure g with
    | Some e => Raised e
    | None =>
        Returned (articles
                  ++ List.filter (web_crawler.is_valid_news_domain self lib)
                       (yielded g))
    end.
Proof.
  revert articles. induction g as [|u rest IH|e]; intros articles; simpl.
  - by rewrite app_nil_r.
  - rewrite IH. destruct (failure rest); [done|].
    destruct (web_crawler.is_valid_news_domain self lib u); [|done].
    by rewrite <- app_assoc.
  - done.
Qed.

(** X20: when the search ends normally, [fetch_articles] returns the URLs it
    yielded that pass the domain filter, in the order they were yielded.
    When the search raises, at whatever point, it returns the empty list: the
    articles gathered before the failure are dropped. *)
Theorem fetch_articles_result self lib query max_results :
  let g := web_crawler.search lib query "com" "en" 10 0 max_results 2 in
  web_crawler.fetch_articles self lib query max_results
  = match failure g with
    | Some _ => []
    | None => List.filter (web_crawler.is_valid_news_domain self lib) (yielded g)
    end.
Proof.
  cbv zeta. unfold web_crawler.fetch_articles.
  rewrite fetch_articles_loop_run. by destruct (failure _).
Qed.

(** A search that yields three URLs: the one on an excluded host is dropped;
    an exclusion written with capitals drops nothing; and when the search
    fails after the third URL nothing is returned. *)
Example fetch_articles_runs :
  let search config :=
    web_crawler.__init__
      {| web_crawler.config_id := None; web_crawler.config_days_back := None;
         web_crawler.config_excluded_domains := Some config |} in
  web_crawler.fetch_articles (search ["news24.com"]) (demo_library false) "q" 200
  = ["https://example.org/b"; "https://blog.example.org/c"]
  ∧ web_crawler.fetch_articles (search ["News24.com"]) (demo_library false) "q" 200
    = ["https://www.News24.com/a"; "https://example.org/b";
       "https://blog.example.org/c"]
  ∧ web_crawler.fetch_articles (search ["news24.com"]) (demo_library true) "q" 200
    = [].
Proof. repeat split; vm_compute; reflexivity. Qed.

Lemma contains_empty hay : contains EmptyString hay = true.
Proof. by destruct hay. Qed.

(** X21: an empty string among the excluded domains occurs in every host,
    so with such a configuration every URL is rejected and [fetch_articles]
    returns nothing, whatever the search yields. *)
Theorem empty_exclusion_rejects_everything self lib query max_results :
  EmptyString ∈ web_crawler.excluded_domains self →
  (∀ u, web_crawler.is_valid_news_domain self lib u = false)
  ∧ web_crawler.fetch_articles self lib query max_results = [].
Proof.
  intros Hin.
  assert (Hrej : ∀ u, web_crawler.is_valid_news_domain self lib u = false).
  { intros u. unfold web_crawler.is_valid_news_domain.
    destruct (web_crawler.urlparse_netloc lib u) as [netloc|]; [|done].
    cbv zeta.
    assert (existsb (λ excluded, contains excluded (lower netloc))
              (web_crawler.excluded_domains self) = true) as ->; [|done].
    apply existsb_exists. exists EmptyString.
    split; [by apply list_elem_of_In|apply contains_empty]. }
  split; [done|].
  unfold web_crawler.fetch_articles. rewrite fetch_articles_loop_run.
  destruct (failure _); [done|]. simpl.
  induction (yielded _) as [|u l IH]; [done|]. simpl. by rewrite Hrej.
Qed.

Lemma empty_exclusion_rejects_everything_witness :
  let self :=
    web_crawler.__init__
      {| web_crawler.config_id := None; web_crawler.config_days_back := None;
         web_crawler.config_excluded_domains := Some ["facebook.com"; EmptyString] |} in
  (∀ u, web_crawler.is_valid_news_domain self (demo_library false) u = false)
  ∧ web_crawler.fetch_articles self (demo_library false) "q" 200 = [].
Proof.
  apply empty_exclusion_rejects_everything.
  apply list_elem_of_In. simpl. auto.
Defined.

(** ** The query *)

Lemma append_assoc (a b c : string) : (a +:+ b) +:+ c = a +:+ b +:+ c.
Proof.
  induction a as [|x a IH]; [done|].
  change (String x ((a +:+ b) +:+ c) = String x (a +:+ b +:+ c)).
  by rewrite IH.
Qed.

Lemma prefix_refl s : String.prefix s s = true.
Proof.
  induction s as [|c s IH]; [done|]. simpl. by destruct (ascii_dec c c).
Qed.

Lemma prefix_empty hay : String.prefix EmptyString hay = true.
Proof. by destruct hay. Qed.

Lemma prefix_app_l needle a b :
  String.prefix needle a = true → String.prefix needle (a +:+ b) = true.
Proof.
  revert a. induction needle as [|c needle IH]; intros a;
    [intros _; apply prefix_empty|].
  destruct a as [|c' a]; [done|].
  change (String c' a +:+ b) with (String c' (a +:+ b)). simpl.
  destruct (ascii_dec c c'); [apply IH|done].
Qed.

Lemma contains_app_l needle a b :
  contains needle a = true → contains needle (a +:+ b) = true.
Proof.
  induction a as [|c a IH].
  - simpl. rewrite orb_false_r. destruct needle; [|done].
    intros _. apply contains_empty.
  - cbn [contains]. intros [Hp|Hc]%orb_true_iff.
    + change (String c a +:+ b) with (String c (a +:+ b)). cbn [contains].
      change (String c (a +:+ b)) with (String c a +:+ b).
      by rewrite (prefix_app_l _ _ _ Hp).
    + change (String c a +:+ b) with (String c (a +:+ b)). cbn [contains].
      by rewrite (IH Hc), orb_true_r.
Qed.

Lemma contains_app_r needle a b :
  contains needle b = true → contains needle (a +:+ b) = true.
Proof.
  intros Hb. induction a as [|c a IH]; [done|].
  change (String c a +:+ b) with (String c (a +:+ b)). cbn [contains].
  by rewrite IH, orb_true_r.
Qed.

Lemma contains_refl s : contains s s = true.
Proof.
  destruct s as [|c s]; [done|]. cbn [contains].
  by rewrite prefix_refl.
Qed.

Lemma contains_concat sep x l :
  x ∈ l → contains x (String.concat sep l) = true.
Proof.
  induction l as [|y l IH]; [by intros ?%elem_of_nil|].
  intros [->|Hin]%elem_of_cons.
  - destruct l as [|z l]; [apply contains_refl|].
    cbn [String.concat]. apply contains_app_l, contains_refl.
  - destruct l as [|z l]; [by apply elem_of_nil in Hin|].
    cbn [String.concat]. apply contains_app_r, contains_app_r. by apply IH.
Qed.

(** X22: the query [construct_query] builds excludes every excluded domain
    with a [-site:] term of its own, and ends with the date range
    [after:start before:end]. *)
Theorem construct_query_sites_and_dates self start_date end_date evidence :
  let query :=
    web_crawler.construct_query self start_date end_date evidence in
  (∀ domain, domain ∈ web_crawler.excluded_domains self →
             contains ("-site:" +:+ domain) query = true)
  ∧ ∃ body, query = body +:+ " after:" +:+ start_date +:+ " before:" +:+ end_date
            ∧ contains (String.concat " OR " (web_crawler.trafficking_terms self))
                body = true.
Proof.
  cbv zeta. unfold web_crawler.construct_query. cbv zeta.
  set (trafficking := "(" +:+ String.concat " OR " _ +:+ ")").
  set (base := if evidence then _ else _).
  set (sites := String.concat " " _).
  assert (Hbase : contains (String.concat " OR " (web_crawler.trafficking_terms self))
                    base = true).
  { assert (Ht : contains (String.concat " OR " (web_crawler.trafficking_terms self))
                   trafficking = true).
    { subst trafficking. apply contains_app_r, contains_app_l, contains_refl. }
    subst base. destruct evidence; [|done]. by apply contains_app_l. }
  split.
  - intros domain Hin. apply contains_app_r, contains_app_r, contains_app_l.
    subst sites. apply contains_concat.
    apply (list_elem_of_fmap_2 (λ domain, "-site:" +:+ domain)), Hin.
  - exists (base +:+ " " +:+ sites). split.
    + by rewrite !append_assoc.
    + by apply contains_app_l.
Qed.

(** ** The crawler's [main] *)

(** X23: [main] puts the [--days_back] of the command line (7 when it is not
    given) under [days_back] of every run configuration before it builds the
    searcher, so the [days_back] a configuration holds itself, or its
    absence, has no effect on the run. *)
Theorem main_days_back_from_command_line cw args_days_back run_configs days h :
  web_crawler.main cw args_days_back
    ((λ config, with_days_back (days config) config) <$> run_configs) h
  = web_crawler.main cw args_days_back run_configs h.
Proof.
  revert h. induction run_configs as [|config rest IH]; intros h; [done|].
  cbn [fmap list_fmap web_crawler.main]; cbv zeta.
  change (web_crawler.set_days_back args_days_back
            (with_days_back (days config) config))
    with (web_crawler.set_days_back args_days_back config).
  destruct (web_crawler.get_recent_articles _ cw h) as [[[|u l]|e] t];
    [|destruct (web_crawler.save_to_csv _ cw (u :: l) (h ++ t)) as [[[]|e] t1]|];
    try done; fold (@fmap list _); by rewrite IH.
Qed.

Lemma prefix_app needle rest : String.prefix needle (needle +:+ rest) = true.
Proof. apply prefix_app_l, prefix_refl. Qed.

Lemma filter_length_app {A} (f : A → bool) (l1 l2 : list A) :
  length (List.filter f (l1 ++ l2))
  = (length (List.filter f l1) + length (List.filter f l2))%nat.
Proof. by rewrite List.filter_app, length_app. Qed.

Ltac csv_forall :=
  repeat first
    [ assumption
    | exact I
    | apply Forall_nil
    | apply Forall_app; split
    | apply Forall_cons; split ].

(** X24: [main] searches once for each run configuration it gets to and
    writes at most one CSV file per search: none for a search that found no
    article.  Every file it writes is under [output/] and has at least one
    row, and every row gives a URL, the domain [tldextract] finds in it and
    the source [google_miner]. *)
Theorem main_csv_files cw args_days_back run_configs h :
  let run := web_crawler.main cw args_days_back run_configs h in
  Forall (csv_ok cw) run.2
  ∧ (length (List.filter is_csv run.2) ≤ length (List.filter is_search run.2))%nat
  ∧ (length (List.filter is_search run.2) ≤ length run_configs)%nat
  ∧ (run.1 = Returned tt →
     length (List.filter is_search run.2) = length run_configs).
Proof.
  cbv zeta. revert h. induction run_configs as [|config rest IH]; intros h.
  { simpl. by repeat split. }
  cbn [web_crawler.main]; cbv zeta.
  set (searcher := web_crawler.__init__ _).
  unfold web_crawler.get_recent_articles; cbv zeta.
  destruct (web_crawler.minus_days cw _ _) as [start_date|e].
  2: { simpl. split; [csv_forall|]. repeat split; try lia; done. }
  set (t := [_; web_crawler.Searched _ _]).
  destruct (web_crawler.fetch_articles searcher _ _ 200) as [|u l].
  { specialize (IH (h ++ t)).
    destruct (web_crawler.main cw args_days_back rest (h ++ t)) as [r t'].
    cbn [fst snd] in *. destruct IH as (Hok & Hcsv & Hsearch & Hall).
    split; [csv_forall|]. simpl.
    split; [lia|]. split; [lia|]. intros Hr. by rewrite Hall. }
  unfold web_crawler.save_to_csv; cbv zeta.
  destruct (web_crawler.makedirs cw _ "output") as [[]|e].
  2: { simpl. split; [csv_forall|]. repeat split; try lia; done. }
  set (rows := _ <$> (u :: l)).
  set (file_name := _ +:+ _).
  assert (Hfile : csv_ok cw (web_crawler.WroteCsv file_name rows
                               (web_crawler.write_csv cw
                                  ((h ++ t) ++ [web_crawler.Now
                                                  (web_crawler.datetime_now cw (h ++ t));
                                                web_crawler.MadeDirs "output" (Returned ())])
                                  file_name rows))).
  { split; [|split].
    - subst file_name.
      change ("output" +:+ "/saved_urls_" +:+ ?x)
        with ("output/saved_urls_" +:+ x).
      apply prefix_app.
    - done.
    - subst rows. apply Forall_fmap, Forall_forall. by intros. }
  destruct (web_crawler.write_csv cw _ file_name rows) as [[]|e].
  2: { simpl. split; [csv_forall|]. repeat split; try lia; done. }
  match goal with |- context [web_crawler.main cw args_days_back rest ?hh] =>
    specialize (IH hh); destruct (web_crawler.main cw args_days_back rest hh)
      as [r t'] end.
  cbn [fst snd] in *. destruct IH as (Hok & Hcsv & Hsearch & Hall).
  split.
  { csv_forall. }
  rewrite !filter_length_app. simpl.
  split; [lia|]. split; [lia|]. intros Hr. by rewrite Hall.
Qed.
